(** * Campus map integration: geodesy, path generator and keyword matcher

    A shallow embedding of [lib/path-network.ts], of the computational
    part of [components/ai-navigator.tsx] and its event handlers, of the
    effects of [components/campus-map.tsx] and of the wiring of
    [app/page.tsx].

    JavaScript numbers are IEEE 754 binary64 values; they are modelled by
    [spec_float] with precision 53 and maximal exponent 1024, and the
    arithmetic operators by the corresponding [SpecFloat] operations.  The
    transcendental functions [Math.sin], [Math.cos] and [Math.atan2] are
    implementation-approximated in ECMAScript: they are parameters of the
    geodesy functions, bundled in a record [MathRuntime].

    JavaScript strings are modelled by [string], one [ascii] per code unit:
    the model covers the strings whose code units are below 256.  Integer
    counters (array lengths, loop indices, keyword scores) are exact in
    binary64 far beyond the sizes that occur here and are modelled by
    [nat] and [Z]. *)

From Stdlib Require Import ZArith List String Ascii Bool Lia DecimalString.
From Stdlib Require Import QArith Qpower Qround Lqa.
From Stdlib Require Import Floats.SpecFloat.
Import ListNotations.

Local Open Scope Z_scope.

(** ** JavaScript numbers *)

Module JS.

Definition number := spec_float.

Definition prec : Z := 53.
Definition emax : Z := 1024.

Definition add : number -> number -> number := SFadd prec emax.
Definition sub : number -> number -> number := SFsub prec emax.
Definition mul : number -> number -> number := SFmul prec emax.
Definition div : number -> number -> number := SFdiv prec emax.
Definition neg : number -> number := SFopp.
Definition ltb : number -> number -> bool := SFltb.
Definition leb : number -> number -> bool := SFleb.
Definition eqb : number -> number -> bool := SFeqb.

(** A number is well formed when it is a binary64 value. *)
Definition valid (x : number) : bool := valid_binary prec emax x.

Definition is_nan (x : number) : bool :=
  match x with S754_nan => true | _ => false end.

Definition is_finite (x : number) : bool :=
  match x with S754_zero _ | S754_finite _ _ _ => true | _ => false end.

(** The number denoted by an integer literal. *)
Definition of_Z (n : Z) : number := binary_normalize prec emax n 0 false.

Definition NaN : number := S754_nan.
Definition Infinity : number := S754_infinity false.
Definition zero : number := S754_zero false.

(** [Math.PI], the binary64 value nearest to pi: 0x1.921fb54442d18p+1. *)
Definition Math_PI : number := S754_finite false 0x1921FB54442D18 (-51).

Definition Math_sqrt : number -> number := SFsqrt prec emax.

(** The [%] operator (Number::remainder): the result has the sign of the
    dividend and is computed exactly. *)
Definition rem (n d : number) : number :=
  match n, d with
  | S754_nan, _ | _, S754_nan => S754_nan
  | S754_infinity _, _ => S754_nan
  | _, S754_infinity _ => n
  | _, S754_zero _ => S754_nan
  | S754_zero _, _ => n
  | S754_finite sn mn en, S754_finite sd md ed =>
      let ez := Z.min en ed in
      let N := Zpos (fst (shl_align mn en ez)) in
      let D := Zpos (fst (shl_align md ed ez)) in
      binary_normalize prec emax (cond_Zopp sn (Z.rem N D)) ez sn
  end.

(** [Math.round]: the nearest integer, ties towards +Infinity; a result of
    zero keeps the sign of the argument. *)
Definition Math_round (x : number) : number :=
  match x with
  | S754_finite s m e =>
      if 0 <=? e then x
      else binary_normalize prec emax
             ((cond_Zopp s (2 * Zpos m) + 2 ^ (- e)) / 2 ^ (1 - e)) 0 s
  | _ => x
  end.

(** The integer a number denotes, when it denotes one. *)
Definition to_integer (x : number) : option Z :=
  match x with
  | S754_zero _ => Some 0
  | S754_finite s m e =>
      if 0 <=? e then Some (cond_Zopp s (Zpos m * 2 ^ e))
      else if Zpos m mod 2 ^ (- e) =? 0
           then Some (cond_Zopp s (Zpos m / 2 ^ (- e)))
           else None
  | _ => None
  end.

(** [a[i]] for an array [a] and a number [i]: [undefined] ([None]) unless
    [i] is an integer index below the length. *)
Definition array_get {A : Type} (a : list A) (i : number) : option A :=
  match to_integer i with
  | Some k =>
      if (0 <=? k) && (k <? Z.of_nat (List.length a))
      then nth_error a (Z.to_nat k) else None
  | None => None
  end.

(** The implementation-approximated functions of the [Math] object. *)
Record MathRuntime : Type := {
  Math_sin : number -> number;
  Math_cos : number -> number;
  Math_atan2 : number -> number -> number
}.

(** *** Strings *)

(** The code units below 256 that [String.prototype.trim] and the regular
    expression class [\s] treat as white space. *)
Definition is_whitespace (c : ascii) : bool :=
  let n := nat_of_ascii c in
  ((9 <=? n) && (n <=? 13) || (n =? 32) || (n =? 160))%nat.

Definition lower_char (c : ascii) : ascii :=
  let n := nat_of_ascii c in
  if ((65 <=? n) && (n <=? 90)
      || (192 <=? n) && (n <=? 222) && negb (n =? 215))%nat
  then ascii_of_nat (n + 32) else c.

(** [String.prototype.toLowerCase] on code units below 256, each of which
    it maps to one code unit. *)
Fixpoint toLowerCase (s : string) : string :=
  match s with
  | EmptyString => EmptyString
  | String c s' => String (lower_char c) (toLowerCase s')
  end.

Fixpoint trimStart (s : string) : string :=
  match s with
  | EmptyString => EmptyString
  | String c s' => if is_whitespace c then trimStart s' else s
  end.

Fixpoint trimEnd (s : string) : string :=
  match s with
  | EmptyString => EmptyString
  | String c s' =>
      match trimEnd s' with
      | EmptyString => if is_whitespace c then EmptyString else String c EmptyString
      | t => String c t
      end
  end.

Definition trim (s : string) : string := trimEnd (trimStart s).

(** [s.split(/\s+/)]: the pieces between the maximal runs of white space;
    a leading or trailing run leaves an empty piece at that end. *)
Fixpoint split_from (piece : string) (in_run : bool) (s : string) : list string :=
  match s with
  | EmptyString => [piece]
  | String c s' =>
      if is_whitespace c then
        if in_run then split_from piece true s'
        else piece :: split_from EmptyString true s'
      else split_from (piece ++ String c EmptyString) false s'
  end.

Definition split_whitespace (s : string) : list string :=
  split_from EmptyString false s.

(** [s.includes(t)]: [t] occurs in [s] as a contiguous substring. *)
Fixpoint includes (s t : string) : bool :=
  String.prefix t s
  || match s with
     | EmptyString => false
     | String _ s' => includes s' t
     end.

(** *** Arrays *)

(** [a.sort(cmp)]: the sort is stable, so for a consistent comparator the
    result is the one of insertion sort. *)
Fixpoint sort_insert {A : Type} (cmp : A -> A -> Z) (x : A) (l : list A) : list A :=
  match l with
  | [] => [x]
  | y :: l' => if cmp x y <=? 0 then x :: l else y :: sort_insert cmp x l'
  end.

Fixpoint sort {A : Type} (cmp : A -> A -> Z) (l : list A) : list A :=
  match l with
  | [] => []
  | x :: l' => sort_insert cmp x (sort cmp l')
  end.

End JS.

Declare Scope js_scope.
Delimit Scope js_scope with js.
Infix "+" := JS.add : js_scope.
Infix "-" := JS.sub : js_scope.
Infix "*" := JS.mul : js_scope.
Infix "/" := JS.div : js_scope.
Infix "mod" := JS.rem : js_scope.

(** ** lib/campus-data.ts

    The registry itself is a static table; the functions below take its
    list of locations as an argument. *)

Module CampusData.
Import JS.

Record Location : Type := {
  name : string;
  lat : number;
  lng : number;
  type : string;
  description : string;
  landmarks : option string;
  tags : list string;
  icon : string
}.

End CampusData.

(** ** lib/path-network.ts *)

Module PathNetwork.
Import JS.

Inductive NodeType := intersection | location | waypoint.

Record PathNode : Type := {
  id : string;
  lat : number;
  lng : number;
  name : string;
  type : NodeType
}.

Section Geodesy.
Variable M : MathRuntime.

Definition calculateDistance (lat1 lng1 lat2 lng2 : number) : number :=
  (let R := of_Z 6371000 in
   let phi1 := (lat1 * Math_PI) / of_Z 180 in
   let phi2 := (lat2 * Math_PI) / of_Z 180 in
   let dphi := ((lat2 - lat1) * Math_PI) / of_Z 180 in
   let dlam := ((lng2 - lng1) * Math_PI) / of_Z 180 in
   let a := Math_sin M (dphi / of_Z 2) * Math_sin M (dphi / of_Z 2)
            + Math_cos M phi1 * Math_cos M phi2
              * Math_sin M (dlam / of_Z 2) * Math_sin M (dlam / of_Z 2) in
   let c := of_Z 2 * Math_atan2 M (Math_sqrt a) (Math_sqrt (of_Z 1 - a)) in
   R * c)%js.

Definition calculateBearing (lat1 lng1 lat2 lng2 : number) : number :=
  (let phi1 := (lat1 * Math_PI) / of_Z 180 in
   let phi2 := (lat2 * Math_PI) / of_Z 180 in
   let dlam := ((lng2 - lng1) * Math_PI) / of_Z 180 in
   let y := Math_sin M dlam * Math_cos M phi2 in
   let x := Math_cos M phi1 * Math_sin M phi2
            - Math_sin M phi1 * Math_cos M phi2 * Math_cos M dlam in
   let theta := Math_atan2 M y x in
   ((theta * of_Z 180) / Math_PI + of_Z 360) mod of_Z 360)%js.

End Geodesy.

Definition directions : list string :=
  ["north"; "northeast"; "east"; "southeast";
   "south"; "southwest"; "west"; "northwest"]%string.

Definition bearingToDirection (bearing : number) : option string :=
  let index := (Math_round (bearing / of_Z 45) mod of_Z 8)%js in
  array_get directions index.

Definition findPath (locations : list CampusData.Location)
    (startLocationName endLocationName : string) : option (list PathNode) :=
  let startLocation :=
    find (fun loc => String.eqb (CampusData.name loc) startLocationName) locations in
  let endLocation :=
    find (fun loc => String.eqb (CampusData.name loc) endLocationName) locations in
  match startLocation, endLocation with
  | Some startLocation, Some endLocation =>
      let midLat := ((CampusData.lat startLocation + CampusData.lat endLocation) / of_Z 2)%js in
      let midLng := ((CampusData.lng startLocation + CampusData.lng endLocation) / of_Z 2)%js in
      Some [ {| id := "start";
                lat := CampusData.lat startLocation;
                lng := CampusData.lng startLocation;
                name := startLocationName;
                type := location |};
             {| id := "mid"; lat := midLat; lng := midLng;
                name := "Midpoint"; type := waypoint |};
             {| id := "end";
                lat := CampusData.lat endLocation;
                lng := CampusData.lng endLocation;
                name := endLocationName;
                type := location |} ]
  | _, _ => None
  end.

Section Directions.
Variable M : MathRuntime.
(** Number::toString, used by the template literals. *)
Variable Number_toString : number -> string.

Local Open Scope string_scope.

(** An [undefined] direction is printed as such by a template literal. *)
Definition show_direction (d : option string) : string :=
  match d with Some s => s | None => "undefined" end.

Definition segment_line (len i : nat) (currentNode nextNode : PathNode) : string :=
  let distance :=
    calculateDistance M (lat currentNode) (lng currentNode) (lat nextNode) (lng nextNode) in
  let bearing :=
    calculateBearing M (lat currentNode) (lng currentNode) (lat nextNode) (lng nextNode) in
  let direction := bearingToDirection bearing in
  if (i =? 0)%nat then
    "Head " ++ show_direction direction ++ " for "
      ++ Number_toString (Math_round distance) ++ "m"
  else if (i =? len - 2)%nat then
    "Continue " ++ show_direction direction ++ " for "
      ++ Number_toString (Math_round distance) ++ "m to reach " ++ name nextNode
  else
    "Continue " ++ show_direction direction ++ " for "
      ++ Number_toString (Math_round distance) ++ "m".

Definition tip_new_student : string := "💡 Tip: Look for landmarks along the way".
Definition tip_cat_lover : string := "😻 Keep an eye out for campus cats!".
Definition tip_cat_fearful : string := "😰 Stay on well-lit paths".

Definition persona_tip (persona : string) (len i : nat) : list string :=
  if (persona =? "new-student") && (i =? 0)%nat then [tip_new_student]
  else if (persona =? "cat-lover") && (i =? len / 2)%nat then [tip_cat_lover]
  else if (persona =? "cat-fearful") && (i =? 0)%nat then [tip_cat_fearful]
  else [].

(** The body of the [for] loop, from index [i] on; [path] is the part of
    the array that starts at index [i] and [len] the length of the whole. *)
Fixpoint segments (persona : string) (len i : nat) (path : list PathNode) : list string :=
  match path with
  | currentNode :: ((nextNode :: _) as rest) =>
      segment_line len i currentNode nextNode
        :: persona_tip persona len i ++ segments persona len (S i) rest
  | _ => []
  end.

Fixpoint sumSegments (sum : number) (previous : PathNode) (rest : list PathNode) : number :=
  match rest with
  | [] => sum
  | node :: rest' =>
      sumSegments
        (sum + calculateDistance M (lat previous) (lng previous) (lat node) (lng node))%js
        node rest'
  end.

(** The [reduce] call: index 0 resets the sum to 0. *)
Definition totalDistance (path : list PathNode) : number :=
  match path with
  | [] => of_Z 0
  | first :: rest => sumSegments (of_Z 0) first rest
  end.

Definition generateDirections (path : list PathNode) (persona : string) : list string :=
  match path with
  | first :: _ :: _ =>
      ("Start at " ++ name first)
        :: segments persona (List.length path) 0 path
        ++ [ "Arrive at " ++ name (List.last path first);
             "📍 Total distance: " ++ Number_toString (Math_round (totalDistance path)) ++ "m" ]
  | _ => []
  end.

End Directions.

End PathNetwork.

(** ** components/ai-navigator.tsx *)

Module AINavigator.
Import JS CampusData.

Section Navigator.
Variable M : MathRuntime.

Definition calculateDistance (lat1 lon1 lat2 lon2 : number) : number :=
  (let R := of_Z 6371000 in
   let phi1 := (lat1 * Math_PI) / of_Z 180 in
   let phi2 := (lat2 * Math_PI) / of_Z 180 in
   let dphi := ((lat2 - lat1) * Math_PI) / of_Z 180 in
   let dlam := ((lon2 - lon1) * Math_PI) / of_Z 180 in
   let a := Math_sin M (dphi / of_Z 2) * Math_sin M (dphi / of_Z 2)
            + Math_cos M phi1 * Math_cos M phi2
              * Math_sin M (dlam / of_Z 2) * Math_sin M (dlam / of_Z 2) in
   let c := of_Z 2 * Math_atan2 M (Math_sqrt a) (Math_sqrt (of_Z 1 - a)) in
   R * c)%js.

End Navigator.

Inductive MessageType := user | ai.

Record Message : Type := { type : MessageType; text : string }.

Inductive Permission := granted | denied | prompt.

(** The component state that [processQuery] reads and writes. *)
Record State : Type := {
  messages : list Message;
  userLocation : option (number * number);
  locationPermission : Permission
}.

(** The calls made to the two callbacks received as props. *)
Inductive Callback :=
| onLocationFound (location : Location)
| onRouteRequest (from to : string).

Definition fallbackText : string :=
  "Hmm, I'm not sure where that is, but you can explore the map! Try asking about food, study spots, romantic places, or sports facilities.".

Section Widget.
Variable M : MathRuntime.
Variable locations : list Location.

Definition findNearestLocation (userLat userLng : number) : option Location :=
  fst (fold_left
         (fun (acc : option Location * number) (location : Location) =>
            let '(nearestLocation, minDistance) := acc in
            let distance := calculateDistance M userLat userLng (lat location) (lng location) in
            if ltb distance minDistance then (Some location, distance)
            else (nearestLocation, minDistance))
         locations (None, Infinity)).

Definition keywordsOf (userQuery : string) : list string :=
  let lowerQuery := trim (toLowerCase userQuery) in
  filter (fun word => (2 <? String.length word)%nat) (split_whitespace lowerQuery).

Definition scoreLocation (keywords : list string) (location : Location) : Z :=
  let score := 0 in
  let score :=
    fold_left (fun score keyword =>
      fold_left (fun score tag =>
        if includes tag keyword || includes keyword tag then score + 3 else score)
        (tags location) score) keywords score in
  let score :=
    fold_left (fun score keyword =>
      if includes (toLowerCase (name location)) keyword then score + 2 else score)
      keywords score in
  let score :=
    fold_left (fun score keyword =>
      if includes (toLowerCase (description location)) keyword then score + 1 else score)
      keywords score in
  score.

Definition scoredLocations (userQuery : string) : list (Location * Z) :=
  let keywords := keywordsOf userQuery in
  sort (fun a b => snd b - snd a)
       (map (fun location => (location, scoreLocation keywords location)) locations).

Local Open Scope string_scope.

(** [processQuery]: the new state and the callbacks invoked, in order;
    [None] when the call throws (reading [score] of [undefined], on an
    empty registry). *)
Definition processQuery (st : State) (userQuery : string) : option (State * list Callback) :=
  match scoredLocations userQuery with
  | [] => None
  | bestMatch :: _ =>
      let append response :=
        {| messages := messages st ++ [ {| type := user; text := userQuery |};
                                        {| type := ai; text := response |} ];
           userLocation := userLocation st;
           locationPermission := locationPermission st |} in
      let best := fst bestMatch in
      if (0 <? snd bestMatch)%Z then
        match userLocation st, locationPermission st with
        | Some (userLat, userLng), granted =>
            match findNearestLocation userLat userLng with
            | Some nearestLocation =>
                Some (append ("Perfect! I found " ++ name best ++ " for you. "
                                ++ description best
                                ++ " I'm showing you the route from "
                                ++ name nearestLocation
                                ++ " (nearest to your current location)."),
                      [onRouteRequest (name nearestLocation) (name best);
                       onLocationFound best])
            | None =>
                Some (append ("You can try the " ++ name best ++ "! " ++ description best),
                      [onLocationFound best])
            end
        | _, _ =>
            Some (append ("I'd recommend " ++ name best ++ ". " ++ description best
                            ++ " (Enable location access to get directions from your current position!)"),
                  [onLocationFound best])
        end
      else Some (append fallbackText, [])
  end.

End Widget.

End AINavigator.

(** ** The order and the magnitude of numbers

    Numbers other than NaN are ordered like the triples [ord] maps them
    to, compared lexicographically. *)

Module FloatOrder.
Import JS.

Definition ord (x : number) : Z * Z * Z :=
  match x with
  | S754_infinity true => (-2, 0, 0)
  | S754_finite true m e => (-1, - e, Zneg m)
  | S754_zero _ | S754_nan => (0, 0, 0)
  | S754_finite false m e => (1, e, Zpos m)
  | S754_infinity false => (2, 0, 0)
  end.

Definition lex (a b : Z * Z * Z) : comparison :=
  let '(a1, a2, a3) := a in
  let '(b1, b2, b3) := b in
  match a1 ?= b1 with
  | Eq => match a2 ?= b2 with Eq => a3 ?= b3 | c => c end
  | c => c
  end.

Definition lt3 (a b : Z * Z * Z) : Prop :=
  let '(a1, a2, a3) := a in
  let '(b1, b2, b3) := b in
  a1 < b1 \/ (a1 = b1 /\ (a2 < b2 \/ (a2 = b2 /\ a3 < b3))).

(** The magnitude of a finite number, as a rational. *)
Definition mag (x : number) : Q :=
  match x with
  | S754_finite _ m e => (inject_Z (Zpos m) * 2 ^ e)%Q
  | _ => 0%Q
  end.

(** The rational a finite number denotes. *)
Definition value (x : number) : Q :=
  match x with
  | S754_finite true _ _ => (- mag x)%Q
  | _ => mag x
  end.

(** The exponent of a finite number; the least one for a zero. *)
Definition expo (x : number) : Z :=
  match x with
  | S754_finite _ _ e => e
  | _ => -1074
  end.

Definition sign (x : number) : bool :=
  match x with
  | S754_zero s | S754_infinity s | S754_finite s _ _ => s
  | S754_nan => false
  end.

End FloatOrder.

(** ** Sample runtime and data

    A coarse but lawful [Math] implementation (small-angle sine and cosine,
    quadrant arctangent) and a two-entry registry, on which the functions
    can be evaluated. *)

Module Sample.
Import JS CampusData.

Definition one : number := of_Z 1.

Definition sin (x : number) : number :=
  match x with
  | S754_finite s _ _ => if leb (SFabs x) one then x else S754_finite s 0x10000000000000 (-52)
  | S754_zero _ => x
  | _ => NaN
  end.

Definition cos (x : number) : number :=
  if is_finite x then one else NaN.

Definition half_pi (s : bool) : number := S754_finite s 0x1921FB54442D18 (-52).
Definition pi (s : bool) : number := S754_finite s 0x1921FB54442D18 (-51).

Definition atan2 (y x : number) : number :=
  match y, x with
  | S754_nan, _ | _, S754_nan => NaN
  | S754_zero s, _ => if FloatOrder.sign x then pi s else y
  | _, _ => half_pi (FloatOrder.sign y)
  end.

Definition runtime : MathRuntime :=
  {| Math_sin := sin; Math_cos := cos; Math_atan2 := atan2 |}.

(** A second runtime, with the first-order approximations of the sine and
    of the arctangent near zero: in it the distances between nearby places
    differ from one another. *)
Definition planar : MathRuntime :=
  {| Math_sin := fun x => if is_finite x then x else NaN;
     Math_cos := cos;
     Math_atan2 := fun y x => (y / x)%js |}.

(** Number::toString on the values [Math.round] returns below 1e21. *)
Definition Number_toString (x : number) : string :=
  match x with
  | S754_nan => "NaN"
  | S754_infinity false => "Infinity"
  | S754_infinity true => "-Infinity"
  | _ => match to_integer x with
         | Some k => NilZero.string_of_int (Z.to_int k)
         | None => ""
         end
  end.

(** 18.62, 73.91, 18.622 and 73.912 as binary64 values. *)
Definition library : Location :=
  {| name := "Library";
     lat := S754_finite false 5241064066352415 (-48);
     lng := S754_finite false 5200953882171146 (-46);
     type := "study";
     description := "A quiet library with reading rooms";
     landmarks := None;
     tags := ["study"; "quiet"; "study room"]%string;
     icon := "L" |}.

Definition canteen : Location :=
  {| name := "Canteen";
     lat := S754_finite false 5241627016305836 (-48);
     lng := S754_finite false 5201094619659502 (-46);
     type := "food";
     description := "Snacks and meals";
     landmarks := Some "Next to the gate"%string;
     tags := ["food"; "snack"]%string;
     icon := "C" |}.

Definition registry : list Location := [library; canteen].

(** A device position, 18.6 and 73.9 as binary64 values. *)
Definition userLat : number := S754_finite false 5235434566818202 (-48).
Definition userLng : number := S754_finite false 5200250194729370 (-46).

(** An entry whose latitude is not a number. *)
Definition nowhere : Location :=
  {| name := "Nowhere"; lat := NaN; lng := of_Z 0; type := "default";
     description := ""; landmarks := None; tags := []; icon := "" |}.

Definition nodeA : PathNetwork.PathNode :=
  {| PathNetwork.id := "start"; PathNetwork.lat := lat library;
     PathNetwork.lng := lng library; PathNetwork.name := "Library";
     PathNetwork.type := PathNetwork.location |}.

Definition nodeB : PathNetwork.PathNode :=
  {| PathNetwork.id := "end"; PathNetwork.lat := lat canteen;
     PathNetwork.lng := lng canteen; PathNetwork.name := "Canteen";
     PathNetwork.type := PathNetwork.location |}.

End Sample.

(** ** Specification-side definitions *)

Module Spec.
Import JS CampusData.

(** [l] is the first registry entry named [n]. *)
Definition first_named (locations : list Location) (n : string) (l : Location) : Prop :=
  exists before after,
    locations = before ++ l :: after /\ name l = n
    /\ forall x, In x before -> name x <> n.

Definition named (locations : list Location) (n : string) : Prop :=
  exists l, In l locations /\ name l = n.

(** The loop index after whose segment line a persona's tip is inserted. *)
Definition tip_index (persona : string) (len : nat) : option nat :=
  if (persona =? "new-student")%string then Some 0%nat
  else if (persona =? "cat-lover")%string then Some (len / 2)%nat
  else if (persona =? "cat-fearful")%string then Some 0%nat
  else None.

Definition tip_line (persona : string) : string :=
  if (persona =? "new-student")%string then PathNetwork.tip_new_student
  else if (persona =? "cat-lover")%string then PathNetwork.tip_cat_lover
  else PathNetwork.tip_cat_fearful.

(** The tip a persona adds to a path of [len] nodes, with its position in
    the list of directions: after the opening line and the segment lines of
    the indices up to the tip's. *)
Definition tip_of (persona : string) (len : nat) : option (nat * string) :=
  match tip_index persona len with
  | Some j => if (j <? len - 1)%nat then Some (S (S j), tip_line persona) else None
  | None => None
  end.

Definition insert_tip (tip : option (nat * string)) (lines : list string) : list string :=
  match tip with
  | Some (k, t) => firstn k lines ++ t :: skipn k lines
  | None => lines
  end.

(** Properties of the runtime's [Math] functions that the geodesy
    theorems rely on.  ECMAScript requires [Math.sin(+0)] and
    [Math.atan2(+0, x)] for positive [x] to be [+0]; the other properties
    hold of the implementations in common use. *)
Definition sin_odd (M : MathRuntime) : Prop :=
  forall x, Math_sin M (neg x) = neg (Math_sin M x).

Definition sin_zero (M : MathRuntime) : Prop := Math_sin M zero = zero.

Definition atan2_zero (M : MathRuntime) : Prop :=
  Math_atan2 M zero (of_Z 1) = zero.

(** [f] maps the finite numbers into the interval from -1 to 1. *)
Definition unit_range (f : number -> number) : Prop :=
  forall x, valid x = true -> is_finite x = true ->
    valid (f x) = true /\ leb (SFabs (f x)) (of_Z 1) = true.

(** [Math.atan2] maps numbers other than NaN into the interval from
    -[Math.PI] to [Math.PI]. *)
Definition atan2_range (M : MathRuntime) : Prop :=
  forall y x, valid y = true -> valid x = true ->
    is_nan y = false -> is_nan x = false ->
    valid (Math_atan2 M y x) = true
    /\ leb (SFabs (Math_atan2 M y x)) Math_PI = true.

(** What ECMAScript requires of the three functions on arguments that are
    not finite numbers: the sine and the cosine of NaN, of Infinity and of
    -Infinity are NaN, and so is the arctangent when an argument is NaN. *)
Definition sin_not_finite (M : MathRuntime) : Prop :=
  forall x, is_finite x = false -> Math_sin M x = NaN.

Definition cos_not_finite (M : MathRuntime) : Prop :=
  forall x, is_finite x = false -> Math_cos M x = NaN.

Definition atan2_nan (M : MathRuntime) : Prop :=
  forall y x, is_nan y || is_nan x = true -> Math_atan2 M y x = NaN.

(** Degrees to radians, as both geodesy functions write it. *)
Definition radians (x : number) : number := ((x * Math_PI) / of_Z 180)%js.

(** 2^1000, far beyond any coordinate and yet small enough for the
    conversion to radians not to overflow. *)
Definition big : number := S754_finite false 0x10000000000000 948.

(** The integer nearest to a number, ties towards +Infinity. *)
Definition nearest_integer (x : number) : Z :=
  Qfloor (FloatOrder.value x + (1 # 2)).

(** The compass octant of a bearing: [bearing / 45] rounded to the nearest
    integer, modulo 8. *)
Definition direction_index (bearing : number) : Z :=
  nearest_integer (bearing / of_Z 45)%js mod 8.

(** A keyword counts when its length exceeds 2. *)
Definition long (word : string) : bool := (2 <? String.length word)%nat.

(** The tokens of the lowercased query, split on white space. *)
Definition tokens (userQuery : string) : list string :=
  split_whitespace (toLowerCase userQuery).

Definition matches_tag (keyword tag : string) : bool :=
  includes tag keyword || includes keyword tag.

Definition count {A : Type} (f : A -> bool) (l : list A) : Z :=
  Z.of_nat (List.length (filter f l)).

Definition name_hits (keywords : list string) (l : Location) : Z :=
  count (includes (toLowerCase (name l))) keywords.

Definition description_hits (keywords : list string) (l : Location) : Z :=
  count (includes (toLowerCase (description l))) keywords.

(** The score as the claim words it: 3 for each keyword that matches some
    tag, 2 for each keyword in the name, 1 for each in the description. *)
Definition claimed_score (keywords : list string) (l : Location) : Z :=
  3 * count (fun k => existsb (matches_tag k) (tags l)) keywords
  + 2 * name_hits keywords l + description_hits keywords l.

(** The number of pairs of a keyword and a tag that match. *)
Definition tag_pairs (keywords : list string) (l : Location) : Z :=
  fold_right Z.add 0 (map (fun k => count (matches_tag k) (tags l)) keywords).

Definition pair_score (keywords : list string) (l : Location) : Z :=
  3 * tag_pairs keywords l + 2 * name_hits keywords l + description_hits keywords l.

(** The highest score over the registry (scores are not negative). *)
Definition top_score (keywords : list string) (locations : list Location) : Z :=
  fold_right Z.max 0 (map (AINavigator.scoreLocation keywords) locations).

End Spec.

(** ** components/ai-navigator.tsx: the event handlers

    The widget's state together with the text of the input field, and the
    handlers that React calls: the two callbacks of [getCurrentPosition],
    the input's [onChange], the form's [onSubmit] and the [onClick] of a
    quick-question button. *)

Module AINavigatorEvents.
Import JS CampusData AINavigator.
Local Open Scope string_scope.

Definition greeting : string :=
  "Hi! I'm your AI Campus Navigator. Ask me anything like 'Where can I grab a snack?' or 'Show me a quiet place to study!' and I'll show you the route from your current location!".

Record Widget : Type := {
  state : State;
  query : string
}.

Definition initial : Widget :=
  {| state := {| messages := [ {| type := ai; text := greeting |} ];
                 userLocation := None;
                 locationPermission := prompt |};
     query := "" |}.

(** The success and the error callback of [getCurrentPosition]. *)
Definition positionFound (w : Widget) (latitude longitude : number) : Widget :=
  {| state := {| messages := messages (state w);
                 userLocation := Some (latitude, longitude);
                 locationPermission := granted |};
     query := query w |}.

Definition positionError (w : Widget) : Widget :=
  {| state := {| messages := messages (state w);
                 userLocation := userLocation (state w);
                 locationPermission := denied |};
     query := query w |}.

Definition setQuery (w : Widget) (value : string) : Widget :=
  {| state := state w; query := value |}.

Definition quickQuestions : list string :=
  [ "Where can I grab a snack?";
    "Show me a quiet place to study";
    "Where can couples hang out?";
    "Find me a place to play sports" ].

(** The quick-question buttons are rendered while the greeting is the only
    message. *)
Definition quickQuestionsShown (w : Widget) : bool :=
  (List.length (messages (state w)) =? 1)%nat.

Section Handlers.
Variable M : MathRuntime.
Variable locations : list Location.

(** [handleSubmit]: nothing happens for a blank query; otherwise the query
    is processed and the input field cleared.  [None] when [processQuery]
    throws. *)
Definition handleSubmit (w : Widget) : option (Widget * list Callback) :=
  if (trim (query w) =? "") then Some (w, [])
  else
    match processQuery M locations (state w) (query w) with
    | Some (st, calls) => Some ({| state := st; query := "" |}, calls)
    | None => None
    end.

(** What a handler leaves behind: the widget and the callbacks invoked
    when it returns, the widget alone when it throws.  An exception thrown
    by a handler does not unmount the widget: the state updates made before
    the exception are applied and the widget goes on handling events.
    [processQuery] throws before it updates the state or invokes a
    callback. *)
Inductive Outcome :=
| returned (w : Widget) (calls : list Callback)
| threw (w : Widget).



(** The [onClick] of a quick-question button: the question is put into the
    input field, then it is processed. *)
Definition clickQuestion (w : Widget) (question : string) : Outcome :=
  match processQuery M locations (state w) question with
  | Some (st, calls) => returned {| state := st; query := question |} calls
  | None => threw (setQuery w question)
  end.

Inductive Event :=
| PositionFound (latitude longitude : number)
| PositionError
| Change (value : string)
| Submit
| Click (index : nat).

(** One event.  A click on a button that is not rendered cannot happen:
    such a step leaves the widget as it is.  When [handleSubmit] throws, no
    state update has been made. *)
Definition step (w : Widget) (e : Event) : Outcome :=
  match e with
  | PositionFound latitude longitude => returned (positionFound w latitude longitude) []
  | PositionError => returned (positionError w) []
  | Change value => returned (setQuery w value) []
  | Submit =>
      match handleSubmit w with
      | Some (w', calls) => returned w' calls
      | None => threw w
      end
  | Click index =>
      match nth_error quickQuestions index with
      | Some question =>
          if quickQuestionsShown w then clickQuestion w question else returned w []
      | None => returned w []
      end
  end.


End Handlers.

End AINavigatorEvents.

(** ** app/page.tsx

    The page holds the two values that the navigator's callbacks set and
    that the map receives as props. *)

Module Home.
Import CampusData.

Record Page : Type := {
  highlightedLocation : option Location;
  routeInfo : option (string * string)
}.

Definition initial : Page :=
  {| highlightedLocation := None; routeInfo := None |}.

(** [onLocationFound] is [setHighlightedLocation] and [onRouteRequest] is
    [setRouteInfo]. *)
Definition call (page : Page) (c : AINavigator.Callback) : Page :=
  match c with
  | AINavigator.onLocationFound location =>
      {| highlightedLocation := Some location; routeInfo := routeInfo page |}
  | AINavigator.onRouteRequest from to =>
      {| highlightedLocation := highlightedLocation page;
         routeInfo := Some (from, to) |}
  end.

Definition calls (page : Page) (cs : list AINavigator.Callback) : Page :=
  fold_left call cs page.

End Home.

(** ** components/campus-map.tsx

    The Leaflet objects are modelled by the data the component gives them:
    a marker by the location it was created for and its current icon, an
    icon by the colour, the glyph and the size written into its HTML, the
    route by the points and the colour of its polyline.  Refs and state
    variables are fields of one record; a ref that holds a marker is an
    index into the array of markers, so that [setIcon] through either
    reference changes the same marker.  The tile layer and what
    [invalidateSize] redraws are not part of the state. *)

Module CampusMap.
Import JS CampusData.
Local Open Scope string_scope.

Inductive Persona := faculty | new_student | cat_lover | cat_fearful.

(** The string a [Persona] value is. *)
Definition persona_value (p : Persona) : string :=
  match p with
  | faculty => "faculty"
  | new_student => "new-student"
  | cat_lover => "cat-lover"
  | cat_fearful => "cat-fearful"
  end.

Definition markerColors : list (string * string) :=
  [ ("warning", "#ef4444"); ("romantic", "#ec4899"); ("food", "#f59e0b");
    ("study", "#3b82f6"); ("sports", "#10b981"); ("medical", "#8b5cf6");
    ("hostel", "#f97316"); ("inclusive", "#ec4899"); ("default", "#6366f1") ].

Definition personaColors (p : Persona) : string :=
  match p with
  | faculty => "#3b82f6"
  | new_student => "#f59e0b"
  | cat_lover => "#ec4899"
  | cat_fearful => "#10b981"
  end.

(** The members that an object literal inherits from [Object.prototype]:
    looking one of them up yields a function or an object, not a colour. *)
Definition Object_prototype : list string :=
  [ "constructor"; "hasOwnProperty"; "isPrototypeOf"; "propertyIsEnumerable";
    "toLocaleString"; "toString"; "valueOf"; "__proto__";
    "__defineGetter__"; "__defineSetter__"; "__lookupGetter__"; "__lookupSetter__" ].

Fixpoint own {A : Type} (key : string) (object : list (string * A)) : option A :=
  match object with
  | [] => None
  | (k, v) :: object' => if k =? key then Some v else own key object'
  end.

(** [markerColors[type] || markerColors.default]; every colour of the table
    is a non-empty string, hence truthy.  [None] stands for an inherited
    member. *)
Definition markerColor (type : string) : option string :=
  match own type markerColors with
  | Some color => Some color
  | None =>
      if existsb (String.eqb type) Object_prototype then None
      else own "default" markerColors
  end.

Record Icon : Type := {
  background : option string;
  glyph : string;
  size : Z;
  pulse : bool
}.

(** The 32-pixel icon a marker is created with and reset to. *)
Definition normalIcon (l : Location) : Icon :=
  {| background := markerColor (type l); glyph := icon l; size := 32; pulse := false |}.

(** The 48-pixel pulsing icon of a highlighted marker. *)
Definition pulseIcon (l : Location) : Icon :=
  {| background := markerColor (type l); glyph := icon l; size := 48; pulse := true |}.

(** A marker: its position, title, alternative text and popup are those of
    the location it was created for. *)
Record Marker : Type := {
  location : Location;
  markerIcon : Icon
}.

Definition newMarker (l : Location) : Marker :=
  {| location := l; markerIcon := normalIcon l |}.

Definition setIcon (i : Icon) (m : Marker) : Marker :=
  {| location := location m; markerIcon := i |}.

Record Polyline : Type := {
  latlngs : list (number * number);
  color : string
}.

(** A numbered marker of the route: [label] is [index + 1]. *)
Record StepMarker : Type := {
  position : number * number;
  label : nat;
  border : string
}.

Inductive View :=
| setView (center : number * number) (zoom : Z)
| flyTo (center : number * number) (zoom : Z)
| fitBounds (points : list (number * number)).

(** The callbacks given to [setTimeout]. *)
Inductive Task :=
| createMap
| invalidateSize
| openPopup (marker : nat)
| resetIcon (marker : nat) (i : Icon).

(** The number of timers a callback sets when it runs. *)
Definition spawns (task : Task) : nat :=
  match task with
  | createMap => 1
  | _ => 0
  end.

Record Map : Type := {
  leafletLoaded : bool;
  mapRef : bool;
  view : option View;
  markersRef : list Marker;
  routeLayerRef : option Polyline;
  directionMarkersRef : list StepMarker;
  highlightedMarkerRef : option nat;
  popup : option nat;
  fromLocation : string;
  selectedLocation : string;
  selectedPersona : Persona;
  currentDirections : list string;
  clock : Z;
  timers : list (Z * Task)
}.

Definition initial : Map :=
  {| leafletLoaded := false; mapRef := false; view := None; markersRef := [];
     routeLayerRef := None; directionMarkersRef := []; highlightedMarkerRef := None;
     popup := None; fromLocation := ""; selectedLocation := "";
     selectedPersona := new_student; currentDirections := [];
     clock := 0; timers := [] |}.

Definition set_leafletLoaded (v : bool) (s : Map) : Map :=
  {| leafletLoaded := v; mapRef := mapRef s; view := view s;
     markersRef := markersRef s; routeLayerRef := routeLayerRef s;
     directionMarkersRef := directionMarkersRef s;
     highlightedMarkerRef := highlightedMarkerRef s; popup := popup s;
     fromLocation := fromLocation s; selectedLocation := selectedLocation s;
     selectedPersona := selectedPersona s; currentDirections := currentDirections s;
     clock := clock s; timers := timers s |}.

Definition set_mapRef (v : bool) (s : Map) : Map :=
  {| leafletLoaded := leafletLoaded s; mapRef := v; view := view s;
     markersRef := markersRef s; routeLayerRef := routeLayerRef s;
     directionMarkersRef := directionMarkersRef s;
     highlightedMarkerRef := highlightedMarkerRef s; popup := popup s;
     fromLocation := fromLocation s; selectedLocation := selectedLocation s;
     selectedPersona := selectedPersona s; currentDirections := currentDirections s;
     clock := clock s; timers := timers s |}.

Definition set_view (v : option View) (s : Map) : Map :=
  {| leafletLoaded := leafletLoaded s; mapRef := mapRef s; view := v;
     markersRef := markersRef s; routeLayerRef := routeLayerRef s;
     directionMarkersRef := directionMarkersRef s;
     highlightedMarkerRef := highlightedMarkerRef s; popup := popup s;
     fromLocation := fromLocation s; selectedLocation := selectedLocation s;
     selectedPersona := selectedPersona s; currentDirections := currentDirections s;
     clock := clock s; timers := timers s |}.

Definition set_markersRef (v : list Marker) (s : Map) : Map :=
  {| leafletLoaded := leafletLoaded s; mapRef := mapRef s; view := view s;
     markersRef := v; routeLayerRef := routeLayerRef s;
     directionMarkersRef := directionMarkersRef s;
     highlightedMarkerRef := highlightedMarkerRef s; popup := popup s;
     fromLocation := fromLocation s; selectedLocation := selectedLocation s;
     selectedPersona := selectedPersona s; currentDirections := currentDirections s;
     clock := clock s; timers := timers s |}.

Definition set_routeLayerRef (v : option Polyline) (s : Map) : Map :=
  {| leafletLoaded := leafletLoaded s; mapRef := mapRef s; view := view s;
     markersRef := markersRef s; routeLayerRef := v;
     directionMarkersRef := directionMarkersRef s;
     highlightedMarkerRef := highlightedMarkerRef s; popup := popup s;
     fromLocation := fromLocation s; selectedLocation := selectedLocation s;
     selectedPersona := selectedPersona s; currentDirections := currentDirections s;
     clock := clock s; timers := timers s |}.

Definition set_directionMarkersRef (v : list StepMarker) (s : Map) : Map :=
  {| leafletLoaded := leafletLoaded s; mapRef := mapRef s; view := view s;
     markersRef := markersRef s; routeLayerRef := routeLayerRef s;
     directionMarkersRef := v;
     highlightedMarkerRef := highlightedMarkerRef s; popup := popup s;
     fromLocation := fromLocation s; selectedLocation := selectedLocation s;
     selectedPersona := selectedPersona s; currentDirections := currentDirections s;
     clock := clock s; timers := timers s |}.

Definition set_highlightedMarkerRef (v : option nat) (s : Map) : Map :=
  {| leafletLoaded := leafletLoaded s; mapRef := mapRef s; view := view s;
     markersRef := markersRef s; routeLayerRef := routeLayerRef s;
     directionMarkersRef := directionMarkersRef s;
     highlightedMarkerRef := v; popup := popup s;
     fromLocation := fromLocation s; selectedLocation := selectedLocation s;
     selectedPersona := selectedPersona s; currentDirections := currentDirections s;
     clock := clock s; timers := timers s |}.

Definition set_popup (v : option nat) (s : Map) : Map :=
  {| leafletLoaded := leafletLoaded s; mapRef := mapRef s; view := view s;
     markersRef := markersRef s; routeLayerRef := routeLayerRef s;
     directionMarkersRef := directionMarkersRef s;
     highlightedMarkerRef := highlightedMarkerRef s; popup := v;
     fromLocation := fromLocation s; selectedLocation := selectedLocation s;
     selectedPersona := selectedPersona s; currentDirections := currentDirections s;
     clock := clock s; timers := timers s |}.

Definition setFromLocation (v : string) (s : Map) : Map :=
  {| leafletLoaded := leafletLoaded s; mapRef := mapRef s; view := view s;
     markersRef := markersRef s; routeLayerRef := routeLayerRef s;
     directionMarkersRef := directionMarkersRef s;
     highlightedMarkerRef := highlightedMarkerRef s; popup := popup s;
     fromLocation := v; selectedLocation := selectedLocation s;
     selectedPersona := selectedPersona s; currentDirections := currentDirections s;
     clock := clock s; timers := timers s |}.

Definition setSelectedLocation (v : string) (s : Map) : Map :=
  {| leafletLoaded := leafletLoaded s; mapRef := mapRef s; view := view s;
     markersRef := markersRef s; routeLayerRef := routeLayerRef s;
     directionMarkersRef := directionMarkersRef s;
     highlightedMarkerRef := highlightedMarkerRef s; popup := popup s;
     fromLocation := fromLocation s; selectedLocation := v;
     selectedPersona := selectedPersona s; currentDirections := currentDirections s;
     clock := clock s; timers := timers s |}.

Definition setSelectedPersona (v : Persona) (s : Map) : Map :=
  {| leafletLoaded := leafletLoaded s; mapRef := mapRef s; view := view s;
     markersRef := markersRef s; routeLayerRef := routeLayerRef s;
     directionMarkersRef := directionMarkersRef s;
     highlightedMarkerRef := highlightedMarkerRef s; popup := popup s;
     fromLocation := fromLocation s; selectedLocation := selectedLocation s;
     selectedPersona := v; currentDirections := currentDirections s;
     clock := clock s; timers := timers s |}.

Definition setCurrentDirections (v : list string) (s : Map) : Map :=
  {| leafletLoaded := leafletLoaded s; mapRef := mapRef s; view := view s;
     markersRef := markersRef s; routeLayerRef := routeLayerRef s;
     directionMarkersRef := directionMarkersRef s;
     highlightedMarkerRef := highlightedMarkerRef s; popup := popup s;
     fromLocation := fromLocation s; selectedLocation := selectedLocation s;
     selectedPersona := selectedPersona s; currentDirections := v;
     clock := clock s; timers := timers s |}.

Definition set_clock (v : Z) (s : Map) : Map :=
  {| leafletLoaded := leafletLoaded s; mapRef := mapRef s; view := view s;
     markersRef := markersRef s; routeLayerRef := routeLayerRef s;
     directionMarkersRef := directionMarkersRef s;
     highlightedMarkerRef := highlightedMarkerRef s; popup := popup s;
     fromLocation := fromLocation s; selectedLocation := selectedLocation s;
     selectedPersona := selectedPersona s; currentDirections := currentDirections s;
     clock := v; timers := timers s |}.

Definition set_timers (v : list (Z * Task)) (s : Map) : Map :=
  {| leafletLoaded := leafletLoaded s; mapRef := mapRef s; view := view s;
     markersRef := markersRef s; routeLayerRef := routeLayerRef s;
     directionMarkersRef := directionMarkersRef s;
     highlightedMarkerRef := highlightedMarkerRef s; popup := popup s;
     fromLocation := fromLocation s; selectedLocation := selectedLocation s;
     selectedPersona := selectedPersona s; currentDirections := currentDirections s;
     clock := clock s; timers := v |}.

(** [setTimeout(task, delay)]. *)
Definition setTimeout (task : Task) (delay : Z) (s : Map) : Map :=
  set_timers (timers s ++ [(clock s + delay, task)]) s.

(** [a.findIndex(f)], with [None] for -1. *)
Fixpoint findIndex {A : Type} (f : A -> bool) (a : list A) : option nat :=
  match a with
  | [] => None
  | x :: a' =>
      if f x then Some 0%nat
      else match findIndex f a' with Some i => Some (S i) | None => None end
  end.

(** The array in which [f] has been applied to the element of index [i]. *)
Fixpoint update {A : Type} (i : nat) (f : A -> A) (a : list A) : list A :=
  match a, i with
  | [], _ => []
  | x :: a', O => f x :: a'
  | x :: a', S i' => x :: update i' f a'
  end.

(** The centre of the campus: 18.621130576268346, 73.91139588382592. *)
Definition campusCenter : number * number :=
  (S754_finite false 5241382295281217 (-48), S754_finite false 5201052108762994 (-46)).

Definition noRoute : string := "No route found between these locations".

(** The numbered markers of a route: at the first node, at the last node
    and at every intersection. *)
Fixpoint stepMarkers (border : string) (len index : nat) (path : list PathNetwork.PathNode)
  : list StepMarker :=
  match path with
  | [] => []
  | node :: path' =>
      (if (index =? 0)%nat || (index =? len - 1)%nat
          || match PathNetwork.type node with
             | PathNetwork.intersection => true
             | _ => false
             end
       then [ {| position := (PathNetwork.lat node, PathNetwork.lng node);
                 label := (index + 1)%nat;
                 border := border |} ]
       else [])
      ++ stepMarkers border len (S index) path'
  end.

Section Effects.
Variable M : MathRuntime.
Variable Number_toString : number -> string.
Variable locations : list Location.

(** The script's [onload] handler. *)
Definition leafletOnload (s : Map) : Map := set_leafletLoaded true s.

(** The effect that creates the map, 250 ms after Leaflet is loaded (the
    container of the map is rendered as soon as Leaflet is loaded). *)
Definition initEffect (s : Map) : Map :=
  if mapRef s || negb (leafletLoaded s) then s
  else setTimeout createMap 250 s.

(** The effect that draws the route. *)
Definition routeEffect (s : Map) : Map :=
  if negb (mapRef s) || (fromLocation s =? "") || (selectedLocation s =? "")
     || negb (leafletLoaded s)
  then
    setCurrentDirections []
      (set_directionMarkersRef [] (set_routeLayerRef None s))
  else
    match PathNetwork.findPath locations (fromLocation s) (selectedLocation s) with
    | None | Some [] => setCurrentDirections [noRoute] s
    | Some path =>
        let directions :=
          PathNetwork.generateDirections M Number_toString path
            (persona_value (selectedPersona s)) in
        let routeCoordinates :=
          map (fun node => (PathNetwork.lat node, PathNetwork.lng node)) path in
        let polyline :=
          {| latlngs := routeCoordinates; color := personaColors (selectedPersona s) |} in
        set_directionMarkersRef
          (stepMarkers (personaColors (selectedPersona s)) (List.length path) 0 path)
          (set_view (Some (fitBounds routeCoordinates))
             (set_routeLayerRef (Some polyline)
                (setCurrentDirections directions s)))
    end.

(** The effect that highlights the location found by the navigator. *)
Definition highlightEffect (highlightLocation : option Location) (s : Map) : Map :=
  match highlightLocation with
  | Some h =>
      if negb (mapRef s) || negb (leafletLoaded s) then s
      else
        match findIndex (fun loc => name loc =? name h) locations with
        | None => s
        | Some locationIndex =>
            match nth_error (markersRef s) locationIndex with
            | None => s
            | Some _ =>
                let s := set_view (Some (flyTo (lat h, lng h) 18)) s in
                let s := setTimeout (openPopup locationIndex) 1500 s in
                let s :=
                  match highlightedMarkerRef s with
                  | Some previous =>
                      set_markersRef
                        (update previous (setIcon (normalIcon h)) (markersRef s)) s
                  | None => s
                  end in
                let s :=
                  set_markersRef
                    (update locationIndex (setIcon (pulseIcon h)) (markersRef s)) s in
                let s := set_highlightedMarkerRef (Some locationIndex) s in
                let s := setTimeout (resetIcon locationIndex (normalIcon h)) 4500 s in
                setSelectedLocation (name h) s
            end
        end
  | None => s
  end.

(** The effect that takes over the route requested by the navigator. *)
Definition routeInfoEffect (routeInfo : option (string * string)) (s : Map) : Map :=
  match routeInfo with
  | Some (from, to) => setSelectedLocation to (setFromLocation from s)
  | None => s
  end.

(** The values in the dependency array of the route effect, compared as
    [Object.is] compares them. *)
Definition sameRouteDeps (s s' : Map) : bool :=
  (fromLocation s =? fromLocation s')
  && (selectedLocation s =? selectedLocation s')
  && (persona_value (selectedPersona s) =? persona_value (selectedPersona s'))
  && Bool.eqb (leafletLoaded s) (leafletLoaded s').

(** The page renders the map with new props.  React runs an effect after
    a render only when a value of its dependency array is not the one of
    the render before.  In the render with the new props the state is the
    one of the render before, so of the three effects only the highlight
    effect and the route-info effect can run, in this order, each if its
    prop is another value than before ([highlightChanged] and
    [routeInfoChanged]: a location of the registry is the same object each
    time, a route request is a new object each time).  The state updates
    they make cause one more render, after which the route effect runs if
    [fromLocation], [selectedLocation], [selectedPersona] or [L] differ
    from those of the render before; the route effect updates
    [currentDirections] only, which is in no dependency array. *)
Definition receiveProps (highlightLocation : option Location) (highlightChanged : bool)
    (routeInfo : option (string * string)) (routeInfoChanged : bool) (s : Map) : Map :=
  let s1 := if highlightChanged then highlightEffect highlightLocation s else s in
  let s2 := if routeInfoChanged then routeInfoEffect routeInfo s1 else s1 in
  if sameRouteDeps s s2 then s2 else routeEffect s2.

(** What a timer callback does when it runs. *)
Definition runTask (task : Task) (s : Map) : Map :=
  match task with
  | createMap =>
      let s := set_view (Some (setView campusCenter 17)) s in
      let s := setTimeout invalidateSize 100 s in
      let s := set_mapRef true s in
      set_markersRef (markersRef s ++ map newMarker locations) s
  | invalidateSize => s
  | openPopup marker => set_popup (Some marker) s
  | resetIcon marker i =>
      set_markersRef (update marker (setIcon i) (markersRef s)) s
  end.

(** The timers due by [target] run one after the other, the earliest
    first, those with the same due time in the order in which they were
    set; a callback that runs may set a timer that is due by [target] as
    well.  [n] bounds the number of callbacks run. *)
Fixpoint runTimers (n : nat) (target : Z) (s : Map) : Map :=
  match n with
  | O => s
  | S n' =>
      match sort (fun a b => fst a - fst b)%Z (timers s) with
      | t :: later =>
          if (fst t <=? target)%Z
          then runTimers n' target
                 (runTask (snd t) (set_clock (fst t) (set_timers later s)))
          else s
      | [] => s
      end
  end.

(** A bound on the number of callbacks that the pending timers can make
    run: each timer, and each timer that its callback sets. *)
Definition pending (timers : list (Z * Task)) : nat :=
  fold_right (fun t n => (S (spawns (snd t)) + n)%nat) 0%nat timers.

(** The passage of [delay] milliseconds. *)
Definition elapse (delay : Z) (s : Map) : Map :=
  let target := (clock s + delay)%Z in
  set_clock target (runTimers (pending (timers s)) target s).

End Effects.

End CampusMap.

(** ** Notions used by the further properties *)

Module Notions.
Import JS CampusData.

(** A string is blank when all its characters are white space. *)
Fixpoint blank (s : string) : bool :=
  match s with
  | EmptyString => true
  | String c s' => is_whitespace c && blank s'
  end.

(** A word: a string without white space. *)
Fixpoint word (s : string) : bool :=
  match s with
  | EmptyString => true
  | String c s' => negb (is_whitespace c) && word s'
  end.

(** A number that is not above zero: a zero, a negative number, or NaN. *)
Definition not_positive (x : number) : bool :=
  match x with
  | S754_zero _ | S754_nan => true
  | S754_infinity s | S754_finite s _ _ => s
  end.



End Notions.

(** * Properties *)

(** ** The duplicated Haversine implementations *)

(** C10: the Haversine implementation of the path-network module and the
    one of the chat widget compute the same number on every quadruple of
    inputs, whatever the runtime's [Math] functions are. *)
Theorem calculateDistance_duplicates_agree :
  forall (M : JS.MathRuntime) (lat1 lng1 lat2 lng2 : JS.number),
    PathNetwork.calculateDistance M lat1 lng1 lat2 lng2
    = AINavigator.calculateDistance M lat1 lng1 lat2 lng2.
Proof.
  intros M lat1 lng1 lat2 lng2.
  unfold PathNetwork.calculateDistance, AINavigator.calculateDistance.
  reflexivity.
Qed.

(** ** The path generator *)

Section FindPath.
Import JS CampusData.
Variable locations : list Location.

Lemma find_first_named (n : string) (l : Location) :
  find (fun loc => String.eqb (name loc) n) locations = Some l
  <-> Spec.first_named locations n l.
Proof.
  unfold Spec.first_named. induction locations as [|x xs IH]; simpl.
  - split; [discriminate|]. intros (b & a & H & _). destruct b; discriminate.
  - destruct (String.eqb_spec (name x) n) as [E|E].
    + split.
      * intros [= <-]. exists [], xs. simpl. intuition.
      * intros (b & a & H & Hn & Hb). destruct b as [|y b]; simpl in H.
        -- now injection H as ->.
        -- injection H as -> _. exfalso. apply (Hb y); simpl; auto.
    + rewrite IH. split.
      * intros (b & a & -> & Hn & Hb). exists (x :: b), a. simpl.
        split; [reflexivity|]. split; [assumption|].
        intros z [<-|Hz]; [assumption|now apply Hb].
      * intros (b & a & H & Hn & Hb). destruct b as [|y b]; simpl in H.
        -- injection H as -> _. contradiction.
        -- injection H as -> ->. exists b, a.
           split; [reflexivity|]. split; [assumption|].
           intros z Hz. apply Hb. now right.
Qed.

Lemma find_named_none (n : string) :
  find (fun loc => String.eqb (name loc) n) locations = None
  <-> ~ Spec.named locations n.
Proof.
  unfold Spec.named. split.
  - intros H (l & Hin & Hn).
    apply (find_none _ _ H) in Hin. simpl in Hin.
    rewrite Hn, String.eqb_refl in Hin. discriminate.
  - intros H. destruct (find _ locations) as [l|] eqn:E; [|reflexivity].
    exfalso. apply H. apply find_some in E. exists l.
    destruct E as [Hin E]. split; [assumption|]. now apply String.eqb_eq.
Qed.

End FindPath.

(** C2: when both names occur in the registry, [findPath] returns exactly
    three nodes: the start location's coordinates tagged [location], the
    mean of the two endpoints' latitudes and of their longitudes tagged
    [waypoint], and the end location's coordinates tagged [location]; when
    either name does not occur, it returns [None] (null). *)
Theorem findPath_three_nodes :
  forall (locations : list CampusData.Location) (a b : string),
    (forall s e,
        Spec.first_named locations a s -> Spec.first_named locations b e ->
        exists n1 n2 n3,
          PathNetwork.findPath locations a b = Some [n1; n2; n3]
          /\ PathNetwork.lat n1 = CampusData.lat s
          /\ PathNetwork.lng n1 = CampusData.lng s
          /\ PathNetwork.type n1 = PathNetwork.location
          /\ PathNetwork.lat n2 = ((CampusData.lat s + CampusData.lat e) / JS.of_Z 2)%js
          /\ PathNetwork.lng n2 = ((CampusData.lng s + CampusData.lng e) / JS.of_Z 2)%js
          /\ PathNetwork.type n2 = PathNetwork.waypoint
          /\ PathNetwork.lat n3 = CampusData.lat e
          /\ PathNetwork.lng n3 = CampusData.lng e
          /\ PathNetwork.type n3 = PathNetwork.location)
    /\ (Spec.named locations a -> Spec.named locations b ->
        exists s e, Spec.first_named locations a s /\ Spec.first_named locations b e)
    /\ (~ Spec.named locations a \/ ~ Spec.named locations b ->
        PathNetwork.findPath locations a b = None).
Proof.
  intros locations a b. split; [|split].
  - intros s e Hs He.
    apply find_first_named in Hs. apply find_first_named in He.
    unfold PathNetwork.findPath. rewrite Hs, He.
    do 3 eexists. split; [reflexivity|]. simpl. repeat split.
  - intros Ha Hb.
    destruct (find (fun loc => String.eqb (CampusData.name loc) a) locations) as [s|] eqn:Es.
    + destruct (find (fun loc => String.eqb (CampusData.name loc) b) locations) as [e|] eqn:Ee.
      * exists s, e. split; now apply find_first_named.
      * apply find_named_none in Ee. contradiction.
    + apply find_named_none in Es. contradiction.
  - intros H. unfold PathNetwork.findPath.
    destruct H as [H|H]; apply find_named_none in H; rewrite H.
    + reflexivity.
    + destruct (find (fun loc => String.eqb (CampusData.name loc) a) locations);
        reflexivity.
Qed.

Example findPath_sample :
  option_map (map (fun n => (PathNetwork.name n, PathNetwork.type n)))
    (PathNetwork.findPath Sample.registry "Library" "Canteen")
  = Some [("Library", PathNetwork.location); ("Midpoint", PathNetwork.waypoint);
          ("Canteen", PathNetwork.location)]%string
  /\ PathNetwork.findPath Sample.registry "library" "Canteen" = None.
Proof. split; reflexivity. Qed.

(** ** The directions generator *)

Section GenerateDirections.
Import JS PathNetwork.
Variable M : MathRuntime.
Variable Number_toString : number -> string.

Local Abbreviation segments := (segments M Number_toString).
Local Abbreviation generateDirections := (generateDirections M Number_toString).

(** The tip of a persona at loop index [i] is the one [Spec.tip_index]
    places there. *)
Lemma persona_tip_index (persona : string) (len i : nat) :
  persona_tip persona len i
  = match Spec.tip_index persona len with
    | Some j => if (i =? j)%nat then [Spec.tip_line persona] else []
    | None => []
    end.
Proof.
  unfold persona_tip, Spec.tip_index, Spec.tip_line.
  destruct (String.eqb_spec persona "new-student") as [->|H1]; simpl.
  - reflexivity.
  - destruct (String.eqb_spec persona "cat-lover") as [->|H2]; simpl.
    + reflexivity.
    + destruct (String.eqb_spec persona "cat-fearful") as [->|H3]; reflexivity.
Qed.

(** Below the tip's index the loop inserts the tip after [j - i + 1]
    segment lines; elsewhere it produces the plain lines. *)
Lemma segments_insert (persona plain : string) (len j : nat) :
  Spec.tip_index persona len = Some j ->
  Spec.tip_index plain len = None ->
  forall (path : list PathNode) (i : nat),
    segments persona len i path
    = if ((i <=? j) && (j <? i + (List.length path - 1)))%nat
      then firstn (S (j - i)) (segments plain len i path)
             ++ Spec.tip_line persona :: skipn (S (j - i)) (segments plain len i path)
      else segments plain len i path.
Proof.
  intros Hp Hq. induction path as [|a [|b rest] IH]; intros i.
  - simpl. destruct (Nat.leb_spec i j); simpl; [|reflexivity].
    replace (j <? i + 0)%nat with false by (symmetry; apply Nat.ltb_ge; lia).
    reflexivity.
  - simpl. destruct (Nat.leb_spec i j); simpl; [|reflexivity].
    replace (j <? i + 0)%nat with false by (symmetry; apply Nat.ltb_ge; lia).
    reflexivity.
  - change (segments persona len i (a :: b :: rest))
      with (segment_line M Number_toString len i a b
              :: persona_tip persona len i ++ segments persona len (S i) (b :: rest)).
    change (segments plain len i (a :: b :: rest))
      with (segment_line M Number_toString len i a b
              :: persona_tip plain len i ++ segments plain len (S i) (b :: rest)).
    rewrite !persona_tip_index, Hp, Hq, (IH (S i)).
    simpl List.length. rewrite !app_nil_l.
    generalize (segments plain len (S i) (b :: rest)) as tl.
    generalize (segment_line M Number_toString len i a b) as hd.
    intros hd tl.
    destruct (Nat.eqb_spec i j) as [->|Hij].
    + rewrite Nat.sub_diag, Nat.leb_refl.
      replace (j <? j + (S (S (List.length rest)) - 1))%nat with true
        by (symmetry; apply Nat.ltb_lt; lia).
      replace (S j <=? j)%nat with false by (symmetry; apply Nat.leb_gt; lia).
      reflexivity.
    + destruct (Nat.leb_spec i j) as [Hle|Hgt].
      * replace (S i <=? j)%nat with true by (symmetry; apply Nat.leb_le; lia).
        replace (j <? S i + (S (List.length rest) - 1))%nat
          with (j <? i + (S (S (List.length rest)) - 1))%nat
          by (f_equal; lia).
        destruct (j <? i + (S (S (List.length rest)) - 1))%nat; simpl.
        -- replace (j - i)%nat with (S (j - S i)) by lia. reflexivity.
        -- reflexivity.
      * replace (S i <=? j)%nat with false by (symmetry; apply Nat.leb_gt; lia).
        reflexivity.
Qed.

Lemma segments_plain (persona plain : string) (len : nat) :
  Spec.tip_index persona len = None ->
  Spec.tip_index plain len = None ->
  forall (path : list PathNode) (i : nat),
    segments persona len i path = segments plain len i path.
Proof.
  intros Hp Hq. induction path as [|a [|b rest] IH]; intros i; try reflexivity.
  change (segments persona len i (a :: b :: rest))
    with (segment_line M Number_toString len i a b
            :: persona_tip persona len i ++ segments persona len (S i) (b :: rest)).
  change (segments plain len i (a :: b :: rest))
    with (segment_line M Number_toString len i a b
            :: persona_tip plain len i ++ segments plain len (S i) (b :: rest)).
  now rewrite !persona_tip_index, Hp, Hq, (IH (S i)).
Qed.

Lemma segments_plain_length (plain : string) (len : nat) :
  Spec.tip_index plain len = None ->
  forall (path : list PathNode) (i : nat),
    List.length (segments plain len i path) = (List.length path - 1)%nat.
Proof.
  intros Hq. induction path as [|a [|b rest] IH]; intros i; try reflexivity.
  change (segments plain len i (a :: b :: rest))
    with (segment_line M Number_toString len i a b
            :: persona_tip plain len i ++ segments plain len (S i) (b :: rest)).
  rewrite persona_tip_index, Hq, app_nil_l.
  cbn [List.length]. rewrite (IH (S i)). cbn [List.length]. lia.
Qed.

Lemma faculty_no_tip (len : nat) : Spec.tip_index "faculty" len = None.
Proof. reflexivity. Qed.

Lemma generateDirections_insert_tip (path : list PathNode) (persona : string) :
  (2 <= List.length path)%nat ->
  generateDirections path persona
  = Spec.insert_tip (Spec.tip_of persona (List.length path))
      (generateDirections path "faculty").
Proof.
  intros Hlen. destruct path as [|a [|b rest]]; simpl in Hlen; try lia.
  unfold PathNetwork.generateDirections, Spec.tip_of.
  set (path := a :: b :: rest). set (len := List.length path).
  assert (Hl : len = S (S (List.length rest))) by reflexivity.
  pose proof (segments_plain_length "faculty" len (faculty_no_tip len) path 0) as Hseg.
  destruct (Spec.tip_index persona len) as [j|] eqn:Hj.
  - rewrite (segments_insert persona "faculty" len j Hj (faculty_no_tip len) path 0).
    fold len. rewrite Nat.add_0_l, Nat.sub_0_r. simpl (0 <=? j)%nat. rewrite andb_true_l.
    destruct (j <? len - 1)%nat eqn:Hlt; [|reflexivity].
    apply Nat.ltb_lt in Hlt. unfold Spec.insert_tip.
    set (segs := segments "faculty" len 0 path) in *.
    change (firstn (S (S j)) (?x :: ?l)) with (x :: firstn (S j) l).
    change (skipn (S (S j)) (?x :: ?l)) with (skipn (S j) l).
    rewrite firstn_app, skipn_app.
    replace (S j - List.length segs)%nat with 0%nat by (fold len in Hseg; lia).
    simpl firstn at 2. simpl skipn at 2. rewrite app_nil_r.
    simpl. f_equal. now rewrite <- app_assoc.
  - now rewrite (segments_plain persona "faculty" len Hj (faculty_no_tip len) path 0).
Qed.

End GenerateDirections.

(** C5: on a path of at least two nodes the directions of any two personas
    are the same list, the directions without tip, except that each persona
    inserts at most one tip (one of the three flavour lines) at a position
    that depends on the persona and the number of nodes only; every other
    line is unchanged.  [findPath] has no persona argument. *)
Theorem generateDirections_persona_cosmetic :
  forall (M : JS.MathRuntime) (Number_toString : JS.number -> string)
         (path : list PathNetwork.PathNode) (p q : string),
    (2 <= List.length path)%nat ->
    let base := PathNetwork.generateDirections M Number_toString path "faculty" in
    let len := List.length path in
    PathNetwork.generateDirections M Number_toString path p
      = Spec.insert_tip (Spec.tip_of p len) base
    /\ PathNetwork.generateDirections M Number_toString path q
      = Spec.insert_tip (Spec.tip_of q len) base
    /\ (forall k t, Spec.tip_of p len = Some (k, t) ->
          In t [PathNetwork.tip_new_student; PathNetwork.tip_cat_lover;
                PathNetwork.tip_cat_fearful]).
Proof.
  intros M Number_toString path p q Hlen base len.
  split; [|split].
  - now apply generateDirections_insert_tip.
  - now apply generateDirections_insert_tip.
  - unfold Spec.tip_of, Spec.tip_line. intros k t H.
    destruct (Spec.tip_index p len) as [j|]; [|discriminate].
    destruct (j <? len - 1)%nat; [|discriminate].
    injection H as _ <-. simpl.
    destruct (p =? "new-student")%string; [now left|].
    destruct (p =? "cat-lover")%string; [right; now left|].
    right; right; now left.
Qed.

Lemma generateDirections_persona_cosmetic_witness :
  (2 <= List.length [Sample.nodeA; Sample.nodeB])%nat
  /\ PathNetwork.generateDirections Sample.runtime Sample.Number_toString
       [Sample.nodeA; Sample.nodeB] "new-student"
     = Spec.insert_tip (Some (2%nat, PathNetwork.tip_new_student))
         (PathNetwork.generateDirections Sample.runtime Sample.Number_toString
            [Sample.nodeA; Sample.nodeB] "faculty").
Proof.
  split; [simpl; lia|].
  apply (generateDirections_persona_cosmetic Sample.runtime Sample.Number_toString
           [Sample.nodeA; Sample.nodeB] "new-student" "cat-lover").
  simpl; lia.
Defined.

(** C3, as the code has it: on a 2-node path the personas [new-student] and
    [cat-fearful] get five lines (their tip follows the segment line), every
    other persona gets exactly four: the opening [Start at] line, one
    segment line, the closing [Arrive at] line and the total-distance
    line; a path of fewer than two nodes gives no line for any persona. *)
Theorem generateDirections_two_nodes :
  forall (M : JS.MathRuntime) (Number_toString : JS.number -> string)
         (persona : string) (n1 n2 : PathNetwork.PathNode),
    let d := PathNetwork.calculateDistance M
               (PathNetwork.lat n1) (PathNetwork.lng n1)
               (PathNetwork.lat n2) (PathNetwork.lng n2) in
    let b := PathNetwork.calculateBearing M
               (PathNetwork.lat n1) (PathNetwork.lng n1)
               (PathNetwork.lat n2) (PathNetwork.lng n2) in
    let opening := ("Start at " ++ PathNetwork.name n1)%string in
    let segment :=
      ("Head " ++ PathNetwork.show_direction (PathNetwork.bearingToDirection b)
         ++ " for " ++ Number_toString (JS.Math_round d) ++ "m")%string in
    let closing := ("Arrive at " ++ PathNetwork.name n2)%string in
    let total :=
      ("📍 Total distance: "
         ++ Number_toString (JS.Math_round (JS.of_Z 0 + d)%js) ++ "m")%string in
    PathNetwork.generateDirections M Number_toString [n1; n2] persona
    = (if (persona =? "new-student")%string
       then [opening; segment; PathNetwork.tip_new_student; closing; total]
       else if (persona =? "cat-fearful")%string
       then [opening; segment; PathNetwork.tip_cat_fearful; closing; total]
       else [opening; segment; closing; total])
    /\ PathNetwork.generateDirections M Number_toString [n1] persona = []
    /\ PathNetwork.generateDirections M Number_toString [] persona = [].
Proof.
  intros M Number_toString persona n1 n2 d b opening segment closing total.
  split; [|split; reflexivity].
  unfold PathNetwork.generateDirections.
  cbn [PathNetwork.segments List.length List.last app PathNetwork.totalDistance
       PathNetwork.sumSegments].
  unfold PathNetwork.persona_tip. cbn [Nat.eqb Nat.div Nat.divmod fst andb].
  destruct (String.eqb_spec persona "new-student") as [->|H1]; [reflexivity|].
  destruct (String.eqb_spec persona "cat-lover") as [->|H2]; [reflexivity|].
  rewrite andb_false_r, andb_true_r.
  destruct (persona =? "cat-fearful")%string; reflexivity.
Qed.

(** C3 as stated fails: the persona [new-student] gets five lines on a
    2-node path, the third being its tip. *)
Lemma generateDirections_two_nodes_five_lines :
  let lines := PathNetwork.generateDirections Sample.runtime Sample.Number_toString
                 [Sample.nodeA; Sample.nodeB] "new-student" in
  List.length lines = 5%nat
  /\ nth_error lines 2 = Some "💡 Tip: Look for landmarks along the way"%string.
Proof. vm_compute. split; reflexivity. Qed.

(** ** The keyword matcher *)

Section Tokens.
Import JS.

Lemma split_from_run (s : string) :
  split_from EmptyString true s = split_whitespace (trimStart s).
Proof.
  unfold split_whitespace. induction s as [|c s IH]; [reflexivity|].
  simpl. destruct (is_whitespace c) eqn:E; [assumption|].
  simpl. now rewrite E.
Qed.

Lemma long_empty : Spec.long EmptyString = false.
Proof. reflexivity. Qed.

Lemma filter_split_trimStart (s : string) :
  filter Spec.long (split_whitespace (trimStart s))
  = filter Spec.long (split_whitespace s).
Proof.
  destruct s as [|c s]; [reflexivity|].
  cbn [trimStart]. destruct (is_whitespace c) eqn:E; [|reflexivity].
  unfold split_whitespace at 2. cbn [split_from]. rewrite E.
  cbn [filter]. now rewrite long_empty, split_from_run.
Qed.

Lemma trimEnd_empty (c : ascii) (s : string) :
  trimEnd (String c s) = EmptyString ->
  is_whitespace c = true /\ trimEnd s = EmptyString.
Proof.
  simpl. destruct (trimEnd s); [|discriminate].
  destruct (is_whitespace c); [auto|discriminate].
Qed.

Lemma filter_split_blank (s : string) :
  trimEnd s = EmptyString ->
  forall piece in_run,
    filter Spec.long (split_from piece in_run s) = filter Spec.long [piece].
Proof.
  induction s as [|c s IH]; intros H piece in_run; [reflexivity|].
  apply trimEnd_empty in H. destruct H as [Hc Hs].
  simpl split_from. rewrite Hc. destruct in_run.
  - now apply IH.
  - cbn [filter]. rewrite (IH Hs EmptyString true). cbn [filter].
    now rewrite long_empty.
Qed.

Lemma filter_split_trimEnd (s : string) :
  forall piece in_run,
    filter Spec.long (split_from piece in_run (trimEnd s))
    = filter Spec.long (split_from piece in_run s).
Proof.
  induction s as [|c s IH]; intros piece in_run; [reflexivity|].
  cbn [trimEnd]. destruct (trimEnd s) as [|d t] eqn:E.
  - destruct (is_whitespace c) eqn:Hc.
    + rewrite (filter_split_blank (String c s)); [reflexivity|].
      cbn [trimEnd]. now rewrite E, Hc.
    + cbn [split_from]. rewrite Hc.
      now rewrite (filter_split_blank s E).
  - remember (String d t) as u eqn:Hu. clear Hu.
    cbn [split_from]. destruct (is_whitespace c).
    + destruct in_run.
      * apply IH.
      * cbn [filter]. now rewrite IH.
    + apply IH.
Qed.

(** Trimming the query before splitting it does not change its keywords. *)
Lemma keywordsOf_tokens (userQuery : string) :
  AINavigator.keywordsOf userQuery = filter Spec.long (Spec.tokens userQuery).
Proof.
  unfold AINavigator.keywordsOf, Spec.tokens, trim.
  change (fun word => (2 <? String.length word)%nat) with Spec.long.
  unfold split_whitespace at 1.
  rewrite filter_split_trimEnd. apply filter_split_trimStart.
Qed.

(** On the strings of the model (code units below 256) lowercasing maps
    white space to white space and nothing else to it, so the tokens of
    the lowercased query are the lowercased tokens of the query. *)
Lemma is_whitespace_lower (c : ascii) :
  is_whitespace (lower_char c) = is_whitespace c.
Proof. destruct c as [[] [] [] [] [] [] [] []]; reflexivity. Qed.

Lemma toLowerCase_app (s t : string) :
  toLowerCase (s ++ t) = (toLowerCase s ++ toLowerCase t)%string.
Proof. induction s as [|c s IH]; simpl; [reflexivity | now rewrite IH]. Qed.

Lemma split_from_lower (s : string) :
  forall piece in_run,
    split_from (toLowerCase piece) in_run (toLowerCase s)
    = map toLowerCase (split_from piece in_run s).
Proof.
  induction s as [|c s IH]; intros piece in_run; [reflexivity|].
  cbn [toLowerCase split_from]. rewrite is_whitespace_lower.
  destruct (is_whitespace c).
  - destruct in_run; [apply IH|]. cbn [map]. f_equal. apply (IH EmptyString).
  - rewrite <- IH, toLowerCase_app. reflexivity.
Qed.

Lemma tokens_lower (userQuery : string) :
  Spec.tokens userQuery = map toLowerCase (split_whitespace userQuery).
Proof. apply (split_from_lower userQuery EmptyString false). Qed.

End Tokens.

Section Scoring.
Import JS CampusData.

Lemma fold_left_count {A : Type} (f : A -> bool) (c : Z) (l : list A) (score : Z) :
  fold_left (fun score x => if f x then score + c else score) l score
  = score + c * Spec.count f l.
Proof.
  unfold Spec.count. revert score. induction l as [|x l IH]; intros score.
  - simpl. lia.
  - cbn [fold_left filter]. rewrite IH. destruct (f x); cbn [List.length]; lia.
Qed.

Lemma scoreLocation_pair_score (keywords : list string) (l : Location) :
  AINavigator.scoreLocation keywords l = Spec.pair_score keywords l.
Proof.
  unfold AINavigator.scoreLocation, Spec.pair_score, Spec.name_hits,
    Spec.description_hits.
  rewrite !fold_left_count.
  assert (H : forall score,
             fold_left
               (fun score keyword =>
                  fold_left
                    (fun score tag =>
                       if includes tag keyword || includes keyword tag
                       then score + 3 else score) (tags l) score)
               keywords score
             = score + 3 * Spec.tag_pairs keywords l).
  { unfold Spec.tag_pairs. induction keywords as [|k ks IH]; intros score.
    - simpl. lia.
    - cbn [fold_left map fold_right]. rewrite IH.
      rewrite (fold_left_count (Spec.matches_tag k) 3). ring. }
  rewrite H. lia.
Qed.

Lemma count_nonneg {A : Type} (f : A -> bool) (l : list A) : 0 <= Spec.count f l.
Proof. unfold Spec.count. lia. Qed.

Lemma tag_pairs_nonneg (keywords : list string) (l : Location) :
  0 <= Spec.tag_pairs keywords l.
Proof.
  unfold Spec.tag_pairs. induction keywords as [|k ks IH]; simpl; [lia|].
  pose proof (count_nonneg (Spec.matches_tag k) (tags l)). lia.
Qed.

Lemma scoreLocation_nonneg (keywords : list string) (l : Location) :
  0 <= AINavigator.scoreLocation keywords l.
Proof.
  rewrite scoreLocation_pair_score. unfold Spec.pair_score, Spec.name_hits,
    Spec.description_hits.
  pose proof (tag_pairs_nonneg keywords l).
  pose proof (count_nonneg (includes (toLowerCase (name l))) keywords).
  pose proof (count_nonneg (includes (toLowerCase (description l))) keywords).
  lia.
Qed.

Lemma scoreLocation_no_keyword (l : Location) : AINavigator.scoreLocation [] l = 0.
Proof. reflexivity. Qed.

(** The head of the sorted array carries a highest score. *)
Lemma sort_head_max {A : Type} (score : A -> Z) (x : A) (l : list A) :
  exists best rest,
    sort (fun a b => score b - score a) (x :: l) = best :: rest
    /\ In best (x :: l)
    /\ forall y, In y (x :: l) -> score y <= score best.
Proof.
  revert x. induction l as [|z l IH]; intros x.
  - exists x, []. simpl. intuition (subst; lia).
  - destruct (IH z) as (best & rest & Hs & Hin & Hmax).
    cbn [sort] in *. rewrite Hs. cbn [sort_insert].
    destruct (Z.leb_spec (score best - score x) 0) as [Hle|Hgt].
    + exists x, (best :: rest). split; [reflexivity|]. split; [now left|].
      intros y [<-|Hy]; [lia|]. specialize (Hmax y Hy). lia.
    + exists best, (sort_insert (fun a b => score b - score a) x rest).
      split; [reflexivity|]. split; [now right|].
      intros y [<-|Hy]; [lia|]. now apply Hmax.
Qed.

End Scoring.

Section Widget.
Import JS CampusData AINavigator.
Variable M : MathRuntime.
Variable locations : list Location.

Lemma scoredLocations_head (userQuery : string) :
  locations <> [] ->
  exists best rest,
    scoredLocations locations userQuery
      = (best, scoreLocation (keywordsOf userQuery) best) :: rest
    /\ In best locations
    /\ forall l, In l locations ->
         scoreLocation (keywordsOf userQuery) l
         <= scoreLocation (keywordsOf userQuery) best.
Proof.
  intros Hne. destruct locations as [|x xs]; [contradiction|].
  unfold scoredLocations. set (kw := keywordsOf userQuery).
  set (f := fun location : Location => (location, scoreLocation kw location)).
  destruct (sort_head_max (@snd Location Z) (f x) (map f xs))
    as ([best sc] & rest & Hs & Hin & Hmax).
  change (f x :: map f xs) with (map f (x :: xs)) in *.
  apply in_map_iff in Hin. destruct Hin as (l0 & [= <- <-] & Hin).
  exists l0, rest. split; [exact Hs|]. split; [assumption|].
  intros l Hl. apply (Hmax (f l)). now apply in_map.
Qed.

Lemma top_score_bound (keywords : list string) (l : Location) :
  In l locations ->
  scoreLocation keywords l <= Spec.top_score keywords locations.
Proof.
  unfold Spec.top_score. induction locations as [|x xs IH]; [contradiction|].
  intros [<-|H]; cbn [map fold_right]; [lia|]. specialize (IH H). lia.
Qed.

Lemma top_score_no_keyword : Spec.top_score [] locations = 0.
Proof.
  unfold Spec.top_score. induction locations as [|x xs IH]; [reflexivity|].
  cbn [map fold_right]. rewrite IH, scoreLocation_no_keyword. reflexivity.
Qed.

End Widget.

(** C1, as the code has it: the keywords are the tokens of the lowercased
    query, split on white space, that are longer than 2; the score of a
    location is 3 for every pair of a keyword and a tag of which one is a
    substring of the other (a keyword that matches two tags counts twice),
    plus 2 for every keyword that is a substring of the lowercased name,
    plus 1 for every keyword that is a substring of the lowercased
    description; on a non-empty registry the best match carries a highest
    score, and when that score is positive it is the location recommended
    (the one passed to [onLocationFound]). *)
Theorem keyword_matcher_scores :
  forall (M : JS.MathRuntime) (locations : list CampusData.Location)
         (st : AINavigator.State) (userQuery : string),
    let keywords := AINavigator.keywordsOf userQuery in
    keywords = filter Spec.long (Spec.tokens userQuery)
    /\ (forall l, AINavigator.scoreLocation keywords l = Spec.pair_score keywords l)
    /\ (locations <> [] ->
        exists best rest,
          AINavigator.scoredLocations locations userQuery
            = (best, AINavigator.scoreLocation keywords best) :: rest
          /\ In best locations
          /\ (forall l, In l locations ->
                AINavigator.scoreLocation keywords l
                <= AINavigator.scoreLocation keywords best)
          /\ (0 < AINavigator.scoreLocation keywords best ->
              exists st' calls,
                AINavigator.processQuery M locations st userQuery = Some (st', calls)
                /\ In (AINavigator.onLocationFound best) calls
                /\ forall l, In (AINavigator.onLocationFound l) calls -> l = best)).
Proof.
  intros M locations st userQuery keywords. split; [|split].
  - apply keywordsOf_tokens.
  - intros l. apply scoreLocation_pair_score.
  - intros Hne. destruct (scoredLocations_head locations userQuery Hne)
      as (best & rest & Hs & Hin & Hmax).
    exists best, rest. repeat (split; [assumption|]).
    intros Hpos. unfold AINavigator.processQuery. rewrite Hs. cbn [fst snd].
    fold keywords. apply Z.ltb_lt in Hpos. rewrite Hpos.
    destruct (AINavigator.userLocation st) as [[userLat userLng]|].
    + destruct (AINavigator.locationPermission st).
      * destruct (AINavigator.findNearestLocation M locations userLat userLng).
        -- do 2 eexists. split; [reflexivity|]. split; [right; now left|].
           intros l' [H|[H|[]]]; [discriminate|now injection H].
        -- do 2 eexists. split; [reflexivity|]. split; [now left|].
           intros l' [H|[]]. now injection H.
      * do 2 eexists. split; [reflexivity|]. split; [now left|].
        intros l' [H|[]]. now injection H.
      * do 2 eexists. split; [reflexivity|]. split; [now left|].
        intros l' [H|[]]. now injection H.
    + do 2 eexists. split; [reflexivity|]. split; [now left|].
      intros l' [H|[]]. now injection H.
Qed.

(** C1 as stated fails: the keyword [study] is a substring of two tags of
    the sample library, which scores 6 where the claim's wording gives 3. *)
Lemma scoreLocation_counts_every_tag :
  AINavigator.scoreLocation (AINavigator.keywordsOf "study") Sample.library = 6
  /\ Spec.claimed_score (AINavigator.keywordsOf "study") Sample.library = 3.
Proof. split; reflexivity. Qed.

Example keyword_matcher_sample :
  AINavigator.keywordsOf "Show me a QUIET place to study "
    = ["show"; "quiet"; "place"; "study"]%string
  /\ map snd (AINavigator.scoredLocations Sample.registry
                "Show me a QUIET place to study ") = [10; 0].
Proof. split; reflexivity. Qed.

(** C8: on a non-empty registry, a query whose top score is 0 (in
    particular one all of whose white-space tokens have length at most 2,
    the tokens being those that the matcher filters: the pieces between
    runs of white space of the trimmed query in lower case) appends the
    user's message and the fixed fallback message and invokes neither
    callback. *)
Theorem processQuery_fallback :
  forall (M : JS.MathRuntime) (locations : list CampusData.Location)
         (st : AINavigator.State) (userQuery : string),
    locations <> [] ->
    ((forall t, In t (JS.split_whitespace (JS.trim (JS.toLowerCase userQuery))) ->
                (String.length t <= 2)%nat) ->
     Spec.top_score (AINavigator.keywordsOf userQuery) locations = 0)
    /\ (Spec.top_score (AINavigator.keywordsOf userQuery) locations = 0 ->
        AINavigator.processQuery M locations st userQuery
        = Some ({| AINavigator.messages :=
                     AINavigator.messages st
                       ++ [ {| AINavigator.type := AINavigator.user;
                               AINavigator.text := userQuery |};
                            {| AINavigator.type := AINavigator.ai;
                               AINavigator.text := AINavigator.fallbackText |} ];
                   AINavigator.userLocation := AINavigator.userLocation st;
                   AINavigator.locationPermission := AINavigator.locationPermission st |},
                [])).
Proof.
  intros M locations st userQuery Hne. split.
  - intros Hshort. unfold AINavigator.keywordsOf.
    replace (filter (fun word => (2 <? String.length word)%nat)
               (JS.split_whitespace (JS.trim (JS.toLowerCase userQuery))))
      with (@nil string); [apply top_score_no_keyword|].
    symmetry.
    induction (JS.split_whitespace (JS.trim (JS.toLowerCase userQuery))) as [|t ts IH];
      [reflexivity|].
    cbn [filter].
    replace (2 <? String.length t)%nat with false.
    + apply IH. intros u Hu. apply Hshort. now right.
    + symmetry. apply Nat.ltb_ge. apply Hshort. now left.
  - intros Htop.
    destruct (scoredLocations_head locations userQuery Hne)
      as (best & rest & Hs & Hin & _).
    unfold AINavigator.processQuery. rewrite Hs. cbn [fst snd].
    pose proof (top_score_bound locations (AINavigator.keywordsOf userQuery) best Hin) as Hb.
    rewrite Htop in Hb.
    replace (0 <? AINavigator.scoreLocation (AINavigator.keywordsOf userQuery) best)
      with false by (symmetry; apply Z.ltb_ge; exact Hb).
    reflexivity.
Qed.

Lemma processQuery_fallback_witness :
  Sample.registry <> []
  /\ AINavigator.processQuery Sample.runtime Sample.registry
       {| AINavigator.messages := [];
          AINavigator.userLocation := None;
          AINavigator.locationPermission := AINavigator.prompt |}
       "is it ok"
     = Some ({| AINavigator.messages :=
                  [ {| AINavigator.type := AINavigator.user;
                       AINavigator.text := "is it ok" |};
                    {| AINavigator.type := AINavigator.ai;
                       AINavigator.text := AINavigator.fallbackText |} ];
                AINavigator.userLocation := None;
                AINavigator.locationPermission := AINavigator.prompt |},
             []).
Proof.
  assert (Hne : Sample.registry <> []) by discriminate.
  split; [exact Hne|].
  destruct (processQuery_fallback Sample.runtime Sample.registry
              {| AINavigator.messages := [];
                 AINavigator.userLocation := None;
                 AINavigator.locationPermission := AINavigator.prompt |}
              "is it ok" Hne) as [Hshort Hfallback].
  apply Hfallback, Hshort.
  intros t Ht. vm_compute in Ht.
  destruct Ht as [<-|[<-|[<-|[]]]]; simpl; lia.
Defined.

(** ** Ordering of numbers *)

Section NumberOrder.
Import JS.

Lemma compare_ord (x y : number) :
  is_nan x = false -> is_nan y = false ->
  SFcompare x y = Some (FloatOrder.lex (FloatOrder.ord x) (FloatOrder.ord y)).
Proof.
  intros Hx Hy.
  destruct x as [sx|sx| |sx mx ex]; try discriminate;
    destruct y as [sy|sy| |sy my ey]; try discriminate;
    try (destruct sx; destruct sy; reflexivity);
    try (destruct sx; reflexivity); try (destruct sy; reflexivity).
  destruct sx, sy; try reflexivity; unfold FloatOrder.lex, FloatOrder.ord; simpl SFcompare.
  - rewrite Z.compare_opp, (Z.compare_antisym ex ey).
    change (PosDef.Pos.compare_cont Eq mx my) with (Pos.compare mx my).
    destruct (ex ?= ey); reflexivity.
Qed.

Lemma lex_lt (a b : Z * Z * Z) :
  FloatOrder.lex a b = Lt <-> FloatOrder.lt3 a b.
Proof.
  destruct a as [[a1 a2] a3], b as [[b1 b2] b3]. unfold FloatOrder.lex, FloatOrder.lt3.
  destruct (Z.compare_spec a1 b1); [|intuition (try lia; try discriminate)..].
  destruct (Z.compare_spec a2 b2); [|intuition (try lia; try discriminate)..].
  destruct (Z.compare_spec a3 b3); intuition (try lia; try discriminate).
Qed.

Lemma ltb_lt3 (x y : number) :
  ltb x y = true
  <-> is_nan x = false /\ is_nan y = false
      /\ FloatOrder.lt3 (FloatOrder.ord x) (FloatOrder.ord y).
Proof.
  unfold ltb, SFltb. split.
  - intros H.
    assert (Hx : is_nan x = false) by (destruct x; try reflexivity; discriminate).
    assert (Hy : is_nan y = false)
      by (destruct y; try reflexivity; destruct x; discriminate).
    rewrite (compare_ord x y Hx Hy) in H. repeat split; try assumption.
    apply lex_lt. now destruct (FloatOrder.lex _ _).
  - intros (Hx & Hy & H). rewrite (compare_ord x y Hx Hy).
    apply lex_lt in H. now rewrite H.
Qed.

Lemma leb_not_lt3 (x y : number) :
  leb x y = true
  <-> is_nan x = false /\ is_nan y = false
      /\ ~ FloatOrder.lt3 (FloatOrder.ord y) (FloatOrder.ord x).
Proof.
  unfold leb, SFleb. split.
  - intros H.
    assert (Hx : is_nan x = false) by (destruct x; try reflexivity; discriminate).
    assert (Hy : is_nan y = false)
      by (destruct y; try reflexivity; destruct x; discriminate).
    rewrite (compare_ord x y Hx Hy) in H. repeat split; try assumption.
    revert H. destruct (FloatOrder.ord x) as [[a1 a2] a3], (FloatOrder.ord y) as [[b1 b2] b3].
    unfold FloatOrder.lex, FloatOrder.lt3.
    destruct (Z.compare_spec a1 b1); try discriminate; try lia.
    destruct (Z.compare_spec a2 b2); try discriminate; try lia.
    destruct (Z.compare_spec a3 b3); try discriminate; lia.
  - intros (Hx & Hy & H). rewrite (compare_ord x y Hx Hy).
    revert H. destruct (FloatOrder.ord x) as [[a1 a2] a3], (FloatOrder.ord y) as [[b1 b2] b3].
    unfold FloatOrder.lex, FloatOrder.lt3.
    destruct (Z.compare_spec a1 b1); try reflexivity; try lia.
    destruct (Z.compare_spec a2 b2); try reflexivity; try lia.
    destruct (Z.compare_spec a3 b3); try reflexivity; lia.
Qed.

Lemma ltb_irrefl (x : number) : ltb x x = false.
Proof.
  destruct (ltb x x) eqn:E; [|reflexivity].
  apply ltb_lt3 in E. destruct E as (_ & _ & H).
  destruct (FloatOrder.ord x) as [[a1 a2] a3]. unfold FloatOrder.lt3 in H. lia.
Qed.

Lemma ltb_trans (x y z : number) :
  ltb x y = true -> ltb y z = true -> ltb x z = true.
Proof.
  rewrite !ltb_lt3. intros (Hx & Hy & H1) (_ & Hz & H2). repeat split; try assumption.
  destruct (FloatOrder.ord x) as [[a1 a2] a3], (FloatOrder.ord y) as [[b1 b2] b3],
    (FloatOrder.ord z) as [[c1 c2] c3].
  unfold FloatOrder.lt3 in *. lia.
Qed.

Lemma not_ltb_leb (x y : number) :
  is_nan x = false -> is_nan y = false -> ltb x y = false -> leb y x = true.
Proof.
  intros Hx Hy H. apply leb_not_lt3. repeat split; try assumption.
  intros Hlt. assert (ltb x y = true) by (apply ltb_lt3; auto). congruence.
Qed.

End NumberOrder.

(** ** The nearest registry location *)

Section Nearest.
Import JS CampusData AINavigator.
Variable M : MathRuntime.
Variables userLat userLng : number.

Let distanceTo (l : Location) : number :=
  calculateDistance M userLat userLng (lat l) (lng l).

Let step (acc : option Location * number) (location : Location) :=
  let '(nearestLocation, minDistance) := acc in
  let distance := calculateDistance M userLat userLng (lat location) (lng location) in
  if ltb distance minDistance then (Some location, distance)
  else (nearestLocation, minDistance).

(** The loop invariant: no location seen so far is strictly nearer than
    the running minimum, which is the distance of the running nearest
    location, or Infinity when there is none yet. *)
Let invariant (seen : list Location) (acc : option Location * number) : Prop :=
  (forall l, In l seen -> ltb (distanceTo l) (snd acc) = false)
  /\ match fst acc with
     | Some best => In best seen /\ snd acc = distanceTo best
     | None => snd acc = Infinity
     end.

Lemma nearest_invariant (todo seen : list Location) (acc : option Location * number) :
  invariant seen acc -> invariant (seen ++ todo) (fold_left step todo acc).
Proof.
  revert seen acc. induction todo as [|x todo IH]; intros seen acc Hinv.
  - now rewrite app_nil_r.
  - cbn [fold_left].
    replace (seen ++ x :: todo) with ((seen ++ [x]) ++ todo)
      by now rewrite <- app_assoc.
    apply IH. destruct acc as [nearest minDistance].
    destruct Hinv as [Hmin Hbest]. cbn [fst snd] in *.
    unfold step, invariant. fold (distanceTo x).
    destruct (ltb (distanceTo x) minDistance) eqn:E; cbn [fst snd].
    + split.
      * intros l Hl. apply in_app_or in Hl. destruct Hl as [Hl|[<-|[]]].
        -- destruct (ltb (distanceTo l) (distanceTo x)) eqn:E'; [|reflexivity].
           rewrite <- (Hmin l Hl). symmetry. now apply ltb_trans with (distanceTo x).
        -- apply ltb_irrefl.
      * split; [|reflexivity]. apply in_or_app. right. now left.
    + split.
      * intros l Hl. apply in_app_or in Hl. destruct Hl as [Hl|[<-|[]]];
          [now apply Hmin | assumption].
      * destruct nearest as [best|]; [|assumption].
        destruct Hbest as [Hin ->]. split; [|reflexivity].
        apply in_or_app. now left.
Qed.

Variable locations : list Location.

Lemma findNearestLocation_invariant :
  invariant locations (fold_left step locations (None, Infinity)).
Proof.
  apply (nearest_invariant locations [] (None, Infinity)).
  split; [intros l []|reflexivity].
Qed.

(** Whatever the distances are, no registry location is strictly nearer
    than the one returned. *)
Lemma findNearestLocation_some (best : Location) :
  findNearestLocation M locations userLat userLng = Some best ->
  In best locations
  /\ forall l, In l locations -> ltb (distanceTo l) (distanceTo best) = false.
Proof.
  unfold findNearestLocation. fold step.
  destruct findNearestLocation_invariant as [Hmin Hbest].
  intros H. rewrite H in Hbest. destruct Hbest as [Hin Hd].
  split; [assumption|]. intros l Hl. rewrite <- Hd. now apply Hmin.
Qed.

(** It returns [null] exactly when no registry location has a distance
    below Infinity. *)
Lemma findNearestLocation_none :
  findNearestLocation M locations userLat userLng = None
  <-> forall l, In l locations -> ltb (distanceTo l) Infinity = false.
Proof.
  unfold findNearestLocation. fold step.
  destruct findNearestLocation_invariant as [Hmin Hbest].
  split.
  - intros H. rewrite H in Hbest. intros l Hl. rewrite <- Hbest. now apply Hmin.
  - intros H.
    assert (forall (todo : list Location) (o : option Location),
               (forall l, In l todo -> ltb (distanceTo l) Infinity = false) ->
               fold_left step todo (o, Infinity) = (o, Infinity)) as Hfix.
    { induction todo as [|x xs IH]; intros o Hx; [reflexivity|].
      cbn [fold_left]. unfold step at 2. fold (distanceTo x).
      rewrite (Hx x (or_introl eq_refl)). apply IH. intros l Hl. apply Hx. now right. }
    now rewrite (Hfix locations None H).
Qed.

Lemma finite_below_Infinity (x : number) :
  is_finite x = true -> ltb x Infinity = true.
Proof. destruct x as [s|s| |s m e]; try discriminate; now destruct s. Qed.

Lemma finite_not_nan (x : number) : is_finite x = true -> is_nan x = false.
Proof. now destruct x. Qed.

(** When every distance is a finite number, the location returned is at
    minimal distance. *)
Lemma findNearestLocation_minimal :
  locations <> [] ->
  (forall l, In l locations -> is_finite (distanceTo l) = true) ->
  exists best,
    findNearestLocation M locations userLat userLng = Some best
    /\ In best locations
    /\ forall l, In l locations -> leb (distanceTo best) (distanceTo l) = true.
Proof.
  intros Hne Hfin.
  destruct (findNearestLocation M locations userLat userLng) as [best|] eqn:E.
  - exists best. split; [reflexivity|].
    destruct (findNearestLocation_some best E) as [Hin Hmin].
    split; [assumption|]. intros l Hl.
    apply not_ltb_leb; [apply finite_not_nan.. |]; auto.
  - exfalso.
    assert (exists x, In x locations) as [x Hx]
      by (clear -Hne; destruct locations as [|x xs];
          [contradiction | exists x; now left]).
    pose proof (proj1 findNearestLocation_none E x Hx) as H.
    rewrite finite_below_Infinity in H; [discriminate|].
    now apply Hfin.
Qed.

End Nearest.

(** C9, as the code has it: [findNearestLocation] returns [null]
    exactly when no registry location has a distance below Infinity, on
    an empty registry in particular; when the registry is non-empty and
    the distance from the device position to every registry location is a
    finite number, it returns a registry location whose Haversine distance
    to the device position is minimal over the whole registry, and
    [processQuery] uses that location's name as the [from] endpoint of the
    route it requests. *)
Theorem findNearestLocation_nearest :
  forall (M : JS.MathRuntime) (locations : list CampusData.Location)
         (userLat userLng : JS.number),
    (AINavigator.findNearestLocation M locations userLat userLng = None
     <-> forall l, In l locations ->
           JS.ltb (AINavigator.calculateDistance M userLat userLng
                     (CampusData.lat l) (CampusData.lng l)) JS.Infinity = false)
    /\ AINavigator.findNearestLocation M [] userLat userLng = None
    /\ (locations <> [] ->
        (forall l, In l locations ->
           JS.is_finite (AINavigator.calculateDistance M userLat userLng
                           (CampusData.lat l) (CampusData.lng l)) = true) ->
        exists nearest,
          AINavigator.findNearestLocation M locations userLat userLng = Some nearest
          /\ In nearest locations
          /\ (forall l, In l locations ->
                JS.leb (AINavigator.calculateDistance M userLat userLng
                          (CampusData.lat nearest) (CampusData.lng nearest))
                       (AINavigator.calculateDistance M userLat userLng
                          (CampusData.lat l) (CampusData.lng l)) = true)
          /\ (forall st userQuery bestMatch score rest,
                AINavigator.userLocation st = Some (userLat, userLng) ->
                AINavigator.locationPermission st = AINavigator.granted ->
                AINavigator.scoredLocations locations userQuery
                = (bestMatch, score) :: rest ->
                0 < score ->
                exists st',
                  AINavigator.processQuery M locations st userQuery
                  = Some (st', [AINavigator.onRouteRequest (CampusData.name nearest)
                                  (CampusData.name bestMatch);
                                AINavigator.onLocationFound bestMatch]))).
Proof.
  intros M locations userLat userLng.
  split; [apply findNearestLocation_none|]. split; [reflexivity|].
  intros Hne Hfin.
  destruct (findNearestLocation_minimal M userLat userLng locations Hne Hfin)
    as (nearest & Hn & Hin & Hmin).
  exists nearest. repeat (split; [assumption|]).
  intros st userQuery bestMatch score rest Hu Hp Hs Hpos.
  unfold AINavigator.processQuery. rewrite Hs, Hu, Hp, Hn. cbn [fst snd].
  apply Z.ltb_lt in Hpos. rewrite Hpos. eexists. reflexivity.
Qed.

(** From the sample device position the library is nearer than the
    canteen, by a distance that is strictly smaller. *)
Lemma findNearestLocation_nearest_witness :
  Sample.registry <> []
  /\ JS.ltb (AINavigator.calculateDistance Sample.planar Sample.userLat Sample.userLng
               (CampusData.lat Sample.library) (CampusData.lng Sample.library))
            (AINavigator.calculateDistance Sample.planar Sample.userLat Sample.userLng
               (CampusData.lat Sample.canteen) (CampusData.lng Sample.canteen)) = true
  /\ exists nearest,
       AINavigator.findNearestLocation Sample.planar Sample.registry
         Sample.userLat Sample.userLng = Some nearest
       /\ In nearest Sample.registry
       /\ (forall l, In l Sample.registry ->
             JS.leb (AINavigator.calculateDistance Sample.planar Sample.userLat
                       Sample.userLng (CampusData.lat nearest) (CampusData.lng nearest))
                    (AINavigator.calculateDistance Sample.planar Sample.userLat
                       Sample.userLng (CampusData.lat l) (CampusData.lng l)) = true).
Proof.
  assert (Hne : Sample.registry <> []) by discriminate.
  split; [exact Hne|]. split; [vm_compute; reflexivity|].
  destruct (proj2 (proj2 (findNearestLocation_nearest Sample.planar Sample.registry
                            Sample.userLat Sample.userLng)) Hne)
    as (nearest & Hn & Hin & Hmin & _).
  - intros l [<-|[<-|[]]]; vm_compute; reflexivity.
  - exists nearest. split; [exact Hn|]. split; [exact Hin|exact Hmin].
Defined.

(** C9 as stated fails: the distance to an entry whose latitude is NaN is
    NaN, which is not below Infinity, so a registry made of that entry is
    not empty and yet yields [null]. *)
Lemma findNearestLocation_null_on_nonempty :
  [Sample.nowhere] <> []
  /\ AINavigator.calculateDistance Sample.runtime Sample.userLat Sample.userLng
       (CampusData.lat Sample.nowhere) (CampusData.lng Sample.nowhere) = JS.NaN
  /\ AINavigator.findNearestLocation Sample.runtime [Sample.nowhere]
       Sample.userLat Sample.userLng = None.
Proof. split; [discriminate|]. split; vm_compute; reflexivity. Qed.

(** ** Rounding to binary64

    Facts about the rounding functions of [SpecFloat] at precision 53 and
    maximal exponent 1024. *)

Section Rounding.
Import JS.

Lemma fexp_eq (e : Z) : fexp prec emax e = Z.max (e - 53) (-1074).
Proof. reflexivity. Qed.

Lemma Zdigits2_log2 (m : Z) : 0 < m -> Zdigits2 m = Z.succ (Z.log2 m).
Proof.
  destruct m as [|p|p]; try lia. intros _. simpl.
  induction p as [p IH|p IH|]; simpl in *; try reflexivity;
    rewrite ?Pos2Z.inj_succ; destruct p; simpl in *; lia.
Qed.

Lemma Zdigits2_bounds (m : Z) :
  0 < m -> 2 ^ (Zdigits2 m - 1) <= m < 2 ^ Zdigits2 m.
Proof.
  intros H. rewrite (Zdigits2_log2 m H).
  replace (Z.succ (Z.log2 m) - 1) with (Z.log2 m) by lia.
  now apply Z.log2_spec.
Qed.

Lemma Zdigits2_nonneg (m : Z) : 0 <= Zdigits2 m.
Proof. destruct m; simpl; lia. Qed.

Lemma Zdigits2_pos (m : Z) : 0 < m -> 0 < Zdigits2 m.
Proof. destruct m; simpl; lia. Qed.

Lemma Zdigits2_le (m d : Z) : 0 <= m -> 0 <= d -> m < 2 ^ d -> Zdigits2 m <= d.
Proof.
  intros Hm Hd H. destruct (Z.eq_dec m 0) as [->|Hz]; [simpl; lia|].
  assert (0 < m) as Hp by lia.
  destruct (Zdigits2_bounds m Hp) as [Hl _].
  destruct (Z_lt_le_dec d (Zdigits2 m)) as [Hlt|]; [|assumption].
  exfalso. assert (2 ^ d <= 2 ^ (Zdigits2 m - 1)) by (apply Z.pow_le_mono_r; lia).
  lia.
Qed.

Lemma Zdigits2_ge (m d : Z) : 0 < m -> 2 ^ d <= m -> d < Zdigits2 m.
Proof.
  intros Hm H. destruct (Zdigits2_bounds m Hm) as [_ Hu].
  destruct (Z_lt_le_dec d (Zdigits2 m)) as [|Hle]; [assumption|].
  exfalso. assert (2 ^ Zdigits2 m <= 2 ^ d)
    by (apply Z.pow_le_mono_r; [lia | assumption]).
  lia.
Qed.

Lemma Zdigits2_mono (m n : Z) : 0 <= m <= n -> Zdigits2 m <= Zdigits2 n.
Proof.
  intros [Hm Hmn]. destruct (Z.eq_dec n 0) as [->|Hz].
  - replace m with 0 by lia. lia.
  - apply Zdigits2_le; [assumption | apply Zdigits2_nonneg|].
    destruct (Zdigits2_bounds n); lia.
Qed.

(** Shifting right by [n] positions divides the mantissa by [2 ^ n]. *)
Lemma shr_1_m (mrs : shr_record) :
  0 <= shr_m mrs -> shr_m (shr_1 mrs) = shr_m mrs / 2.
Proof.
  destruct mrs as [m r s]. simpl. intros H.
  destruct m as [|[p|p|]|p]; try lia; try reflexivity; simpl shr_m.
  - rewrite Pos2Z.inj_xI. apply Z.div_unique with 1; lia.
  - rewrite Pos2Z.inj_xO. apply Z.div_unique with 0; lia.
Qed.

Lemma iter_shr_1_m (p : positive) (mrs : shr_record) :
  0 <= shr_m mrs ->
  shr_m (iter_pos shr_1 p mrs) = shr_m mrs / 2 ^ Zpos p.
Proof.
  revert mrs. induction p as [p IH|p IH|]; intros mrs H; cbn [iter_pos].
  - assert (2 ^ Z.pos p~1 = 2 * (2 ^ Z.pos p * 2 ^ Z.pos p)) as ->
      by (rewrite <- Z.pow_add_r, <- Z.pow_succ_r by lia; f_equal; lia).
    assert (0 <= shr_m (shr_1 mrs))
      by (rewrite shr_1_m by assumption; apply Z.div_pos; lia).
    assert (0 <= shr_m (iter_pos shr_1 p (shr_1 mrs)))
      by (rewrite IH by assumption; apply Z.div_pos; lia).
    rewrite !IH, shr_1_m by assumption.
    now rewrite !Z.div_div by lia.
  - assert (2 ^ Z.pos p~0 = 2 ^ Z.pos p * 2 ^ Z.pos p) as ->
      by (rewrite <- Z.pow_add_r by lia; f_equal; lia).
    assert (0 <= shr_m (iter_pos shr_1 p mrs))
      by (rewrite IH by assumption; apply Z.div_pos; lia).
    rewrite !IH by assumption. now rewrite Z.div_div by lia.
  - rewrite shr_1_m by assumption. reflexivity.
Qed.

Lemma shr_m_record_of_loc (m : Z) (l : location) :
  shr_m (shr_record_of_loc m l) = m.
Proof. destruct l as [|[]]; reflexivity. Qed.

(** [shr]: the mantissa is divided by [2 ^ n] and the exponent raised by
    [n], for the positive part [n] of the requested shift. *)
Lemma shr_spec (mrs : shr_record) (e n : Z) :
  0 <= shr_m mrs ->
  shr_m (fst (shr mrs e n)) = shr_m mrs / 2 ^ Z.max n 0
  /\ snd (shr mrs e n) = e + Z.max n 0.
Proof.
  intros H. destruct n as [|p|p]; cbn [shr fst snd].
  - rewrite Z.max_id. simpl. rewrite Z.div_1_r. lia.
  - rewrite iter_shr_1_m by assumption. rewrite Z.max_l by lia. split; reflexivity.
  - rewrite Z.max_r by lia. simpl. rewrite Z.div_1_r. lia.
Qed.

Lemma round_nearest_even_bounds (m : Z) (l : location) :
  m <= round_nearest_even m l <= m + 1.
Proof. destruct l as [|[]]; simpl; try lia. destruct (Z.even m); lia. Qed.

Lemma Zdigits2_succ_le (m : Z) : 0 <= m -> Zdigits2 (m + 1) <= Zdigits2 m + 1.
Proof.
  intros H. pose proof (Zdigits2_nonneg m).
  apply Zdigits2_le; try lia.
  destruct (Z.eq_dec m 0) as [->|Hz]; [reflexivity|].
  destruct (Zdigits2_bounds m) as [_ Hu]; [lia|].
  rewrite Z.pow_add_r, Z.pow_1_r by lia. lia.
Qed.

Lemma Zdigits2_div_pow (m n : Z) :
  0 <= m -> 0 <= n -> Zdigits2 (m / 2 ^ n) = Z.max (Zdigits2 m - n) 0.
Proof.
  intros Hm Hn. pose proof (Zdigits2_nonneg m).
  assert (0 < 2 ^ n) by (apply Z.pow_pos_nonneg; lia).
  destruct (Z.eq_dec m 0) as [->|Hz]; [rewrite Z.div_0_l by lia; simpl; lia|].
  destruct (Zdigits2_bounds m) as [Hl Hu]; [lia|].
  destruct (Z_lt_le_dec n (Zdigits2 m)) as [Hlt|Hge].
  - rewrite Z.max_l by lia.
    assert (2 ^ (Zdigits2 m - n - 1) <= m / 2 ^ n) as Hq.
    { apply Z.div_le_lower_bound; [lia|].
      rewrite <- Z.pow_add_r by lia.
      now replace (n + (Zdigits2 m - n - 1)) with (Zdigits2 m - 1) by lia. }
    assert (0 < m / 2 ^ n)
      by (apply Z.lt_le_trans with (2 ^ (Zdigits2 m - n - 1));
          [apply Z.pow_pos_nonneg; lia | assumption]).
    apply Z.le_antisymm.
    + apply Zdigits2_le; try lia.
      apply Z.div_lt_upper_bound; [lia|].
      rewrite <- Z.pow_add_r by lia.
      now replace (n + (Zdigits2 m - n)) with (Zdigits2 m) by lia.
    + pose proof (Zdigits2_ge (m / 2 ^ n) (Zdigits2 m - n - 1) ltac:(lia) Hq). lia.
  - rewrite Z.div_small; [simpl; lia|]. split; [assumption|].
    apply Z.lt_le_trans with (2 ^ Zdigits2 m); [assumption|].
    apply Z.pow_le_mono_r; lia.
Qed.

Lemma Zdigits2_mul (a b : Z) :
  0 < a -> 0 < b ->
  Zdigits2 a + Zdigits2 b - 1 <= Zdigits2 (a * b) <= Zdigits2 a + Zdigits2 b.
Proof.
  intros Ha Hb.
  destruct (Zdigits2_bounds a Ha) as [Hal Hau].
  destruct (Zdigits2_bounds b Hb) as [Hbl Hbu].
  pose proof (Zdigits2_pos a Ha). pose proof (Zdigits2_pos b Hb).
  assert (0 < 2 ^ (Zdigits2 a - 1)) by (apply Z.pow_pos_nonneg; lia).
  assert (0 < 2 ^ (Zdigits2 b - 1)) by (apply Z.pow_pos_nonneg; lia).
  split.
  - assert (2 ^ (Zdigits2 a + Zdigits2 b - 2) <= a * b) as Hl.
    { replace (Zdigits2 a + Zdigits2 b - 2)
        with ((Zdigits2 a - 1) + (Zdigits2 b - 1)) by lia.
      rewrite Z.pow_add_r by lia. nia. }
    pose proof (Zdigits2_ge (a * b) _ ltac:(nia) Hl). lia.
  - apply Zdigits2_le; try nia. rewrite Z.pow_add_r by lia. nia.
Qed.

Lemma Zdigits2_mul_pow (m k : Z) :
  0 < m -> 0 <= k -> Zdigits2 (m * 2 ^ k) = Zdigits2 m + k.
Proof.
  intros Hm Hk.
  assert (0 < 2 ^ k) by (apply Z.pow_pos_nonneg; lia).
  rewrite !Zdigits2_log2 by nia.
  rewrite Z.log2_mul_pow2 by lia. lia.
Qed.

(** The result of rounding a mantissa [M >= 0] at exponent [E]: a zero, or
    a mantissa of at most 53 digits at the exponent [e], one of the two
    exponents from the canonical one of the input on, that overshoots the
    input by at most one unit in the last place; it overflows to an
    infinity when [e] exceeds 971. *)
Lemma binary_round_aux_spec (s : bool) (M E : Z) (l : location) :
  0 <= M ->
  binary_round_aux prec emax s M E l = S754_zero s
  \/ exists m e,
       binary_round_aux prec emax s M E l
         = (if e <=? 971 then S754_finite s m e else S754_infinity s)
       /\ Z.max (Z.max (Zdigits2 M + E - 53) (-1074)) E <= e
          <= Z.max (Z.max (Zdigits2 M + E - 53) (-1074)) E + 1
       /\ Zdigits2 (Zpos m) <= 53
       /\ Zpos m * 2 ^ (e - E) <= M + 2 ^ (e - E)
       /\ (E <= Z.max (Zdigits2 M + E - 53) (-1074) ->
           Z.max (Zdigits2 (Zpos m) + e - 53) (-1074) = e).
Proof.
  intros HM. unfold binary_round_aux, shr_fexp. rewrite !fexp_eq.
  set (n := Z.max (Zdigits2 M + E - 53) (-1074) - E).
  destruct (shr_spec (shr_record_of_loc M l) E n) as [Hm1 He1];
    [now rewrite shr_m_record_of_loc|].
  rewrite shr_m_record_of_loc in Hm1.
  destruct (shr (shr_record_of_loc M l) E n) as [mrs' e'] eqn:Es.
  cbn [fst snd] in Hm1, He1.
  set (m2 := round_nearest_even (shr_m mrs') (loc_of_shr_record mrs')).
  pose proof (round_nearest_even_bounds (shr_m mrs') (loc_of_shr_record mrs')) as Hm2.
  fold m2 in Hm2.
  assert (0 < 2 ^ Z.max n 0) as Hp1 by (apply Z.pow_pos_nonneg; lia).
  assert (0 <= shr_m mrs') as Hm1pos by (rewrite Hm1; apply Z.div_pos; lia).
  rewrite fexp_eq. change (emax - prec) with 971.
  set (n2 := Z.max (Zdigits2 m2 + e' - 53) (-1074) - e').
  destruct (shr_spec (shr_record_of_loc m2 loc_Exact) e' n2) as [Hm3 He3];
    [simpl; lia|].
  destruct (shr (shr_record_of_loc m2 loc_Exact) e' n2) as [mrs'' e''] eqn:Es2.
  cbn [fst snd] in Hm3, He3. simpl shr_m in Hm3 at 2.
  assert (0 < 2 ^ Z.max n2 0) as Hp2 by (apply Z.pow_pos_nonneg; lia).
  pose proof (Zdigits2_div_pow M (Z.max n 0) HM ltac:(lia)) as Hd1.
  rewrite <- Hm1 in Hd1.
  pose proof (Zdigits2_mono m2 (shr_m mrs' + 1) ltac:(lia)) as Hd2.
  pose proof (Zdigits2_succ_le (shr_m mrs') Hm1pos) as Hd2'.
  pose proof (Zdigits2_mono (shr_m mrs') m2 ltac:(lia)) as Hd2''.
  pose proof (Zdigits2_nonneg M) as HdM.
  pose proof (Zdigits2_nonneg m2) as Hdm2.
  assert (n2 <= 1) as Hn2 by lia.
  pose proof (Zdigits2_div_pow m2 (Z.max n2 0) ltac:(lia) ltac:(lia)) as Hd3.
  rewrite <- Hm3 in Hd3.
  destruct (shr_m mrs'') as [|m|m] eqn:Em3.
  - now left.
  - right. exists m, e''. split; [reflexivity|].
    split; [lia|]. split; [lia|]. split; [|lia].
    replace (e'' - E) with (Z.max n 0 + Z.max n2 0) by lia.
    rewrite Z.pow_add_r by lia.
    assert (Z.pos m * 2 ^ Z.max n2 0 <= m2) as H3.
    { rewrite Hm3, Z.mul_comm. apply Z.mul_div_le. lia. }
    assert (shr_m mrs' * 2 ^ Z.max n 0 <= M) as H1.
    { rewrite Hm1, Z.mul_comm. apply Z.mul_div_le. lia. }
    nia.
  - exfalso. pose proof (Z.div_pos m2 (2 ^ Z.max n2 0) ltac:(lia) Hp2). lia.
Qed.

End Rounding.

(** ** Signs *)

Section Signs.
Import JS.

Lemma binary_round_aux_opp (s : bool) (M E : Z) (l : location) :
  binary_round_aux prec emax (negb s) M E l
  = SFopp (binary_round_aux prec emax s M E l).
Proof.
  unfold binary_round_aux.
  destruct (shr_fexp prec emax M E l) as [mrs' e'].
  destruct (shr_fexp prec emax _ e' loc_Exact) as [mrs'' e''].
  destruct (shr_m mrs''); try reflexivity.
  now destruct (e'' <=? emax - prec).
Qed.

Lemma binary_round_opp (s : bool) (m : positive) (E : Z) :
  binary_round prec emax (negb s) m E = SFopp (binary_round prec emax s m E).
Proof.
  unfold binary_round. destruct (shl_align m E _) as [mz ez].
  apply binary_round_aux_opp.
Qed.

Lemma neg_involutive (x : number) : neg (neg x) = x.
Proof. destruct x as [s|s| |s m e]; simpl; now rewrite ?negb_involutive. Qed.

Lemma binary_normalize_opp (m E : Z) :
  m <> 0 ->
  binary_normalize prec emax (- m) E false
  = neg (binary_normalize prec emax m E false).
Proof.
  destruct m as [|p|p]; [congruence| |]; intros _; simpl.
  - apply (binary_round_opp false).
  - rewrite (binary_round_opp false). symmetry. apply neg_involutive.
Qed.

Lemma mul_neg_l (x y : number) : (neg x * y)%js = neg (x * y)%js.
Proof.
  destruct x as [sx|sx| |sx mx ex], y as [sy|sy| |sy my ey]; simpl;
    try reflexivity; try (now destruct sx, sy).
  rewrite <- binary_round_aux_opp. now destruct sx, sy.
Qed.

Lemma mul_comm (x y : number) : (x * y)%js = (y * x)%js.
Proof.
  destruct x as [sx|sx| |sx mx ex], y as [sy|sy| |sy my ey]; simpl;
    try reflexivity; try (now destruct sx, sy).
  now rewrite Pos.mul_comm, Z.add_comm, xorb_comm.
Qed.

Lemma mul_neg_r (x y : number) : (x * neg y)%js = neg (x * y)%js.
Proof. now rewrite mul_comm, mul_neg_l, mul_comm. Qed.

Lemma mul_neg_neg (x y : number) : (neg x * neg y)%js = (x * y)%js.
Proof. now rewrite mul_neg_l, mul_neg_r, neg_involutive. Qed.

Lemma div_neg_l (x y : number) : (neg x / y)%js = neg (x / y)%js.
Proof.
  destruct x as [sx|sx| |sx mx ex], y as [sy|sy| |sy my ey]; simpl;
    try reflexivity; try (now destruct sx, sy).
  destruct (SFdiv_core_binary prec emax (Z.pos mx) ex (Z.pos my) ey) as [[mz ez] lz].
  rewrite <- binary_round_aux_opp. now destruct sx, sy.
Qed.

(** Swapping the operands of a subtraction negates the difference, except
    that a zero difference of equal operands is [+0] both ways. *)
Lemma sub_swap (x y : number) :
  (y - x)%js = neg (x - y)%js \/ (y - x)%js = (x - y)%js.
Proof.
  destruct x as [sx|sx| |sx mx ex], y as [sy|sy| |sy my ey]; simpl;
    try (now left); try (now right);
    try (destruct sx, sy; simpl; auto; fail);
    try (destruct sx; simpl; auto; fail);
    try (destruct sy; simpl; auto; fail).
  rewrite (Z.min_comm ey ex).
  set (ez := Z.min ex ey).
  set (A := cond_Zopp sx (Z.pos (fst (shl_align mx ex ez)))).
  set (B := cond_Zopp sy (Z.pos (fst (shl_align my ey ez)))).
  destruct (Z.eq_dec (A - B) 0) as [E|E].
  - right. replace (B - A) with 0 by lia. now rewrite E.
  - left. replace (B - A) with (- (A - B)) by lia.
    now apply binary_normalize_opp.
Qed.

Lemma sub_diag (x : number) : is_finite x = true -> (x - x)%js = zero.
Proof.
  destruct x as [s|s| |s m e]; try discriminate; intros _; simpl.
  - now destruct s.
  - now rewrite Z.sub_diag.
Qed.

(** NaN propagates through the arithmetic operations. *)
Lemma mul_nan_r (x : number) : (x * NaN)%js = NaN.
Proof. now destruct x. Qed.

Lemma add_nan_r (x : number) : (x + NaN)%js = NaN.
Proof. now destruct x. Qed.

Lemma sub_nan (x y : number) : is_nan x || is_nan y = true -> (y - x)%js = NaN.
Proof.
  destruct x as [sx|sx| |sx mx ex], y as [sy|sy| |sy my ey];
    try discriminate; reflexivity.
Qed.

End Signs.

(** ** Symmetry of the Haversine distance *)

Section DistanceSymmetry.
Import JS.
Variable M : MathRuntime.
Hypothesis sin_odd : Spec.sin_odd M.

Lemma haversine_term_swap (x y : number) :
  let d := (((y - x) * Math_PI) / of_Z 180)%js in
  let d' := (((x - y) * Math_PI) / of_Z 180)%js in
  (Math_sin M (d' / of_Z 2) * Math_sin M (d' / of_Z 2))%js
  = (Math_sin M (d / of_Z 2) * Math_sin M (d / of_Z 2))%js.
Proof.
  intros d d'. unfold d, d'.
  destruct (sub_swap y x) as [H|H]; rewrite H; [|reflexivity].
  rewrite mul_neg_l, !div_neg_l, sin_odd. apply mul_neg_neg.
Qed.

Lemma calculateDistance_swap (lat1 lng1 lat2 lng2 : number) :
  PathNetwork.calculateDistance M lat2 lng2 lat1 lng1
  = PathNetwork.calculateDistance M lat1 lng1 lat2 lng2.
Proof.
  unfold PathNetwork.calculateDistance. cbv zeta.
  rewrite (haversine_term_swap lat1 lat2).
  rewrite (mul_comm (Math_cos M ((lat2 * Math_PI) / of_Z 180)%js)
             (Math_cos M ((lat1 * Math_PI) / of_Z 180)%js)).
  set (c := (Math_cos M ((lat1 * Math_PI) / of_Z 180)
             * Math_cos M ((lat2 * Math_PI) / of_Z 180))%js).
  assert (forall s s' : number,
             s' = s \/ s' = neg s -> (c * s' * s')%js = (c * s * s)%js) as Hc.
  { intros s s' [->| ->]; [reflexivity|].
    now rewrite !mul_neg_r, mul_neg_l, neg_involutive. }
  rewrite (Hc (Math_sin M ((((lng2 - lng1) * Math_PI) / of_Z 180) / of_Z 2)%js)
              (Math_sin M ((((lng1 - lng2) * Math_PI) / of_Z 180) / of_Z 2)%js));
    [reflexivity|].
  destruct (sub_swap lng2 lng1) as [H|H]; rewrite H; [right|now left].
  now rewrite mul_neg_l, !div_neg_l, sin_odd.
Qed.

End DistanceSymmetry.

(** ** Validity of the results of the arithmetic operations *)

Section Validity.
Import JS.

(** A mantissa and an exponent are canonical when the exponent is the one
    binary64 assigns to a number of that magnitude. *)
Lemma valid_finite (s : bool) (m : positive) (e : Z) :
  valid (S754_finite s m e) = true
  <-> Z.max (Zdigits2 (Zpos m) + e - 53) (-1074) = e /\ e <= 971.
Proof.
  unfold valid, valid_binary, bounded, canonical_mantissa.
  rewrite fexp_eq, andb_true_iff, Z.eqb_eq, Z.leb_le. reflexivity.
Qed.

Lemma valid_digits (s : bool) (m : positive) (e : Z) :
  valid (S754_finite s m e) = true ->
  Zdigits2 (Zpos m) <= 53 /\ -1074 <= e <= 971
  /\ (Zdigits2 (Zpos m) = 53 \/ e = -1074).
Proof. rewrite valid_finite. lia. Qed.

Lemma valid_rounded (s : bool) (m : positive) (e : Z) :
  Z.max (Zdigits2 (Zpos m) + e - 53) (-1074) = e ->
  valid (if e <=? 971 then S754_finite s m e else S754_infinity s) = true.
Proof.
  intros H. destruct (Z.leb_spec e 971); [|reflexivity].
  now apply valid_finite.
Qed.

Lemma pow2_pos (e : Z) : (0 < 2 ^ e)%Q.
Proof. apply Qpower_0_lt. reflexivity. Qed.

Lemma pow2_add (a b : Z) : (2 ^ (a + b) == 2 ^ a * 2 ^ b)%Q.
Proof. apply Qpower_plus. discriminate. Qed.

Lemma pow2_le (a b : Z) : a <= b -> (2 ^ a <= 2 ^ b)%Q.
Proof. intros H. apply Qpower_le_compat_l; [assumption | discriminate]. Qed.

Lemma inject_pow2 (n : Z) : 0 <= n -> (inject_Z (2 ^ n) == 2 ^ n)%Q.
Proof. intros H. now rewrite Zpower_Qpower. Qed.

(** The bound of [binary_round_aux_spec] on the values. *)
Lemma round_value (m M e E : Z) :
  E <= e ->
  m * 2 ^ (e - E) <= M + 2 ^ (e - E) ->
  (inject_Z m * 2 ^ e <= inject_Z M * 2 ^ E + 2 ^ e)%Q.
Proof.
  intros He H. rewrite Zle_Qle, inject_Z_plus, inject_Z_mult in H.
  rewrite inject_pow2 in H by lia.
  assert (2 ^ e == 2 ^ (e - E) * 2 ^ E)%Q as Hp
    by (rewrite <- pow2_add; now replace (e - E + E) with e by lia).
  pose proof (pow2_pos E). pose proof (pow2_pos (e - E)).
  rewrite Hp. nra.
Qed.

(** The product of two binary64 numbers. *)
Lemma mul_spec (sx sy : bool) (mx my : positive) (ex ey : Z) :
  valid (S754_finite sx mx ex) = true ->
  valid (S754_finite sy my ey) = true ->
  let s := xorb sx sy in
  let r := (S754_finite sx mx ex * S754_finite sy my ey)%js in
  r = S754_zero s
  \/ exists m e,
       r = (if e <=? 971 then S754_finite s m e else S754_infinity s)
       /\ Z.max (Zdigits2 (Zpos m) + e - 53) (-1074) = e
       /\ e <= Z.max (ex + ey + 54) (-1073)
       /\ (inject_Z (Zpos m) * 2 ^ e
           <= FloatOrder.mag (S754_finite sx mx ex) * FloatOrder.mag (S754_finite sy my ey)
              + 2 ^ e)%Q.
Proof.
  intros Hx Hy s r. apply valid_digits in Hx, Hy.
  pose proof (Zdigits2_mul (Zpos mx) (Zpos my) ltac:(lia) ltac:(lia)) as Hd.
  pose proof (Zdigits2_pos (Zpos mx) ltac:(lia)).
  pose proof (Zdigits2_pos (Zpos my) ltac:(lia)).
  destruct (binary_round_aux_spec s (Zpos (mx * my)) (ex + ey) loc_Exact ltac:(lia))
    as [Hr|(m & e & Hr & He & Hm & Hv & Hc)].
  - now left.
  - right. exists m, e. rewrite Pos2Z.inj_mul in *.
    split; [exact Hr|]. split; [apply Hc; lia|]. split; [lia|].
    apply round_value in Hv; [|lia].
    rewrite inject_Z_mult, pow2_add in Hv. simpl FloatOrder.mag.
    pose proof (pow2_pos ex). pose proof (pow2_pos ey). lra.
Qed.

(** The quotient of two binary64 numbers. *)
Lemma div_core_spec (mx my : positive) (ex ey : Z) :
  exists q e' l,
    SFdiv_core_binary prec emax (Zpos mx) ex (Zpos my) ey = (q, e', l)
    /\ e' = Z.min (Z.max (Zdigits2 (Zpos mx) + ex - (Zdigits2 (Zpos my) + ey) - 53) (-1074))
                  (ex - ey)
    /\ q = Zpos mx * 2 ^ (ex - ey - e') / Zpos my.
Proof.
  unfold SFdiv_core_binary. rewrite fexp_eq.
  set (e' := Z.min _ (ex - ey)).
  assert (0 <= ex - ey - e') as Hs by lia.
  set (m' := match ex - ey - e' with
             | Z.pos _ => Z.shiftl (Z.pos mx) (ex - ey - e')
             | 0 => Z.pos mx
             | Z.neg _ => 0
             end).
  assert (m' = Zpos mx * 2 ^ (ex - ey - e')) as Hm'.
  { unfold m'. destruct (ex - ey - e') as [|p|p] eqn:E; try lia.
    - rewrite Z.shiftl_mul_pow2 by lia. reflexivity. }
  destruct (Z.div_eucl m' (Z.pos my)) as [q r] eqn:Ed.
  exists q, e', (new_location (Zpos my) r). repeat split.
  unfold Z.div. now rewrite <- Hm', Ed.
Qed.

Lemma Zdigits2_quot (a b : Z) :
  0 < a -> 0 < b ->
  Zdigits2 a - Zdigits2 b <= Zdigits2 (a / b)
  <= Z.max (Zdigits2 a - Zdigits2 b + 1) 0.
Proof.
  intros Ha Hb.
  destruct (Zdigits2_bounds a Ha) as [Hal Hau].
  destruct (Zdigits2_bounds b Hb) as [Hbl Hbu].
  pose proof (Zdigits2_pos a Ha). pose proof (Zdigits2_pos b Hb).
  pose proof (Zdigits2_nonneg (a / b)).
  assert (0 <= a / b) by (apply Z.div_pos; lia).
  assert (0 < 2 ^ (Zdigits2 b - 1)) by (apply Z.pow_pos_nonneg; lia).
  split.
  - destruct (Z_le_gt_dec (Zdigits2 a - Zdigits2 b) 0) as [|Hgt]; [lia|].
    assert (2 ^ (Zdigits2 a - Zdigits2 b - 1) <= a / b) as Hq.
    { apply Z.div_le_lower_bound; [lia|].
      assert (0 < 2 ^ (Zdigits2 a - Zdigits2 b - 1)) by (apply Z.pow_pos_nonneg; lia).
      assert (2 ^ (Zdigits2 a - Zdigits2 b - 1) * 2 ^ Zdigits2 b = 2 ^ (Zdigits2 a - 1))
        by (rewrite <- Z.pow_add_r by lia; f_equal; lia).
      nia. }
    assert (0 < a / b)
      by (apply Z.lt_le_trans with (2 ^ (Zdigits2 a - Zdigits2 b - 1));
          [apply Z.pow_pos_nonneg; lia | assumption]).
    pose proof (Zdigits2_ge (a / b) _ ltac:(lia) Hq). lia.
  - destruct (Z_le_gt_dec 0 (Zdigits2 a - Zdigits2 b + 1)) as [Hge|Hlt].
    + rewrite Z.max_l by lia. apply Zdigits2_le; try lia.
      apply Z.div_lt_upper_bound; [lia|].
      assert (2 ^ (Zdigits2 b - 1) * 2 ^ (Zdigits2 a - Zdigits2 b + 1) = 2 ^ Zdigits2 a)
        by (rewrite <- Z.pow_add_r by lia; f_equal; lia).
      assert (0 < 2 ^ (Zdigits2 a - Zdigits2 b + 1)) by (apply Z.pow_pos_nonneg; lia).
      nia.
    + rewrite Z.div_small; [simpl; lia|]. split; [lia|].
      apply Z.lt_le_trans with (2 ^ Zdigits2 a); [assumption|].
      apply Z.le_trans with (2 ^ (Zdigits2 b - 1)); [|assumption].
      apply Z.pow_le_mono_r; lia.
Qed.

Lemma div_spec (sx sy : bool) (mx my : positive) (ex ey : Z) :
  valid (S754_finite sx mx ex) = true ->
  valid (S754_finite sy my ey) = true ->
  let s := xorb sx sy in
  let r := (S754_finite sx mx ex / S754_finite sy my ey)%js in
  r = S754_zero s
  \/ exists m e,
       r = (if e <=? 971 then S754_finite s m e else S754_infinity s)
       /\ Z.max (Zdigits2 (Zpos m) + e - 53) (-1074) = e
       /\ e <= Z.max (ex - ey - Zdigits2 (Zpos my) + 2) (-1073)
       /\ (inject_Z (Zpos m) * 2 ^ e * FloatOrder.mag (S754_finite sy my ey)
           <= FloatOrder.mag (S754_finite sx mx ex)
              + FloatOrder.mag (S754_finite sy my ey) * 2 ^ e)%Q.
Proof.
  intros Hx Hy s r. apply valid_digits in Hx, Hy.
  destruct (div_core_spec mx my ex ey) as (q & e' & l & Hcore & He' & Hq).
  unfold r, div. cbn [SFdiv]. rewrite Hcore. fold s.
  set (sh := ex - ey - e') in *.
  assert (0 <= sh) as Hsh by lia.
  assert (0 < 2 ^ sh) as Hpsh by (apply Z.pow_pos_nonneg; lia).
  assert (0 <= q) as Hq0 by (rewrite Hq; apply Z.div_pos; lia).
  pose proof (Zdigits2_quot (Zpos mx * 2 ^ sh) (Zpos my) ltac:(lia) ltac:(lia)) as Hdq.
  rewrite Zdigits2_mul_pow, <- Hq in Hdq by lia.
  assert (q * Zpos my <= Zpos mx * 2 ^ sh) as Hqm
    by (rewrite Hq, Z.mul_comm; apply Z.mul_div_le; lia).
  destruct (binary_round_aux_spec s q e' l Hq0)
    as [Hr|(m & e & Hr & He & Hm & Hv & Hc)].
  - now left.
  - right. exists m, e. split; [exact Hr|]. split; [apply Hc; lia|]. split; [lia|].
    apply round_value in Hv; [|lia].
    rewrite Zle_Qle, !inject_Z_mult, inject_pow2 in Hqm by lia.
    simpl FloatOrder.mag.
    assert (2 ^ ex == 2 ^ sh * 2 ^ e' * 2 ^ ey)%Q as Hp
      by (rewrite <- !pow2_add; now replace (sh + e' + ey) with ex by (unfold sh; lia)).
    pose proof (pow2_pos e'). pose proof (pow2_pos ey). pose proof (pow2_pos e).
    pose proof (pow2_pos sh).
    assert (0 < inject_Z (Zpos my))%Q by (change 0%Q with (inject_Z 0); now rewrite <- Zlt_Qlt).
    rewrite Hp.
    apply Qle_trans with
      ((inject_Z q * 2 ^ e' + 2 ^ e) * (inject_Z (Zpos my) * 2 ^ ey))%Q.
    + apply Qmult_le_compat_r; [exact Hv | nra].
    + assert (inject_Z q * inject_Z (Zpos my) * (2 ^ e' * 2 ^ ey)
              <= inject_Z (Zpos mx) * 2 ^ sh * (2 ^ e' * 2 ^ ey))%Q
        by (apply Qmult_le_compat_r; [exact Hqm | nra]).
      lra.
Qed.

End Validity.

(** ** Normalisation of an integer mantissa *)

Section Normalize.
Import JS.

Lemma iter_xO (m d : positive) : Zpos (Pos.iter xO m d) = Zpos m * 2 ^ Zpos d.
Proof.
  induction d as [|d IH] using Pos.peano_ind.
  - simpl. lia.
  - rewrite Pos.iter_succ, Pos2Z.inj_xO, IH, Pos2Z.inj_succ, Z.pow_succ_r by lia. lia.
Qed.

Lemma shl_align_spec (m : positive) (e e' : Z) :
  snd (shl_align m e e') = Z.min e e'
  /\ Zpos (fst (shl_align m e e')) = Zpos m * 2 ^ (e - Z.min e e').
Proof.
  unfold shl_align. destruct (e' - e) as [|d|d] eqn:E; cbn [fst snd].
  - rewrite Z.min_l by lia. rewrite Z.sub_diag. simpl. lia.
  - rewrite Z.min_l by lia. rewrite Z.sub_diag. simpl. lia.
  - rewrite Z.min_r by lia. split; [reflexivity|].
    rewrite iter_xO. f_equal. f_equal. lia.
Qed.

(** [binary_round] on a mantissa of at most 53 digits at an exponent that
    binary64 has: the number is representable, and the result denotes it. *)
Lemma binary_round_exact (s : bool) (m : positive) (E : Z) :
  Zdigits2 (Zpos m) <= 53 -> -1074 <= E ->
  let e := Z.max (Zdigits2 (Zpos m) + E - 53) (-1074) in
  exists m',
    Zpos m' = Zpos m * 2 ^ (E - e)
    /\ e <= E
    /\ binary_round prec emax s m E
       = (if e <=? 971 then S754_finite s m' e else S754_infinity s).
Proof.
  intros Hd HE e. unfold binary_round. rewrite fexp_eq.
  change (Z.pos (digits2_pos m)) with (Zdigits2 (Zpos m)). fold e.
  destruct (shl_align_spec m E e) as [He' Hm'].
  destruct (shl_align m E e) as [m' e']. cbn [fst snd] in *.
  assert (e <= E) as Hle by (unfold e; lia).
  rewrite Z.min_r in He', Hm' by lia. subst e'.
  exists m'. split; [assumption|]. split; [assumption|].
  assert (Zdigits2 (Zpos m') + e = Zdigits2 (Zpos m) + E) as Hdm.
  { rewrite Hm', Zdigits2_mul_pow by lia. lia. }
  unfold binary_round_aux, shr_fexp. rewrite fexp_eq, Hdm. fold e.
  rewrite Z.sub_diag. cbn [shr shr_record_of_loc shr_m loc_of_shr_record
                         round_nearest_even shr_r shr_s].
  rewrite fexp_eq, Hdm. fold e. rewrite Z.sub_diag. cbn [shr shr_record_of_loc shr_m].
  reflexivity.
Qed.

(** [binary_round] in general. *)
Lemma binary_round_spec (s : bool) (m : positive) (E : Z) :
  let r := binary_round prec emax s m E in
  r = S754_zero s
  \/ exists m' e,
       r = (if e <=? 971 then S754_finite s m' e else S754_infinity s)
       /\ Z.max (Zdigits2 (Zpos m') + e - 53) (-1074) = e
       /\ e <= Z.max (Zdigits2 (Zpos m) + E - 52) (-1073).
Proof.
  intros r. unfold r, binary_round. rewrite fexp_eq.
  change (Z.pos (digits2_pos m)) with (Zdigits2 (Zpos m)).
  set (f := Z.max (Zdigits2 (Zpos m) + E - 53) (-1074)).
  destruct (shl_align_spec m E f) as [He' Hm'].
  destruct (shl_align m E f) as [mz ez]. cbn [fst snd] in *.
  assert (Zdigits2 (Zpos mz) + ez = Zdigits2 (Zpos m) + E) as Hdm.
  { rewrite Hm', Zdigits2_mul_pow by lia. lia. }
  destruct (binary_round_aux_spec s (Zpos mz) ez loc_Exact ltac:(lia))
    as [Hr|(m' & e & Hr & He & Hm & Hv & Hc)].
  - now left.
  - right. exists m', e. rewrite Hdm in *. fold f in He, Hc.
    split; [exact Hr|]. split; [apply Hc; lia|]. lia.
Qed.

Lemma rounded_facts (s : bool) (m : positive) (e bound : Z) :
  Z.max (Zdigits2 (Zpos m) + e - 53) (-1074) = e ->
  e <= Z.max (bound - 52) (-1073) ->
  let r := if e <=? 971 then S754_finite s m e else S754_infinity s in
  valid r = true /\ is_nan r = false /\ FloatOrder.sign r = s
  /\ (bound <= 1023 -> is_finite r = true)
  /\ FloatOrder.expo r <= Z.max (bound - 52) (-1073).
Proof.
  intros Hc He r. split; [now apply valid_rounded|]. unfold r.
  destruct (Z.leb_spec e 971); cbn [is_nan is_finite FloatOrder.sign FloatOrder.expo];
    repeat split; lia.
Qed.

Lemma binary_normalize_spec (S E : Z) (sz : bool) :
  let r := binary_normalize prec emax S E sz in
  valid r = true
  /\ is_nan r = false
  /\ (S = 0 -> r = S754_zero sz)
  /\ (S <> 0 -> FloatOrder.sign r = (S <? 0))
  /\ (Zdigits2 S + E <= 1023 -> is_finite r = true)
  /\ FloatOrder.expo r <= Z.max (Zdigits2 S + E - 52) (-1073).
Proof.
  intros r. unfold r, binary_normalize.
  destruct S as [|p|p].
  - cbn [FloatOrder.expo]. repeat split; try reflexivity; try congruence. lia.
  - destruct (binary_round_spec false p E) as [Hr|(m' & e & Hr & Hc & He)];
      cbv zeta in Hr; rewrite Hr.
    + cbn [FloatOrder.expo]. repeat split; try reflexivity; try discriminate; lia.
    + destruct (rounded_facts false m' e _ Hc He) as (H1 & H2 & H3 & H4 & H5).
      split; [exact H1|]. split; [exact H2|]. split; [discriminate|].
      split; [intros _; exact H3|]. split; [exact H4 | exact H5].
  - destruct (binary_round_spec true p E) as [Hr|(m' & e & Hr & Hc & He)];
      cbv zeta in Hr; rewrite Hr.
    + cbn [FloatOrder.expo]. repeat split; try reflexivity; try discriminate; lia.
    + destruct (rounded_facts true m' e _ Hc He) as (H1 & H2 & H3 & H4 & H5).
      split; [exact H1|]. split; [exact H2|]. split; [discriminate|].
      split; [intros _; exact H3|]. split; [exact H4 | exact H5].
Qed.

End Normalize.

(** ** Finite results *)

Section FiniteResults.
Import JS.

Lemma valid_finite_expo (x : number) :
  valid x = true -> is_finite x = true -> -1074 <= FloatOrder.expo x <= 971.
Proof.
  destruct x as [s|s| |s m e]; try discriminate; intros Hv _; simpl; [lia|].
  apply valid_digits in Hv. lia.
Qed.

Lemma mul_finite (x y : number) :
  valid x = true -> valid y = true ->
  is_finite x = true -> is_finite y = true ->
  FloatOrder.expo x + FloatOrder.expo y + 54 <= 971 ->
  let r := (x * y)%js in
  valid r = true /\ is_finite r = true
  /\ FloatOrder.expo r <= Z.max (FloatOrder.expo x + FloatOrder.expo y + 54) (-1073)
  /\ FloatOrder.sign r = xorb (FloatOrder.sign x) (FloatOrder.sign y).
Proof.
  intros Hx Hy Fx Fy He r.
  destruct x as [sx|sx| |sx mx ex]; try discriminate;
    destruct y as [sy|sy| |sy my ey]; try discriminate;
    try (unfold r; cbn; repeat split; lia).
  cbn [FloatOrder.expo FloatOrder.sign] in *.
  destruct (mul_spec sx sy mx my ex ey Hx Hy) as [Hr|(m & e & Hr & Hc & Hb & _)];
    cbv zeta in Hr; unfold r; rewrite Hr.
  - cbn. repeat split; lia.
  - replace (e <=? 971) with true by (symmetry; apply Z.leb_le; lia).
    cbn [is_finite FloatOrder.expo FloatOrder.sign].
    split; [apply valid_finite; lia|]. repeat split; lia.
Qed.

Lemma div_finite (x : number) (sy : bool) (my : positive) (ey : Z) :
  valid x = true -> valid (S754_finite sy my ey) = true ->
  is_finite x = true ->
  FloatOrder.expo x - ey - Zdigits2 (Zpos my) + 2 <= 971 ->
  let r := (x / S754_finite sy my ey)%js in
  valid r = true /\ is_finite r = true
  /\ FloatOrder.expo r <= Z.max (FloatOrder.expo x - ey - Zdigits2 (Zpos my) + 2) (-1073)
  /\ FloatOrder.sign r = xorb (FloatOrder.sign x) sy.
Proof.
  intros Hx Hy Fx He r.
  destruct x as [sx|sx| |sx mx ex]; try discriminate.
  - unfold r. cbn. repeat split; lia.
  - cbn [FloatOrder.expo FloatOrder.sign] in *.
    destruct (div_spec sx sy mx my ex ey Hx Hy) as [Hr|(m & e & Hr & Hc & Hb & _)];
      cbv zeta in Hr; unfold r; rewrite Hr.
    + cbn. repeat split; lia.
    + replace (e <=? 971) with true by (symmetry; apply Z.leb_le; lia).
      cbn [is_finite FloatOrder.expo FloatOrder.sign].
      split; [apply valid_finite; lia|]. repeat split; lia.
Qed.

(** A number of magnitude at most that of a positive finite number is
    finite and has at most its exponent. *)
Lemma leb_abs_expo (x : number) (m : positive) (e : Z) :
  leb (SFabs x) (S754_finite false m e) = true ->
  -1074 <= e ->
  is_finite x = true /\ FloatOrder.expo x <= e.
Proof.
  destruct x as [s|s| |s mx ex]; try discriminate; cbn; intros H He.
  - split; [reflexivity | lia].
  - split; [reflexivity|]. unfold leb, SFleb in H. cbn in H.
    destruct (Z.compare_spec ex e); first [lia | discriminate].
Qed.

Lemma of_Z_360 : of_Z 360 = S754_finite false 6333186975989760 (-44).
Proof. reflexivity. Qed.

Lemma of_Z_180 : of_Z 180 = S754_finite false 6333186975989760 (-45).
Proof. reflexivity. Qed.

Lemma of_Z_90 : of_Z 90 = S754_finite false 6333186975989760 (-46).
Proof. reflexivity. Qed.

Lemma of_Z_45 : of_Z 45 = S754_finite false 6333186975989760 (-47).
Proof. reflexivity. Qed.

Lemma of_Z_8 : of_Z 8 = S754_finite false 4503599627370496 (-49).
Proof. reflexivity. Qed.

Lemma of_Z_2 : of_Z 2 = S754_finite false 4503599627370496 (-51).
Proof. reflexivity. Qed.

Lemma of_Z_1 : of_Z 1 = S754_finite false 4503599627370496 (-52).
Proof. reflexivity. Qed.

End FiniteResults.

(** ** Degrees to radians *)

Section Radians.
Import JS.

Lemma mul_valid (x y : number) :
  valid x = true -> valid y = true -> valid (x * y)%js = true.
Proof.
  intros Hx Hy.
  destruct x as [sx|sx| |sx mx ex], y as [sy|sy| |sy my ey]; try reflexivity.
  destruct (mul_spec sx sy mx my ex ey Hx Hy) as [Hr|(m & e & Hr & Hc & _)];
    cbv zeta in Hr; rewrite Hr; [reflexivity | now apply valid_rounded].
Qed.

Lemma div_valid (x y : number) :
  valid x = true -> valid y = true -> valid (x / y)%js = true.
Proof.
  intros Hx Hy.
  destruct x as [sx|sx| |sx mx ex], y as [sy|sy| |sy my ey]; try reflexivity.
  destruct (div_spec sx sy mx my ex ey Hx Hy) as [Hr|(m & e & Hr & Hc & _)];
    cbv zeta in Hr; rewrite Hr; [reflexivity | now apply valid_rounded].
Qed.

Lemma sub_valid (x y : number) :
  valid x = true -> valid y = true -> valid (x - y)%js = true.
Proof.
  intros Hx Hy.
  destruct x as [sx|sx| |sx mx ex], y as [sy|sy| |sy my ey];
    try reflexivity; try assumption;
    try (destruct sx, sy; reflexivity).
  unfold sub. cbn [SFsub]. apply binary_normalize_spec.
Qed.

Lemma radians_valid (x : number) : valid x = true -> valid (Spec.radians x) = true.
Proof.
  intros Hv. unfold Spec.radians. apply div_valid; [|reflexivity].
  now apply mul_valid.
Qed.

(** The conversion to radians of a number that is not finite is not
    finite. *)
Lemma radians_not_finite (x : number) :
  is_finite (Spec.radians x) = true -> is_finite x = true.
Proof. destruct x as [s|[]| |s m e]; try reflexivity; discriminate. Qed.

(** It does not overflow up to 2^1000. *)
Lemma radians_big (x : number) :
  valid x = true -> leb (SFabs x) Spec.big = true ->
  is_finite (Spec.radians x) = true.
Proof.
  intros Hv Hle. unfold Spec.big in Hle.
  apply leb_abs_expo in Hle; [|lia]. destruct Hle as [Fx Ex].
  destruct (mul_finite x Math_PI Hv eq_refl Fx eq_refl) as (Hv1 & F1 & E1 & _).
  { cbn [FloatOrder.expo Math_PI]. lia. }
  cbn [FloatOrder.expo Math_PI] in E1.
  unfold Spec.radians. rewrite of_Z_180.
  destruct (div_finite (x * Math_PI)%js false 6333186975989760 (-45) Hv1 eq_refl F1)
    as (Hv2 & F2 & _).
  { change (Zdigits2 (Z.pos 6333186975989760)) with 53. lia. }
  exact F2.
Qed.

End Radians.

(** ** The distance from a point to itself *)

Section DistanceDiagonal.
Import JS.
Variable M : MathRuntime.
Hypothesis sin_zero : Spec.sin_zero M.

(** The haversine term of a zero difference is [+0]. *)
Lemma haversine_term_zero (x : number) :
  is_finite x = true ->
  let d := (((x - x) * Math_PI) / of_Z 180)%js in
  (Math_sin M (d / of_Z 2) * Math_sin M (d / of_Z 2))%js = zero.
Proof.
  intros Fx d. unfold d. rewrite (sub_diag x Fx).
  change (((zero * Math_PI) / of_Z 180) / of_Z 2)%js with zero.
  now rewrite sin_zero.
Qed.

Lemma mul_finite_zero (w : number) :
  is_finite w = true -> exists s, (w * zero)%js = S754_zero s.
Proof.
  destruct w as [s|s| |s m e]; try discriminate; intros _; cbn; eauto.
Qed.

End DistanceDiagonal.

Section DistanceDiagonalCases.
Import JS.
Variable M : MathRuntime.

(** The distance from a point to itself is zero when the conversion of
    its latitude to radians is finite and its longitude is finite. *)
Lemma calculateDistance_diagonal_finite (lat lng : number) :
  Spec.sin_zero M -> Spec.atan2_zero M -> Spec.unit_range (Math_cos M) ->
  valid lat = true -> is_finite (Spec.radians lat) = true -> is_finite lng = true ->
  PathNetwork.calculateDistance M lat lng lat lng = zero.
Proof.
  intros sin_zero atan2_zero cos_range Hv Fphi Flng.
  pose proof (radians_not_finite lat Fphi) as Flat.
  pose proof (radians_valid lat Hv) as Hvphi.
  destruct (cos_range _ Hvphi Fphi) as [Hvc Hc].
  rewrite of_Z_1 in Hc. apply leb_abs_expo in Hc; [|lia]. destruct Hc as [Fc Ec].
  destruct (mul_finite _ _ Hvc Hvc Fc Fc ltac:(lia)) as (_ & Fw & _).
  unfold PathNetwork.calculateDistance. cbv zeta.
  rewrite (haversine_term_zero M sin_zero lat Flat).
  fold (Spec.radians lat).
  set (c := Math_cos M (Spec.radians lat)) in *.
  assert (forall s, Math_sin M s = zero -> (zero + c * c * Math_sin M s * Math_sin M s)%js = zero)
    as Ha.
  { intros s ->. destruct (mul_finite_zero (c * c)%js Fw) as [sw ->].
    now destruct sw. }
  rewrite Ha.
  - change (Math_sqrt zero) with zero.
    change (Math_sqrt (of_Z 1 - zero)%js) with (of_Z 1).
    now rewrite atan2_zero.
  - rewrite (sub_diag lng Flng).
    change (((zero * Math_PI) / of_Z 180) / of_Z 2)%js with zero.
    exact sin_zero.
Qed.

Lemma sub_not_finite (x : number) : is_finite x = false -> (x - x)%js = NaN.
Proof. destruct x as [s|[]| |s m e]; try discriminate; reflexivity. Qed.

(** It is NaN in the other cases. *)
Lemma calculateDistance_diagonal_not_finite (lat lng : number) :
  Spec.sin_not_finite M -> Spec.cos_not_finite M -> Spec.atan2_nan M ->
  is_finite (Spec.radians lat) = false \/ is_finite lng = false ->
  PathNetwork.calculateDistance M lat lng lat lng = NaN.
Proof.
  intros Hsin Hcos Hatan H.
  assert (forall a, is_nan a = true ->
            (of_Z 6371000
             * (of_Z 2 * Math_atan2 M (Math_sqrt a) (Math_sqrt (of_Z 1 - a))))%js = NaN)
    as Hend.
  { intros a Ha. destruct a; try discriminate.
    change (Math_sqrt S754_nan) with NaN. now rewrite Hatan. }
  pose proof (Hsin NaN eq_refl) as Hsn.
  unfold PathNetwork.calculateDistance. cbv zeta. apply Hend.
  destruct (is_finite lat) eqn:Flat.
  - destruct H as [H|H].
    + fold (Spec.radians lat). rewrite (Hcos _ H).
      change (NaN * NaN)%js with NaN. change (NaN * ?x)%js with NaN.
      now rewrite add_nan_r.
    + rewrite (sub_not_finite lng H).
      change (((NaN * Math_PI) / of_Z 180) / of_Z 2)%js with NaN.
      now rewrite Hsn, !mul_nan_r, add_nan_r.
  - rewrite (sub_not_finite lat Flat).
    change (((NaN * Math_PI) / of_Z 180) / of_Z 2)%js with NaN.
    rewrite Hsn. reflexivity.
Qed.

End DistanceDiagonalCases.

(** The sample runtimes have the properties the theorems assume. *)
Section SampleRuntime.
Import JS.

Lemma sample_sin_odd : Spec.sin_odd Sample.runtime.
Proof.
  intros x. destruct x as [s|s| |s m e]; try reflexivity.
  unfold Sample.runtime, Math_sin, Sample.sin, neg, SFopp, SFabs.
  now destruct (leb (S754_finite false m e) Sample.one).
Qed.

Lemma sample_sin_zero : Spec.sin_zero Sample.runtime.
Proof. reflexivity. Qed.

Lemma sample_atan2_zero : Spec.atan2_zero Sample.runtime.
Proof. reflexivity. Qed.

Lemma sample_sin_range : Spec.unit_range (Math_sin Sample.runtime).
Proof.
  intros x Hv Fx. destruct x as [s|s| |s m e]; try discriminate.
  - split; reflexivity.
  - unfold Sample.runtime, Math_sin, Sample.sin, SFabs.
    destruct (leb (S754_finite false m e) Sample.one) eqn:E.
    + split; assumption.
    + split; reflexivity.
Qed.

Lemma sample_cos_range : Spec.unit_range (Math_cos Sample.runtime).
Proof.
  intros x Hv Fx. unfold Sample.runtime, Math_cos, Sample.cos. rewrite Fx.
  split; reflexivity.
Qed.

Lemma sample_atan2_range : Spec.atan2_range Sample.runtime.
Proof.
  intros y x Hy Hx Ny Nx. unfold Sample.runtime, Math_atan2, Sample.atan2.
  destruct y as [sy|sy| |sy my ey]; try discriminate;
    destruct x as [sx|sx| |sx mx ex]; try discriminate;
    unfold FloatOrder.sign; try (destruct sx); try (destruct sy);
    split; reflexivity.
Qed.

Lemma planar_sin_odd : Spec.sin_odd Sample.planar.
Proof. intros x. now destruct x. Qed.

Lemma planar_sin_zero : Spec.sin_zero Sample.planar.
Proof. reflexivity. Qed.

Lemma planar_atan2_zero : Spec.atan2_zero Sample.planar.
Proof. reflexivity. Qed.

Lemma planar_cos_range : Spec.unit_range (Math_cos Sample.planar).
Proof. exact sample_cos_range. Qed.

Lemma planar_sin_not_finite : Spec.sin_not_finite Sample.planar.
Proof. intros x H. cbn [Math_sin Sample.planar]. now rewrite H. Qed.

Lemma planar_cos_not_finite : Spec.cos_not_finite Sample.planar.
Proof. intros x H. cbn [Math_cos Sample.planar]. unfold Sample.cos. now rewrite H. Qed.

Lemma planar_atan2_nan : Spec.atan2_nan Sample.planar.
Proof.
  intros y x H. cbn [Math_atan2 Sample.planar].
  destruct y as [sy|sy| |sy my ey], x as [sx|sx| |sx mx ex]; try discriminate; reflexivity.
Qed.

Lemma sample_sin_not_finite : Spec.sin_not_finite Sample.runtime.
Proof. intros x H. destruct x; try discriminate; reflexivity. Qed.

Lemma sample_cos_not_finite : Spec.cos_not_finite Sample.runtime.
Proof. intros x H. cbn [Math_cos Sample.runtime]. unfold Sample.cos. now rewrite H. Qed.

Lemma sample_atan2_nan : Spec.atan2_nan Sample.runtime.
Proof.
  intros y x H. cbn [Math_atan2 Sample.runtime].
  destruct y as [sy|sy| |sy my ey], x as [sx|sx| |sx mx ex]; try discriminate; reflexivity.
Qed.

End SampleRuntime.

(** C7, as the code has it.  With a [Math.sin] that is odd, the distance
    from a to b and the distance from b to a are the same number, for all
    arguments.  With a [Math.cos] that stays between -1 and 1 and the values
    ECMAScript fixes for [Math.sin(+0)] and [Math.atan2(+0, 1)], the
    distance from a point to itself is 0 when its longitude is finite and
    the conversion of its latitude to radians is finite, which it is for
    every latitude up to 2^1000 in magnitude.  In the other cases (a
    coordinate that is NaN or infinite, a latitude whose conversion to
    radians overflows) the distance from a point to itself is NaN, given
    the values ECMAScript fixes for the three functions on NaN and on the
    infinities. *)
Theorem calculateDistance_symmetric_zero :
  forall M : JS.MathRuntime,
    (Spec.sin_odd M ->
     forall lat1 lng1 lat2 lng2,
       PathNetwork.calculateDistance M lat1 lng1 lat2 lng2
       = PathNetwork.calculateDistance M lat2 lng2 lat1 lng1)
    /\ (Spec.sin_zero M -> Spec.atan2_zero M -> Spec.unit_range (JS.Math_cos M) ->
        forall lat lng,
          JS.valid lat = true -> JS.is_finite (Spec.radians lat) = true ->
          JS.is_finite lng = true ->
          PathNetwork.calculateDistance M lat lng lat lng = JS.zero)
    /\ (forall lat,
          JS.valid lat = true -> JS.leb (SFabs lat) Spec.big = true ->
          JS.is_finite (Spec.radians lat) = true)
    /\ (Spec.sin_not_finite M -> Spec.cos_not_finite M -> Spec.atan2_nan M ->
        forall lat lng,
          JS.is_finite (Spec.radians lat) = false \/ JS.is_finite lng = false ->
          PathNetwork.calculateDistance M lat lng lat lng = JS.NaN).
Proof.
  intros M. split; [|split; [|split]].
  - intros Hodd lat1 lng1 lat2 lng2. symmetry. now apply calculateDistance_swap.
  - intros Hs0 Ha0 Hcos lat lng. now apply calculateDistance_diagonal_finite.
  - exact radians_big.
  - intros Hsin Hcos Hatan lat lng. now apply calculateDistance_diagonal_not_finite.
Qed.

(** In the second sample runtime the library and the canteen are at the
    same distance, which is not zero, in both directions; the distance
    from the library to itself is zero, and the distance from a point of
    latitude 2^1023 to itself is NaN. *)
Lemma calculateDistance_symmetric_zero_witness :
  PathNetwork.calculateDistance Sample.planar
    (CampusData.lat Sample.library) (CampusData.lng Sample.library)
    (CampusData.lat Sample.canteen) (CampusData.lng Sample.canteen)
  = PathNetwork.calculateDistance Sample.planar
      (CampusData.lat Sample.canteen) (CampusData.lng Sample.canteen)
      (CampusData.lat Sample.library) (CampusData.lng Sample.library)
  /\ JS.ltb JS.zero
       (PathNetwork.calculateDistance Sample.planar
          (CampusData.lat Sample.library) (CampusData.lng Sample.library)
          (CampusData.lat Sample.canteen) (CampusData.lng Sample.canteen)) = true
  /\ PathNetwork.calculateDistance Sample.planar
       (CampusData.lat Sample.library) (CampusData.lng Sample.library)
       (CampusData.lat Sample.library) (CampusData.lng Sample.library)
     = JS.zero
  /\ PathNetwork.calculateDistance Sample.planar
       (S754_finite false 0x10000000000000 971) (JS.of_Z 0)
       (S754_finite false 0x10000000000000 971) (JS.of_Z 0)
     = JS.NaN.
Proof.
  destruct (calculateDistance_symmetric_zero Sample.planar)
    as (Hsym & Hzero & Hbig & Hnan).
  split; [apply (Hsym planar_sin_odd)|]. split; [vm_compute; reflexivity|]. split.
  - apply (Hzero planar_sin_zero planar_atan2_zero planar_cos_range);
      [reflexivity | apply Hbig; reflexivity | reflexivity].
  - apply (Hnan planar_sin_not_finite planar_cos_not_finite planar_atan2_nan).
    left. vm_compute. reflexivity.
Defined.

(** C7 as stated fails: the distance from a point to itself is NaN, not 0,
    when its latitude is NaN, and also when its latitude is the finite
    number 2^1023, whose conversion to radians overflows. *)
Lemma calculateDistance_diagonal_nan :
  PathNetwork.calculateDistance Sample.runtime JS.NaN (JS.of_Z 0) JS.NaN (JS.of_Z 0)
  = JS.NaN
  /\ PathNetwork.calculateDistance Sample.runtime
       (S754_finite false 0x10000000000000 971) (JS.of_Z 0)
       (S754_finite false 0x10000000000000 971) (JS.of_Z 0)
     = JS.NaN.
Proof. split; vm_compute; reflexivity. Qed.

(** ** Integers among the numbers *)

Section Integers.
Import JS.

Lemma Qfloor_unique (x : Q) (n : Z) :
  (inject_Z n <= x)%Q -> (x < inject_Z (n + 1))%Q -> Qfloor x = n.
Proof.
  intros Hl Hu.
  pose proof (Qfloor_le x) as H1. pose proof (Qlt_floor x) as H2.
  assert (inject_Z n < inject_Z (Qfloor x + 1))%Q as H3 by lra.
  assert (inject_Z (Qfloor x) < inject_Z (n + 1))%Q as H4 by lra.
  rewrite <- Zlt_Qlt in H3, H4. lia.
Qed.

Lemma pow2_neg (e : Z) : e <= 0 -> (2 ^ e == / inject_Z (2 ^ (- e)))%Q.
Proof.
  intros H. rewrite inject_pow2 by lia. rewrite <- Qpower_opp.
  now replace (- - e) with e by lia.
Qed.

(** A mantissa that is a multiple of [2 ^ (- e)] denotes an integer. *)
Lemma to_integer_multiple (s : bool) (m : positive) (e k : Z) :
  e <= 0 -> Zpos m = k * 2 ^ (- e) ->
  to_integer (S754_finite s m e) = Some (cond_Zopp s k).
Proof.
  intros He Hm. unfold to_integer.
  assert (0 < 2 ^ (- e)) by (apply Z.pow_pos_nonneg; lia).
  destruct (Z.leb_spec 0 e).
  - replace e with 0 in * by lia. simpl in Hm. f_equal. f_equal. simpl. lia.
  - rewrite Hm, Z.mod_mul, Z.eqb_refl, Z.div_mul by lia. reflexivity.
Qed.

Lemma nonneg_cases (x : number) :
  is_finite x = true -> leb zero x = true ->
  (exists s, x = S754_zero s) \/ (exists m e, x = S754_finite false m e).
Proof.
  destruct x as [s|s| |[] m e]; try discriminate; intros _ H; eauto.
Qed.

(** [Math.round] on a number that is not negative: the result denotes the
    nearest integer. *)
Lemma Math_round_nonneg (m : positive) (e : Z) :
  valid (S754_finite false m e) = true ->
  let R := Math_round (S754_finite false m e) in
  let N := Spec.nearest_integer (S754_finite false m e) in
  0 <= N /\ valid R = true /\ to_integer R = Some N
  /\ ((exists s, R = S754_zero s) \/ (exists m' e', R = S754_finite false m' e')).
Proof.
  intros Hv R N. pose proof (valid_digits _ _ _ Hv) as (Hd & He & _).
  unfold N, Spec.nearest_integer, FloatOrder.value, FloatOrder.mag.
  unfold R, Math_round.
  destruct (Z.leb_spec 0 e) as [Hpos|Hneg].
  - assert (0 < 2 ^ e) by (apply Z.pow_pos_nonneg; lia).
    assert (Qfloor (inject_Z (Z.pos m) * 2 ^ e + (1 # 2)) = Zpos m * 2 ^ e) as ->.
    { apply Qfloor_unique; rewrite ?inject_Z_plus, inject_Z_mult, inject_pow2 by lia;
        change (inject_Z 1) with 1%Q; lra. }
    split; [nia|]. split; [assumption|]. split.
    + unfold to_integer. now replace (0 <=? e) with true by (symmetry; apply Z.leb_le; lia).
    + right. eauto.
  - set (p := 2 ^ (- e)).
    assert (0 < p) as Hp by (apply Z.pow_pos_nonneg; lia).
    assert (2 ^ (1 - e) = 2 * p) as ->
      by (unfold p; replace (1 - e) with (1 + - e) by lia; rewrite Z.pow_add_r by lia;
          reflexivity).
    unfold cond_Zopp.
    set (K := (2 * Z.pos m + p) / (2 * p)).
    assert (Qfloor (inject_Z (Z.pos m) * 2 ^ e + (1 # 2)) = K) as ->.
    { unfold K. rewrite Zdiv_Qdiv. apply Qfloor_comp.
      rewrite (pow2_neg e) by lia. fold p.
      rewrite inject_Z_plus, !inject_Z_mult.
      assert (~ inject_Z p == 0)%Q
        by (change 0%Q with (inject_Z 0); rewrite inject_Z_injective; lia).
      field. assumption. }
    assert (0 <= K) as HK0 by (apply Z.div_pos; lia).
    assert (K < 2 ^ 53) as HK.
    { apply Z.div_lt_upper_bound; [lia|].
      destruct (Zdigits2_bounds (Zpos m) ltac:(lia)) as [_ Hu].
      assert (2 ^ Zdigits2 (Z.pos m) <= 2 ^ 53) by (apply Z.pow_le_mono_r; lia).
      assert (2 <= p) by (unfold p; change 2 with (2 ^ 1) at 1; apply Z.pow_le_mono_r; lia).
      nia. }
    split; [assumption|].
    destruct K as [|k|k] eqn:EK; try lia.
    + cbn [binary_normalize]. split; [reflexivity|]. split; [reflexivity|]. left. eauto.
    + cbn [binary_normalize].
      pose proof (Zdigits2_le (Zpos k) 53 ltac:(lia) ltac:(lia) HK) as Hdk.
      pose proof (Zdigits2_pos (Zpos k) ltac:(lia)) as Hdk0.
      destruct (binary_round_exact false k 0 Hdk ltac:(lia)) as (m' & Hm' & Hle & ->).
      set (f := Z.max (Zdigits2 (Z.pos k) + 0 - 53) (-1074)) in *.
      replace (f <=? 971) with true by (symmetry; apply Z.leb_le; lia).
      split; [|split].
      * apply valid_finite. rewrite Hm', Zdigits2_mul_pow by lia. lia.
      * apply (to_integer_multiple false m' f (Zpos k)); [lia|].
        now replace (- f) with (0 - f) by lia.
      * right. eauto.
Qed.

Lemma to_integer_finite (m : positive) (e N : Z) :
  to_integer (S754_finite false m e) = Some N ->
  (0 <= e /\ N = Zpos m * 2 ^ e)
  \/ (e < 0 /\ 0 <= N /\ Zpos m = N * 2 ^ (- e)).
Proof.
  unfold to_integer. destruct (Z.leb_spec 0 e) as [H|H].
  - intros [= <-]. left. split; [assumption | reflexivity].
  - assert (0 < 2 ^ (- e)) by (apply Z.pow_pos_nonneg; lia).
    destruct (Z.eqb_spec (Z.pos m mod 2 ^ (- e)) 0) as [Hmod|]; [|discriminate].
    intros [= <-]. right. split; [assumption|].
    change (cond_Zopp false (Z.pos m / 2 ^ (- e))) with (Z.pos m / 2 ^ (- e)).
    split; [apply Z.div_pos; lia|].
    pose proof (Z.div_mod (Zpos m) (2 ^ (- e)) ltac:(lia)) as Hdm.
    rewrite Hmod, Z.add_0_r in Hdm. lia.
Qed.

(** The remainder modulo 8 of a number that denotes an integer [N >= 0]
    denotes [N mod 8]. *)
Lemma rem_8_integer (m : positive) (e N : Z) :
  valid (S754_finite false m e) = true ->
  to_integer (S754_finite false m e) = Some N ->
  to_integer (S754_finite false m e mod of_Z 8)%js = Some (N mod 8).
Proof.
  intros Hv HN. pose proof (valid_digits _ _ _ Hv) as (Hd & He & _).
  rewrite of_Z_8. unfold rem.
  set (ez := Z.min e (-49)).
  destruct (shl_align_spec m e ez) as [_ HX].
  destruct (shl_align_spec 4503599627370496 (-49) ez) as [_ HD].
  rewrite Z.min_r in HX by lia. rewrite Z.min_r in HD by lia.
  rewrite HX, HD. clear HX HD.
  assert (0 < 2 ^ (- ez)) as Hpz by (apply Z.pow_pos_nonneg; lia).
  assert (Z.pos 4503599627370496 * 2 ^ (-49 - ez) = 8 * 2 ^ (- ez)) as ->.
  { change (Z.pos 4503599627370496) with (2 ^ 52). rewrite <- Z.pow_add_r by lia.
    change 8 with (2 ^ 3). rewrite <- Z.pow_add_r by lia. f_equal; lia. }
  assert (0 <= N /\ Z.pos m * 2 ^ (e - ez) = N * 2 ^ (- ez)) as [HN0 HmN].
  { destruct (to_integer_finite m e N HN) as [[H0 ->]|[H0 [HN0 Hm]]].
    - assert (0 < 2 ^ e) by (apply Z.pow_pos_nonneg; lia).
      split; [apply Z.mul_nonneg_nonneg; lia|].
      rewrite <- Z.mul_assoc, <- Z.pow_add_r by lia.
      do 2 f_equal; lia.
    - split; [assumption|]. rewrite Hm, <- Z.mul_assoc, <- Z.pow_add_r by lia.
      do 2 f_equal; lia. }
  rewrite HmN. unfold cond_Zopp.
  rewrite Z.rem_mod_nonneg by nia.
  rewrite Z.mul_mod_distr_r by lia.
  pose proof (Z.mod_pos_bound N 8 ltac:(lia)) as Hk.
  set (k := N mod 8) in *.
  assert (k * 2 ^ (- ez) < 2 ^ 53) as Hsmall.
  { destruct (Z_le_gt_dec e (-49)).
    - assert (ez = e) as Hez by (unfold ez; lia).
      rewrite Hez, Z.sub_diag, Z.mul_1_r in HmN.
      destruct (Zdigits2_bounds (Zpos m) ltac:(lia)) as [_ Hu].
      assert (2 ^ Zdigits2 (Z.pos m) <= 2 ^ 53) by (apply Z.pow_le_mono_r; lia).
      pose proof (Z.mod_le N 8 HN0 ltac:(lia)). fold k in H0. rewrite Hez in *. nia.
    - assert (ez = -49) as Hez by (unfold ez; lia). rewrite Hez.
      change (2 ^ (- -49)) with (2 ^ 49). change (2 ^ 53) with (16 * 2 ^ 49). lia. }
  destruct (k * 2 ^ (- ez)) as [|r|r] eqn:Er; try nia.
  - cbn [binary_normalize to_integer]. f_equal. nia.
  - cbn [binary_normalize].
    pose proof (Zdigits2_le (Zpos r) 53 ltac:(lia) ltac:(lia) Hsmall) as Hdr.
    destruct (binary_round_exact false r ez Hdr ltac:(lia)) as (m' & Hm' & Hle & ->).
    set (f := Z.max (Zdigits2 (Z.pos r) + ez - 53) (-1074)) in *.
    replace (f <=? 971) with true by (symmetry; apply Z.leb_le; lia).
    apply (to_integer_multiple false m' f k); [lia|].
    rewrite Hm', <- Er, <- Z.mul_assoc, <- Z.pow_add_r by lia.
    do 2 f_equal; lia.
Qed.

End Integers.

(** ** Order and magnitude *)

Section OrderMagnitude.
Import JS.

Lemma mantissa_bounds (s : bool) (m : positive) (e : Z) :
  valid (S754_finite s m e) = true ->
  (inject_Z (Zpos m) < 2 ^ 53)%Q
  /\ (-1074 < e -> (2 ^ 52 <= inject_Z (Zpos m))%Q).
Proof.
  intros Hv. apply valid_digits in Hv. destruct Hv as (Hd & He & Hn).
  destruct (Zdigits2_bounds (Zpos m) ltac:(lia)) as [Hl Hu].
  split.
  - assert (2 ^ Zdigits2 (Z.pos m) <= 2 ^ 53)%Z by (apply Z.pow_le_mono_r; lia).
    rewrite <- (inject_pow2 53) by lia. rewrite <- Zlt_Qlt. lia.
  - intros H. destruct Hn as [Hn|]; [|lia]. rewrite Hn in Hl.
    rewrite <- (inject_pow2 52) by lia. now rewrite <- Zle_Qle.
Qed.

(** Between binary64 numbers, the order of the magnitudes is the order of
    the numbers. *)
Lemma leb_mag (x : number) (m : positive) (e : Z) :
  valid x = true -> valid (S754_finite false m e) = true ->
  leb (SFabs x) (S754_finite false m e) = true ->
  (FloatOrder.mag x <= FloatOrder.mag (S754_finite false m e))%Q.
Proof.
  intros Hx Hy H. pose proof (pow2_pos e) as Hpe.
  pose proof (mantissa_bounds _ _ _ Hy) as [Hyu Hyl].
  assert (0 <= FloatOrder.mag (S754_finite false m e))%Q as Hpos.
  { unfold FloatOrder.mag.
    assert (0 < inject_Z (Zpos m))%Q by (change 0%Q with (inject_Z 0); now rewrite <- Zlt_Qlt).
    nra. }
  destruct x as [s|s| |s mx ex]; try discriminate; try exact Hpos.
  pose proof (mantissa_bounds _ _ _ Hx) as [Hxu _].
  pose proof (pow2_pos ex) as Hpx.
  unfold leb, SFleb in H. cbn [SFabs SFcompare] in H. unfold FloatOrder.mag.
  destruct (Z.compare_spec ex e) as [->|Hlt|Hgt]; try discriminate.
  - change (PosDef.Pos.compare_cont Eq mx m) with (Pos.compare mx m) in H.
    assert (Zpos mx <= Zpos m)%Z as Hm
      by (destruct (Pos.compare_spec mx m); try discriminate; lia).
    rewrite Zle_Qle in Hm. nra.
  - apply valid_digits in Hx. specialize (Hyl ltac:(lia)).
    assert (2 ^ e == 2 * 2 ^ (e - 1))%Q as Hp
      by (rewrite <- (pow2_add 1 (e - 1)); now replace (1 + (e - 1)) with e by lia).
    pose proof (pow2_le ex (e - 1) ltac:(lia)). pose proof (pow2_pos (e - 1)).
    change (2 ^ 53)%Q with (2 * 2 ^ 52)%Q in Hxu.
    assert (0 < inject_Z (Zpos mx))%Q by (change 0%Q with (inject_Z 0); now rewrite <- Zlt_Qlt).
    rewrite Hp. nra.
Qed.

Lemma ltb_of_mag (mx my : positive) (ex ey : Z) :
  valid (S754_finite false mx ex) = true ->
  valid (S754_finite false my ey) = true ->
  (FloatOrder.mag (S754_finite false mx ex) < FloatOrder.mag (S754_finite false my ey))%Q ->
  ltb (S754_finite false mx ex) (S754_finite false my ey) = true.
Proof.
  intros Hx Hy H. unfold FloatOrder.mag in H.
  pose proof (mantissa_bounds _ _ _ Hx) as [Hxu Hxl].
  pose proof (mantissa_bounds _ _ _ Hy) as [Hyu Hyl].
  pose proof (pow2_pos ex) as Hpx. pose proof (pow2_pos ey) as Hpy.
  unfold ltb, SFltb. cbn [SFcompare].
  destruct (Z.compare_spec ex ey) as [->|Hlt|Hgt]; try reflexivity.
  - change (PosDef.Pos.compare_cont Eq mx my) with (Pos.compare mx my).
    assert (Zpos mx < Zpos my)%Z as Hm.
    { rewrite Zlt_Qlt. nra. }
    now rewrite (proj2 (Pos.compare_lt_iff mx my) Hm).
  - exfalso. pose proof (valid_digits _ _ _ Hy) as (_ & He & _).
    specialize (Hxl ltac:(lia)).
    assert (2 ^ ex == 2 * 2 ^ (ex - 1))%Q as Hp
      by (rewrite <- (pow2_add 1 (ex - 1)); now replace (1 + (ex - 1)) with ex by lia).
    pose proof (pow2_le ey (ex - 1) ltac:(lia)). pose proof (pow2_pos (ex - 1)).
    change (2 ^ 53)%Q with (2 * 2 ^ 52)%Q in Hyu.
    assert (0 < inject_Z (Zpos my))%Q by (change 0%Q with (inject_Z 0); now rewrite <- Zlt_Qlt).
    rewrite Hp in H. nra.
Qed.

End OrderMagnitude.

(** ** The compass direction of a bearing *)

Section Direction.
Import JS.

Lemma array_get_integer {A : Type} (a : list A) (i : number) (k : Z) :
  to_integer i = Some k -> 0 <= k < Z.of_nat (List.length a) ->
  array_get a i = nth_error a (Z.to_nat k).
Proof.
  intros Hi Hk. unfold array_get. rewrite Hi.
  replace (0 <=? k) with true by (symmetry; apply Z.leb_le; lia).
  now replace (k <? Z.of_nat (List.length a)) with true by (symmetry; apply Z.ltb_lt; lia).
Qed.

Lemma bearingToDirection_index (bearing : number) :
  valid bearing = true -> is_finite bearing = true -> leb zero bearing = true ->
  PathNetwork.bearingToDirection bearing
  = nth_error PathNetwork.directions (Z.to_nat (Spec.direction_index bearing)).
Proof.
  intros Hv Hf Hpos.
  unfold PathNetwork.bearingToDirection, Spec.direction_index.
  destruct (nonneg_cases bearing Hf Hpos) as [[s ->]|(m & e & ->)].
  - now destruct s.
  - rewrite of_Z_45.
    destruct (div_finite (S754_finite false m e) false 6333186975989760 (-47)
                Hv eq_refl eq_refl) as (Hvq & Fq & _ & Sq).
    { apply valid_digits in Hv. change (Zdigits2 (Z.pos 6333186975989760)) with 53.
      cbn [FloatOrder.expo]. lia. }
    set (q := (S754_finite false m e / S754_finite false 6333186975989760 (-47))%js) in *.
    cbn [FloatOrder.sign xorb] in Sq.
    destruct q as [sq|sq| |sq mq eq]; try discriminate.
    + cbn [FloatOrder.sign] in Sq. subst sq. reflexivity.
    + cbn [FloatOrder.sign] in Sq. subst sq.
      destruct (Math_round_nonneg mq eq Hvq) as (HN0 & HvR & HR & Hshape).
      set (R := Math_round (S754_finite false mq eq)) in *.
      set (N := Spec.nearest_integer (S754_finite false mq eq)) in *.
      pose proof (Z.mod_pos_bound N 8 ltac:(lia)) as Hk.
      apply array_get_integer; [|exact Hk].
      destruct Hshape as [[s HRz]|(mR & eR & HRf)].
      * rewrite HRz in *. cbn [to_integer] in HR. injection HR as <-.
        now destruct s.
      * rewrite HRf in *. now apply rem_8_integer.
Qed.

End Direction.

(** Negative bearings. *)
Section NegativeBearings.
Import JS.

Lemma to_integer_neg (x : number) :
  to_integer (neg x) = option_map Z.opp (to_integer x).
Proof.
  destruct x as [s|s| |s m e]; try reflexivity.
  cbn [neg SFopp to_integer].
  destruct (0 <=? e).
  - destruct s; unfold option_map, cond_Zopp, negb; now rewrite ?Z.opp_involutive.
  - destruct (Z.pos m mod 2 ^ (- e) =? 0); [|reflexivity].
    destruct s; unfold option_map, cond_Zopp, negb; now rewrite ?Z.opp_involutive.
Qed.

(** The remainder has the sign of the dividend. *)
Lemma rem_neg (m : positive) (e : Z) (sd : bool) (md : positive) (ed : Z) :
  (S754_finite true m e mod S754_finite sd md ed)%js
  = neg (S754_finite false m e mod S754_finite sd md ed)%js.
Proof.
  unfold rem. cbn [cond_Zopp].
  set (r := Z.rem _ _).
  assert (0 <= r) as Hr by (apply Z.rem_nonneg; lia).
  destruct r as [|p|p]; try lia; [reflexivity|].
  cbn [Z.opp binary_normalize]. exact (binary_round_opp false p (Z.min e ed)).
Qed.

(** [Math.round] on a negative number: the result denotes the nearest
    integer, ties upwards, and is a negative zero or a negative number. *)
Lemma Math_round_negative (m : positive) (e : Z) :
  valid (S754_finite true m e) = true ->
  let R := Math_round (S754_finite true m e) in
  let N := Spec.nearest_integer (S754_finite true m e) in
  N <= 0 /\ valid R = true /\ to_integer R = Some N
  /\ (R = S754_zero true \/ exists m' e', R = S754_finite true m' e').
Proof.
  intros Hv R N. pose proof (valid_digits _ _ _ Hv) as (Hd & He & _).
  unfold N, Spec.nearest_integer, FloatOrder.value, FloatOrder.mag.
  unfold R, Math_round.
  destruct (Z.leb_spec 0 e) as [Hpos|Hneg].
  - assert (0 < 2 ^ e) by (apply Z.pow_pos_nonneg; lia).
    assert (Qfloor (- (inject_Z (Z.pos m) * 2 ^ e) + (1 # 2)) = - (Zpos m * 2 ^ e)) as ->.
    { apply Qfloor_unique;
        rewrite ?inject_Z_plus, ?inject_Z_opp, inject_Z_mult, inject_pow2 by lia;
        change (inject_Z 1) with 1%Q; lra. }
    split; [nia|]. split; [assumption|]. split.
    + unfold to_integer. now replace (0 <=? e) with true by (symmetry; apply Z.leb_le; lia).
    + right. eauto.
  - set (p := 2 ^ (- e)).
    assert (0 < p) as Hp by (apply Z.pow_pos_nonneg; lia).
    assert (2 ^ (1 - e) = 2 * p) as ->
      by (unfold p; replace (1 - e) with (1 + - e) by lia; rewrite Z.pow_add_r by lia;
          reflexivity).
    unfold cond_Zopp.
    set (K := (- (2 * Z.pos m) + p) / (2 * p)).
    assert (Qfloor (- (inject_Z (Z.pos m) * 2 ^ e) + (1 # 2)) = K) as ->.
    { unfold K. rewrite Zdiv_Qdiv. apply Qfloor_comp.
      rewrite (pow2_neg e) by lia. fold p.
      rewrite inject_Z_plus, inject_Z_opp, !inject_Z_mult.
      assert (~ inject_Z p == 0)%Q
        by (change 0%Q with (inject_Z 0); rewrite inject_Z_injective; lia).
      field. assumption. }
    assert (K <= 0) as HK0.
    { assert (K < 1); [|lia]. apply Z.div_lt_upper_bound; lia. }
    assert (- 2 ^ 53 < K) as HK.
    { assert (- 2 ^ 52 <= K); [|lia]. apply Z.div_le_lower_bound; [lia|].
      destruct (Zdigits2_bounds (Zpos m) ltac:(lia)) as [_ Hu].
      assert (2 ^ Zdigits2 (Z.pos m) <= 2 ^ 53) by (apply Z.pow_le_mono_r; lia).
      assert (2 <= p) by (unfold p; change 2 with (2 ^ 1) at 1; apply Z.pow_le_mono_r; lia).
      change (2 ^ 53) with (2 * 2 ^ 52) in *. nia. }
    split; [assumption|].
    destruct K as [|k|k] eqn:EK; try lia.
    + cbn [binary_normalize]. split; [reflexivity|]. split; [reflexivity|]. now left.
    + cbn [binary_normalize].
      assert (Zpos k < 2 ^ 53) as Hk by lia.
      pose proof (Zdigits2_le (Zpos k) 53 ltac:(lia) ltac:(lia) Hk) as Hdk.
      pose proof (Zdigits2_pos (Zpos k) ltac:(lia)) as Hdk0.
      destruct (binary_round_exact true k 0 Hdk ltac:(lia)) as (m' & Hm' & Hle & ->).
      set (f := Z.max (Zdigits2 (Z.pos k) + 0 - 53) (-1074)) in *.
      replace (f <=? 971) with true by (symmetry; apply Z.leb_le; lia).
      split; [|split].
      * apply valid_finite. rewrite Hm', Zdigits2_mul_pow by lia. lia.
      * apply (to_integer_multiple true m' f (Zpos k)); [lia|].
        now replace (- f) with (0 - f) by lia.
      * right. eauto.
Qed.

Lemma array_get_negative {A : Type} (a : list A) (i : number) (k : Z) :
  to_integer i = Some k -> k < 0 -> array_get a i = None.
Proof.
  intros Hi Hk. unfold array_get. rewrite Hi.
  now replace (0 <=? k) with false by (symmetry; apply Z.leb_gt; lia).
Qed.

Lemma nearest_integer_zero (s : bool) : Spec.nearest_integer (S754_zero s) = 0.
Proof. reflexivity. Qed.

(** The direction of a negative bearing: north when [bearing / 45] rounds
    to a multiple of 8, none otherwise. *)
Lemma bearingToDirection_negative (m : positive) (e : Z) :
  valid (S754_finite true m e) = true ->
  let N := Spec.nearest_integer (S754_finite true m e / of_Z 45)%js in
  N <= 0
  /\ PathNetwork.bearingToDirection (S754_finite true m e)
     = if N mod 8 =? 0 then Some "north"%string else None.
Proof.
  intros Hv N. unfold N, PathNetwork.bearingToDirection. rewrite of_Z_45.
  destruct (div_finite (S754_finite true m e) false 6333186975989760 (-47)
              Hv eq_refl eq_refl) as (Hvq & Fq & _ & Sq).
  { apply valid_digits in Hv. change (Zdigits2 (Z.pos 6333186975989760)) with 53.
    cbn [FloatOrder.expo]. lia. }
  set (q := (S754_finite true m e / S754_finite false 6333186975989760 (-47))%js) in *.
  cbn [FloatOrder.sign xorb] in Sq.
  destruct q as [sq|sq| |sq mq eq]; try discriminate.
  - cbn [FloatOrder.sign] in Sq. subst sq. split; [rewrite nearest_integer_zero; lia|].
    reflexivity.
  - cbn [FloatOrder.sign] in Sq. subst sq.
    destruct (Math_round_negative mq eq Hvq) as (HN0 & HvR & HR & Hshape).
    set (R := Math_round (S754_finite true mq eq)) in *.
    set (K := Spec.nearest_integer (S754_finite true mq eq)) in *.
    split; [exact HN0|].
    destruct Hshape as [HRz|(mR & eR & HRf)].
    + rewrite HRz in *. cbn [to_integer] in HR. injection HR as <-. reflexivity.
    + rewrite HRf in *.
      assert (valid (S754_finite false mR eR) = true) as HvP
        by (apply valid_finite; now apply (valid_finite true)).
      assert (to_integer (S754_finite false mR eR) = Some (- K)) as HP.
      { change (S754_finite false mR eR) with (neg (S754_finite true mR eR)).
        now rewrite to_integer_neg, HR. }
      pose proof (rem_8_integer mR eR (- K) HvP HP) as Hrem.
      assert (to_integer (S754_finite true mR eR mod of_Z 8)%js
              = Some (- ((- K) mod 8))) as Hk.
      { rewrite of_Z_8, rem_neg, to_integer_neg. rewrite of_Z_8 in Hrem.
        now rewrite Hrem. }
      pose proof (Z.mod_pos_bound (- K) 8 ltac:(lia)) as Hb.
      destruct (Z.eqb_spec (K mod 8) 0) as [Hz|Hz].
      * assert ((- K) mod 8 = 0) as Hz' by (apply Z.mod_opp_l_z; [lia|exact Hz]).
        rewrite Hz' in Hk.
        now rewrite (array_get_integer PathNetwork.directions _ 0 Hk).
      * apply (array_get_negative PathNetwork.directions _ _ Hk).
        assert ((- K) mod 8 <> 0); [|lia].
        intros Hz'. apply Hz.
        replace K with (- - K) by lia. apply Z.mod_opp_l_z; [lia|exact Hz'].
Qed.

Lemma mag_45 : (FloatOrder.mag (S754_finite false 6333186975989760 (-47)) == 45)%Q.
Proof. reflexivity. Qed.

(** A quotient by 45 of a negative number above -22.5 is at least -1/2. *)
Lemma div_45_above_half (m : positive) (e : Z) :
  valid (S754_finite true m e) = true ->
  (FloatOrder.mag (S754_finite true m e) < 45 # 2)%Q ->
  (FloatOrder.mag (S754_finite true m e / of_Z 45)%js <= 1 # 2)%Q.
Proof.
  intros Hv Hlt. rewrite of_Z_45.
  destruct (div_spec true false m 6333186975989760 e (-47) Hv eq_refl)
    as [Hr|(mq & eq & Hr & Hc & _ & Hb)]; cbv zeta in Hr; rewrite Hr.
  - discriminate.
  - destruct (Z.leb_spec eq 971); [|discriminate].
    rewrite mag_45 in Hb. cbn [FloatOrder.mag xorb].
    set (T := FloatOrder.mag (S754_finite true m e)) in *.
    pose proof (pow2_pos eq) as Hpe.
    assert (inject_Z (Zpos mq - 1) * 2 ^ eq < 1 # 2)%Q as Hs.
    { unfold Z.sub. rewrite inject_Z_plus, inject_Z_opp.
      change (inject_Z 1) with 1%Q. nra. }
    assert (valid (S754_finite true mq eq) = true) as Hvq by (apply valid_finite; lia).
    pose proof (mantissa_bounds _ _ _ Hvq) as [_ Hlow].
    assert (eq <= -1) as Heq.
    { destruct (Z_le_gt_dec eq (-1)) as [|Hgt]; [assumption|]. exfalso.
      specialize (Hlow ltac:(lia)).
      pose proof (pow2_le 0 eq ltac:(lia)) as Hp0. change (2 ^ 0)%Q with 1%Q in Hp0.
      change (2 ^ 52)%Q with 4503599627370496%Q in Hlow.
      unfold Z.sub in Hs. rewrite inject_Z_plus, inject_Z_opp in Hs.
      change (inject_Z 1) with 1%Q in Hs. nra. }
    assert (2 ^ (-1) == 2 ^ (-1 - eq) * 2 ^ eq)%Q as Hsplit
      by (rewrite <- pow2_add; now replace (-1 - eq + eq) with (-1) by lia).
    change (2 ^ (-1))%Q with (1 # 2)%Q in Hsplit.
    pose proof (pow2_pos (-1 - eq)) as Hpk.
    assert (inject_Z (Zpos mq - 1) < 2 ^ (-1 - eq))%Q as Hs'.
    { rewrite Hsplit in Hs. nra. }
    rewrite <- inject_pow2 in Hs' by lia. rewrite <- Zlt_Qlt in Hs'.
    assert (Zpos mq <= 2 ^ (-1 - eq)) as Hle by lia.
    rewrite Zle_Qle, inject_pow2 in Hle by lia.
    rewrite Hsplit. nra.
Qed.

Lemma above_minus_half (x : number) :
  (FloatOrder.mag x <= 1 # 2)%Q -> 0 <= Spec.nearest_integer x.
Proof.
  intros H. unfold Spec.nearest_integer.
  change 0 with (Qfloor 0). apply Qfloor_resp_le.
  assert (0 <= FloatOrder.mag x)%Q as Hpos.
  { destruct x as [s|s| |s m e]; cbn [FloatOrder.mag]; try lra.
    pose proof (pow2_pos e).
    assert (0 < inject_Z (Zpos m))%Q by (change 0%Q with (inject_Z 0); now rewrite <- Zlt_Qlt).
    nra. }
  unfold FloatOrder.value. destruct x as [s|s| |[] m e]; lra.
Qed.

(** -22.5, the least bearing whose direction is north. *)
Lemma minus_22_5 :
  (of_Z (-45) / of_Z 2)%js = S754_finite true 6333186975989760 (-48).
Proof. vm_compute. reflexivity. Qed.

Lemma nearest_integer_above (bearing : number) :
  valid bearing = true -> is_finite bearing = true ->
  leb (of_Z (-45) / of_Z 2)%js bearing = true ->
  0 <= Spec.nearest_integer (bearing / of_Z 45)%js.
Proof.
  intros Hv Hf Hle. rewrite minus_22_5 in Hle.
  destruct bearing as [s|s| |[] m e]; try discriminate.
  - apply above_minus_half.
    apply leb_not_lt3 in Hle. destruct Hle as (_ & _ & Hle).
    cbn [FloatOrder.ord FloatOrder.lt3] in Hle.
    destruct (Z.eq_dec e (-48)) as [->|He].
    + destruct (Z.eq_dec (Zpos m) 6333186975989760) as [Hm|Hm].
      * injection Hm as ->. vm_compute. discriminate.
      * apply div_45_above_half; [exact Hv|]. cbn [FloatOrder.mag].
        assert (Zpos m < 6333186975989760) as Hlt by lia.
        rewrite Zlt_Qlt in Hlt.
        change (2 ^ (-48))%Q with (1 # 281474976710656)%Q.
        unfold Qlt in *. cbn in *. lia.
    + apply div_45_above_half; [exact Hv|]. cbn [FloatOrder.mag].
      pose proof (mantissa_bounds _ _ _ Hv) as [Hu _].
      pose proof (pow2_le e (-49) ltac:(lia)) as Hp. pose proof (pow2_pos e).
      change (2 ^ 53)%Q with 9007199254740992%Q in Hu.
      change (2 ^ (-49))%Q with (1 # 562949953421312)%Q in Hp.
      assert (0 < inject_Z (Zpos m))%Q by (change 0%Q with (inject_Z 0); now rewrite <- Zlt_Qlt).
      nra.
  - rewrite of_Z_45.
    destruct (div_finite (S754_finite false m e) false 6333186975989760 (-47)
                Hv eq_refl eq_refl) as (Hvq & Fq & _ & Sq).
    { apply valid_digits in Hv. change (Zdigits2 (Z.pos 6333186975989760)) with 53.
      cbn [FloatOrder.expo]. lia. }
    set (q := (S754_finite false m e / S754_finite false 6333186975989760 (-47))%js) in *.
    cbn [FloatOrder.sign xorb] in Sq.
    destruct q as [sq|sq| |sq mq eq]; try discriminate.
    cbn [FloatOrder.sign] in Sq. subst sq.
    now destruct (Math_round_nonneg mq eq Hvq) as (HN0 & _).
Qed.

End NegativeBearings.

(** C4, as the code has it: for a finite bearing, let N be [bearing / 45]
    rounded to the nearest integer (ties upwards).  When N is not negative,
    which is the case for every bearing from -22.5 on, or when N is a
    multiple of 8, [bearingToDirection] returns one of exactly the 8 labels
    north, northeast, east, southeast, south, southwest, west and
    northwest, the one of index N modulo 8.  Otherwise (N negative and not
    a multiple of 8) it returns [undefined]. *)
Theorem bearingToDirection_label :
  forall bearing : JS.number,
    JS.valid bearing = true -> JS.is_finite bearing = true ->
    let N := Spec.nearest_integer (bearing / JS.of_Z 45)%js in
    (JS.leb (JS.of_Z (-45) / JS.of_Z 2)%js bearing = true -> 0 <= N)
    /\ (0 <= N \/ N mod 8 = 0 ->
        0 <= Spec.direction_index bearing < 8
        /\ PathNetwork.bearingToDirection bearing
           = nth_error ["north"; "northeast"; "east"; "southeast";
                        "south"; "southwest"; "west"; "northwest"]%string
               (Z.to_nat (Spec.direction_index bearing))
        /\ exists label,
             PathNetwork.bearingToDirection bearing = Some label
             /\ In label PathNetwork.directions)
    /\ (N < 0 -> N mod 8 <> 0 -> PathNetwork.bearingToDirection bearing = None).
Proof.
  intros bearing Hv Hf N.
  split; [now apply nearest_integer_above|].
  assert (0 <= Spec.direction_index bearing < 8) as Hk
    by (apply Z.mod_pos_bound; lia).
  assert (PathNetwork.bearingToDirection bearing
          = nth_error PathNetwork.directions (Z.to_nat (Spec.direction_index bearing)) ->
          exists label,
            PathNetwork.bearingToDirection bearing = Some label
            /\ In label PathNetwork.directions) as Hlabel.
  { intros H. rewrite H.
    destruct (nth_error PathNetwork.directions (Z.to_nat (Spec.direction_index bearing)))
      as [label|] eqn:E.
    - exists label. split; [reflexivity|]. now apply nth_error_In in E.
    - exfalso. apply nth_error_None in E. simpl in E. lia. }
  destruct (JS.leb JS.zero bearing) eqn:Hpos.
  - pose proof (bearingToDirection_index bearing Hv Hf Hpos) as H.
    split; [intros _; split; [exact Hk|]; split; [exact H|now apply Hlabel]|].
    intros HN. exfalso.
    assert (0 <= N); [|lia]. apply nearest_integer_above; try assumption.
    destruct bearing as [s|s| |[] m e]; try discriminate; reflexivity.
  - destruct bearing as [s|s| |[] m e]; try discriminate.
    destruct (bearingToDirection_negative m e Hv) as [HN0 H]. fold N in HN0, H.
    split.
    + intros HN. assert (N mod 8 = 0) as Hz.
      { destruct HN as [HN|HN]; [|exact HN]. now replace N with 0 by lia. }
      assert (PathNetwork.bearingToDirection (S754_finite true m e)
              = nth_error PathNetwork.directions
                  (Z.to_nat (Spec.direction_index (S754_finite true m e)))) as H'.
      { rewrite H. unfold Spec.direction_index. fold N. now rewrite Hz. }
      split; [exact Hk|]. split; [exact H'|now apply Hlabel].
    + intros _ Hz. rewrite H.
      now replace (N mod 8 =? 0) with false by (symmetry; apply Z.eqb_neq; exact Hz).
Qed.

Lemma bearingToDirection_label_witness :
  PathNetwork.bearingToDirection (JS.of_Z 100) = Some "east"%string
  /\ PathNetwork.bearingToDirection (JS.of_Z (-10)) = Some "north"%string
  /\ PathNetwork.bearingToDirection (JS.of_Z (-360)) = Some "north"%string
  /\ PathNetwork.bearingToDirection (JS.of_Z (-45)) = None.
Proof.
  split; [|split; [|split]].
  - destruct (bearingToDirection_label (JS.of_Z 100) eq_refl eq_refl) as (_ & H & _).
    destruct H as (_ & H & _); [left; vm_compute; discriminate|].
    rewrite H. reflexivity.
  - destruct (bearingToDirection_label (JS.of_Z (-10)) eq_refl eq_refl) as (H0 & H & _).
    destruct H as (_ & H & _); [left; apply H0; reflexivity|].
    rewrite H. reflexivity.
  - destruct (bearingToDirection_label (JS.of_Z (-360)) eq_refl eq_refl) as (_ & H & _).
    destruct H as (_ & H & _); [right; reflexivity|].
    rewrite H. reflexivity.
  - apply (bearingToDirection_label (JS.of_Z (-45)) eq_refl eq_refl).
    + vm_compute. reflexivity.
    + vm_compute. discriminate.
Defined.

(** C4 as stated fails: the bearing -90 is finite; [Math.round(-2) % 8] is
    -2, and [directions[-2]] is [undefined]. *)
Lemma bearingToDirection_negative_undefined :
  JS.is_finite (JS.of_Z (-90)) = true
  /\ JS.to_integer (JS.Math_round (JS.of_Z (-90) / JS.of_Z 45) mod JS.of_Z 8)%js
     = Some (-2)
  /\ PathNetwork.bearingToDirection (JS.of_Z (-90)) = None.
Proof. repeat split; vm_compute; reflexivity. Qed.


(** ** Sums and differences *)

Section Sums.
Import JS.

Lemma Zdigits2_abs (z : Z) : Zdigits2 (Z.abs z) = Zdigits2 z.
Proof. now destruct z. Qed.

Lemma aligned_bound (s : bool) (m : positive) (e ez : Z) :
  valid (S754_finite s m e) = true -> ez <= e ->
  0 < Zpos (fst (shl_align m e ez)) < 2 ^ (53 + e - ez).
Proof.
  intros Hv Hle. apply valid_digits in Hv. destruct Hv as (Hd & _).
  destruct (shl_align_spec m e ez) as [_ ->]. rewrite Z.min_r by lia.
  destruct (Zdigits2_bounds (Zpos m) ltac:(lia)) as [_ Hu].
  assert (2 ^ Zdigits2 (Z.pos m) <= 2 ^ 53) by (apply Z.pow_le_mono_r; lia).
  assert (0 < 2 ^ (e - ez)) by (apply Z.pow_pos_nonneg; lia).
  replace (53 + e - ez) with (53 + (e - ez)) by lia.
  rewrite Z.pow_add_r by lia. nia.
Qed.

(** The difference of two finite binary64 numbers of exponent at most
    [bound]. *)
Lemma sub_finite (x y : number) (bound : Z) :
  valid x = true -> valid y = true ->
  is_finite x = true -> is_finite y = true ->
  FloatOrder.expo x <= bound -> FloatOrder.expo y <= bound -> bound <= 960 ->
  let r := (x - y)%js in
  valid r = true /\ is_finite r = true /\ FloatOrder.expo r <= Z.max (bound + 2) (-1073).
Proof.
  intros Hx Hy Fx Fy Ex Ey Hb r.
  destruct x as [sx|sx| |sx mx ex]; try discriminate;
    destruct y as [sy|sy| |sy my ey]; try discriminate; unfold r, sub;
    cbn [SFsub FloatOrder.expo] in *.
  - destruct sx, sy; cbn; repeat split; lia.
  - split; [exact Hy|]. cbn. repeat split; lia.
  - split; [exact Hx|]. cbn. repeat split; lia.
  - set (ez := Z.min ex ey).
    pose proof (aligned_bound sx mx ex ez Hx ltac:(lia)) as HA.
    pose proof (aligned_bound sy my ey ez Hy ltac:(lia)) as HB.
    set (A := Zpos (fst (shl_align mx ex ez))) in *.
    set (B := Zpos (fst (shl_align my ey ez))) in *.
    set (S := cond_Zopp sx A - cond_Zopp sy B).
    assert (Z.abs S < 2 ^ (54 + bound - ez)) as HS.
    { assert (2 ^ (53 + ex - ez) <= 2 ^ (53 + bound - ez)) by (apply Z.pow_le_mono_r; lia).
      assert (2 ^ (53 + ey - ez) <= 2 ^ (53 + bound - ez)) by (apply Z.pow_le_mono_r; lia).
      replace (54 + bound - ez) with (1 + (53 + bound - ez)) by lia.
      rewrite Z.pow_add_r, Z.pow_1_r by lia.
      unfold S. destruct sx, sy; cbn [cond_Zopp]; lia. }
    pose proof (Zdigits2_le (Z.abs S) (54 + bound - ez) ltac:(lia) ltac:(lia) HS) as Hd.
    rewrite Zdigits2_abs in Hd.
    destruct (binary_normalize_spec S ez false) as (Hv & _ & _ & _ & Hf & He).
    cbv zeta in Hv, Hf, He. split; [exact Hv|]. split; [apply Hf; lia | lia].
Qed.

(** Adding 360 to a number of magnitude below 256 gives a finite number
    that is not negative. *)
Lemma add_360 (u : number) :
  valid u = true -> is_finite u = true -> FloatOrder.expo u <= -45 ->
  let t := (u + of_Z 360)%js in
  valid t = true
  /\ ((exists s, t = S754_zero s) \/ (exists m e, t = S754_finite false m e)).
Proof.
  intros Hv Hf He t. unfold t. rewrite of_Z_360.
  destruct u as [s|s| |s m e]; try discriminate.
  - cbn. split; [reflexivity|]. right. eauto.
  - cbn [FloatOrder.expo] in He. unfold add. cbn [SFadd].
    pose proof (valid_digits _ _ _ Hv) as (Hd & Hr & _).
    rewrite Z.min_l by lia.
    destruct (shl_align_spec m e e) as [_ HA].
    destruct (shl_align_spec 6333186975989760 (-44) e) as [_ HB].
    rewrite Z.min_id, Z.sub_diag, Z.mul_1_r in HA. rewrite Z.min_r in HB by lia.
    rewrite HA, HB.
    destruct (Zdigits2_bounds (Zpos m) ltac:(lia)) as [_ Hu].
    assert (2 ^ Zdigits2 (Z.pos m) <= 2 ^ 53) by (apply Z.pow_le_mono_r; lia).
    assert (2 * 2 ^ 0 <= 2 ^ (-44 - e)) as Hp.
    { change (2 * 2 ^ 0) with (2 ^ 1). apply Z.pow_le_mono_r; lia. }
    set (B := Z.pos 6333186975989760 * 2 ^ (-44 - e)) in *.
    replace (cond_Zopp false B) with B by reflexivity.
    set (S := cond_Zopp s (Z.pos m) + B).
    assert (2 ^ 53 <= B) as HB53
      by (unfold B; change (2 ^ 53) with (4503599627370496 * 2); simpl (2 * 2 ^ 0) in Hp; lia).
    assert (B < 2 ^ (9 - e)) as HBu.
    { unfold B. replace (9 - e) with (53 + (-44 - e)) by lia.
      rewrite Z.pow_add_r by lia.
      assert (0 < 2 ^ (-44 - e)) by (apply Z.pow_pos_nonneg; lia).
      change (2 ^ 53) with 9007199254740992. nia. }
    assert (0 < S < 2 ^ (10 - e)) as HS.
    { replace (10 - e) with (1 + (9 - e)) by lia.
      rewrite Z.pow_add_r, Z.pow_1_r by lia.
      unfold S. destruct s; cbn [cond_Zopp]; lia. }
    pose proof (Zdigits2_le S (10 - e) ltac:(lia) ltac:(lia) ltac:(lia)) as HdS.
    destruct (binary_normalize_spec S e false) as (Hvt & Hn & _ & Hs & Hfin & _).
    cbv zeta in Hvt, Hn, Hs, Hfin.
    specialize (Hs ltac:(lia)). specialize (Hfin ltac:(lia)).
    replace (S <? 0) with false in Hs by (symmetry; apply Z.ltb_ge; lia).
    split; [exact Hvt|].
    destruct (binary_normalize prec emax S e false) as [st|st| |st mt et];
      try discriminate; cbn [FloatOrder.sign] in Hs; subst st.
    + left. now exists false.
    + right. now exists mt, et.
Qed.

(** The remainder of two positive binary64 numbers: it is not negative
    and below the divisor. *)
Lemma rem_positive (mt md : positive) (et ed : Z) :
  valid (S754_finite false mt et) = true ->
  valid (S754_finite false md ed) = true ->
  let r := (S754_finite false mt et mod S754_finite false md ed)%js in
  r = zero
  \/ exists m e,
       r = S754_finite false m e /\ valid r = true
       /\ (FloatOrder.mag r < FloatOrder.mag (S754_finite false md ed))%Q.
Proof.
  intros Ht Hd r. unfold r, rem.
  set (ez := Z.min et ed).
  pose proof (valid_digits _ _ _ Ht) as (Hdt & Het & _).
  pose proof (valid_digits _ _ _ Hd) as (Hdd & Hed & _).
  pose proof (aligned_bound false mt et ez Ht ltac:(lia)) as HN.
  pose proof (aligned_bound false md ed ez Hd ltac:(lia)) as HD.
  destruct (shl_align_spec md ed ez) as [_ HDv].
  rewrite Z.min_r in HDv by lia.
  set (N := Zpos (fst (shl_align mt et ez))) in *.
  set (D := Zpos (fst (shl_align md ed ez))) in *.
  unfold cond_Zopp. rewrite Z.rem_mod_nonneg by lia.
  pose proof (Z.mod_pos_bound N D ltac:(lia)) as HR.
  pose proof (Z.mod_le N D ltac:(lia) ltac:(lia)) as HRN.
  set (R := N mod D) in *.
  assert (R < 2 ^ 53) as Hsmall.
  { destruct (Z_le_gt_dec et ed).
    - replace (53 + et - ez) with 53 in HN by lia. lia.
    - replace (53 + ed - ez) with 53 in HD by lia. lia. }
  destruct R as [|p|p] eqn:ER; try lia.
  - now left.
  - right. cbn [binary_normalize].
    pose proof (Zdigits2_le (Zpos p) 53 ltac:(lia) ltac:(lia) Hsmall) as Hdp.
    pose proof (Zdigits2_pos (Zpos p) ltac:(lia)) as Hdp0.
    destruct (binary_round_exact false p ez Hdp ltac:(lia)) as (m' & Hm' & Hle & ->).
    set (f := Z.max (Zdigits2 (Z.pos p) + ez - 53) (-1074)) in *.
    replace (f <=? 971) with true by (symmetry; apply Z.leb_le; lia).
    exists m', f. split; [reflexivity|]. split.
    + apply valid_finite. rewrite Hm', Zdigits2_mul_pow by lia. lia.
    + unfold FloatOrder.mag.
      assert (Zpos m' < Zpos md * 2 ^ (ed - f)) as Hlt.
      { rewrite Hm'. replace (ed - f) with ((ed - ez) + (ez - f)) by lia.
        rewrite Z.pow_add_r, Z.mul_assoc, <- HDv by lia.
        assert (0 < 2 ^ (ez - f)) by (apply Z.pow_pos_nonneg; lia). nia. }
      rewrite Zlt_Qlt, inject_Z_mult, inject_pow2 in Hlt by lia.
      assert (2 ^ ed == 2 ^ (ed - f) * 2 ^ f)%Q as Hp
        by (rewrite <- pow2_add; now replace (ed - f + f) with ed by lia).
      pose proof (pow2_pos f). rewrite Hp. nra.
Qed.

End Sums.

(** ** The range of the bearing *)

Section BearingRange.
Import JS.

Lemma mag_180 : (FloatOrder.mag (S754_finite false 6333186975989760 (-45)) == 180)%Q.
Proof. reflexivity. Qed.

Lemma mag_PI_bounds : (3 <= FloatOrder.mag Math_PI <= 4)%Q.
Proof. split; vm_compute; discriminate. Qed.

(** Radians to degrees, [(theta * 180) / Math.PI], on an angle of magnitude
    at most [Math.PI]: the result is finite and of magnitude below 256. *)
Lemma degrees_bound (theta : number) :
  valid theta = true -> leb (SFabs theta) Math_PI = true ->
  let u := ((theta * of_Z 180) / Math_PI)%js in
  valid u = true /\ is_finite u = true /\ FloatOrder.expo u <= -45.
Proof.
  intros Hv Hle u. unfold u. rewrite of_Z_180.
  pose proof (leb_mag theta 7074237752028440 (-51) Hv eq_refl Hle) as Hmag.
  fold Math_PI in Hmag.
  unfold Math_PI in Hle. apply leb_abs_expo in Hle; [|lia]. destruct Hle as [Hf He].
  destruct theta as [s|s| |s m e]; try discriminate.
  - destruct s; repeat split; cbn; lia.
  - cbn [FloatOrder.expo] in He.
    destruct (mul_spec s false m 6333186975989760 e (-45) Hv eq_refl)
      as [HX|(mX & eX & HX & HcX & HeX & HvX)]; cbv zeta in HX; rewrite HX.
    + unfold Math_PI. cbn [div SFdiv FloatOrder.expo]. unfold div. cbn [SFdiv].
      repeat split; cbn; lia.
    + replace (eX <=? 971) with true by (symmetry; apply Z.leb_le; lia). cbv iota.
      assert (valid (S754_finite (xorb s false) mX eX) = true) as HvalX
        by (apply valid_finite; lia).
      destruct (div_spec (xorb s false) false mX 7074237752028440 eX (-51)
                  HvalX eq_refl)
        as [Hu|(mu & eu & Hu & Hcu & Heu & Hvu)]; cbv zeta in Hu;
        unfold Math_PI; rewrite Hu.
      * repeat split; cbn; lia.
      * change (Zdigits2 (Z.pos 7074237752028440)) with 53 in Heu.
        replace (eu <=? 971) with true by (symmetry; apply Z.leb_le; lia). cbv iota.
        assert (valid (S754_finite (xorb (xorb s false) false) mu eu) = true) as Hvalu
          by (apply valid_finite; lia).
        split; [exact Hvalu|]. split; [reflexivity|]. cbn [FloatOrder.expo].
        destruct (Z_le_gt_dec eu (-45)) as [|Hgt]; [assumption|]. exfalso.
        pose proof (mantissa_bounds _ _ _ Hvalu) as [_ Hlow].
        specialize (Hlow ltac:(lia)).
        pose proof (pow2_le (-44) eu ltac:(lia)) as Hpl.
        pose proof (pow2_le eu (-42) ltac:(lia)) as Hpu.
        pose proof (pow2_le eX (-42) ltac:(lia)) as HpX.
        pose proof (pow2_pos eu). pose proof (pow2_pos eX).
        pose proof mag_PI_bounds as [HP3 HP4].
        fold Math_PI in Hvu. rewrite mag_180 in HvX.
        change (FloatOrder.mag (S754_finite (xorb s false) mX eX))
          with (inject_Z (Z.pos mX) * 2 ^ eX)%Q in Hvu.
        change (2 ^ 52)%Q with 4503599627370496%Q in Hlow.
        change (2 ^ (-44))%Q with (1 # 17592186044416)%Q in Hpl.
        change (2 ^ (-42))%Q with (1 # 4398046511104)%Q in Hpu, HpX.
        set (U := (inject_Z (Z.pos mu) * 2 ^ eu)%Q) in *.
        assert (256 <= U)%Q as HU by (unfold U; nra).
        set (P := FloatOrder.mag Math_PI) in *.
        set (T := FloatOrder.mag (S754_finite s m e)) in *.
        assert (256 * P <= U * P)%Q by nra.
        nra.
Qed.

Lemma radians_finite_expo (x : number) :
  valid x = true -> is_finite x = true -> FloatOrder.expo x <= 900 ->
  let r := ((x * Math_PI) / of_Z 180)%js in
  valid r = true /\ is_finite r = true.
Proof.
  intros Hv Fx Ex r.
  destruct (mul_finite x Math_PI Hv eq_refl Fx eq_refl) as (Hv1 & F1 & E1 & _).
  { cbn [FloatOrder.expo Math_PI]. lia. }
  cbn [FloatOrder.expo Math_PI] in E1.
  unfold r. rewrite of_Z_180.
  destruct (div_finite (x * Math_PI)%js false 6333186975989760 (-45) Hv1 eq_refl F1)
    as (Hv2 & F2 & _).
  { change (Zdigits2 (Z.pos 6333186975989760)) with 53. lia. }
  now split.
Qed.

Lemma finite_is_not_nan (x : number) : is_finite x = true -> is_nan x = false.
Proof. now destruct x. Qed.

Variable M : MathRuntime.
Hypothesis sin_range : Spec.unit_range (Math_sin M).
Hypothesis cos_range : Spec.unit_range (Math_cos M).
Hypothesis atan2_range : Spec.atan2_range M.

Lemma unit_finite (f : number -> number) (x : number) :
  Spec.unit_range f -> valid x = true -> is_finite x = true ->
  valid (f x) = true /\ is_finite (f x) = true /\ FloatOrder.expo (f x) <= -52.
Proof.
  intros Hf Hv Fx. destruct (Hf x Hv Fx) as [Hvf Hle].
  rewrite of_Z_1 in Hle. apply leb_abs_expo in Hle; [|lia]. tauto.
Qed.

Lemma calculateBearing_in_range (lat1 lng1 lat2 lng2 : number) :
  valid lat1 = true -> valid lng1 = true -> valid lat2 = true -> valid lng2 = true ->
  leb (SFabs lat1) (of_Z 90) = true -> leb (SFabs lng1) (of_Z 180) = true ->
  leb (SFabs lat2) (of_Z 90) = true -> leb (SFabs lng2) (of_Z 180) = true ->
  let b := PathNetwork.calculateBearing M lat1 lng1 lat2 lng2 in
  valid b = true /\ leb zero b = true /\ ltb b (of_Z 360) = true.
Proof.
  intros Vlat1 Vlng1 Vlat2 Vlng2 Blat1 Blng1 Blat2 Blng2 b.
  rewrite of_Z_90 in Blat1, Blat2. rewrite of_Z_180 in Blng1, Blng2.
  apply leb_abs_expo in Blat1, Blat2, Blng1, Blng2; try lia.
  destruct Blat1 as [Flat1 Elat1], Blat2 as [Flat2 Elat2],
    Blng1 as [Flng1 Elng1], Blng2 as [Flng2 Elng2].
  destruct (radians_finite_expo lat1 Vlat1 Flat1 ltac:(lia)) as [Vphi1 Fphi1].
  destruct (radians_finite_expo lat2 Vlat2 Flat2 ltac:(lia)) as [Vphi2 Fphi2].
  destruct (sub_finite lng2 lng1 (-45) Vlng2 Vlng1 Flng2 Flng1 Elng2 Elng1 ltac:(lia))
    as (Vd & Fd & Ed).
  destruct (radians_finite_expo _ Vd Fd ltac:(lia)) as [Vdlam Fdlam].
  unfold b, PathNetwork.calculateBearing. cbv zeta.
  set (phi1 := ((lat1 * Math_PI) / of_Z 180)%js) in *.
  set (phi2 := ((lat2 * Math_PI) / of_Z 180)%js) in *.
  set (dlam := (((lng2 - lng1) * Math_PI) / of_Z 180)%js) in *.
  destruct (unit_finite _ dlam sin_range Vdlam Fdlam) as (Vsd & Fsd & Esd).
  destruct (unit_finite _ dlam cos_range Vdlam Fdlam) as (Vcd & Fcd & Ecd).
  destruct (unit_finite _ phi1 sin_range Vphi1 Fphi1) as (Vs1 & Fs1 & Es1).
  destruct (unit_finite _ phi1 cos_range Vphi1 Fphi1) as (Vc1 & Fc1 & Ec1).
  destruct (unit_finite _ phi2 sin_range Vphi2 Fphi2) as (Vs2 & Fs2 & Es2).
  destruct (unit_finite _ phi2 cos_range Vphi2 Fphi2) as (Vc2 & Fc2 & Ec2).
  destruct (mul_finite _ _ Vsd Vc2 Fsd Fc2 ltac:(lia)) as (Vy & Fy & _).
  destruct (mul_finite _ _ Vc1 Vs2 Fc1 Fs2 ltac:(lia)) as (Vp1 & Fp1 & Ep1 & _).
  destruct (mul_finite _ _ Vs1 Vc2 Fs1 Fc2 ltac:(lia)) as (Vp2 & Fp2 & Ep2 & _).
  destruct (mul_finite _ _ Vp2 Vcd Fp2 Fcd ltac:(lia)) as (Vp3 & Fp3 & Ep3 & _).
  destruct (sub_finite _ _ (-48) Vp1 Vp3 Fp1 Fp3 ltac:(lia) ltac:(lia) ltac:(lia))
    as (Vx & Fx & _).
  set (y := (Math_sin M dlam * Math_cos M phi2)%js) in *.
  set (x := (Math_cos M phi1 * Math_sin M phi2
             - Math_sin M phi1 * Math_cos M phi2 * Math_cos M dlam)%js) in *.
  destruct (atan2_range y x Vy Vx (finite_is_not_nan y Fy) (finite_is_not_nan x Fx))
    as [Vtheta Btheta].
  destruct (degrees_bound _ Vtheta Btheta) as (Vu & Fu & Eu).
  destruct (add_360 _ Vu Fu Eu) as [Vt [[s Ht]|(mt & et & Ht)]]; rewrite Ht in *.
  - rewrite of_Z_360. now destruct s.
  - rewrite of_Z_360.
    destruct (rem_positive mt 6333186975989760 et (-44) Vt eq_refl)
      as [Hr|(m & e & Hr & Vr & Hlt)]; cbv zeta in Hr; rewrite Hr in *.
    + repeat split.
    + split; [exact Vr|]. split; [reflexivity|]. now apply ltb_of_mag.
Qed.

End BearingRange.

Section BearingRadians.
Import JS.
Variable M : MathRuntime.

(** The conversion to radians of the difference of two numbers up to
    2^1000 in magnitude does not overflow either. *)
Lemma radians_sub_big (x y : number) :
  valid x = true -> valid y = true ->
  leb (SFabs x) Spec.big = true -> leb (SFabs y) Spec.big = true ->
  is_finite (Spec.radians (x - y)%js) = true.
Proof.
  intros Hx Hy Bx By. unfold Spec.big in Bx, By.
  apply leb_abs_expo in Bx, By; try lia.
  destruct Bx as [Fx Ex], By as [Fy Ey].
  destruct (sub_finite x y 948 Hx Hy Fx Fy Ex Ey ltac:(lia)) as (Vd & Fd & Ed).
  destruct (mul_finite (x - y)%js Math_PI Vd eq_refl Fd eq_refl) as (Hv1 & F1 & E1 & _).
  { cbn [FloatOrder.expo Math_PI]. lia. }
  cbn [FloatOrder.expo Math_PI] in E1.
  unfold Spec.radians. rewrite of_Z_180.
  destruct (div_finite ((x - y) * Math_PI)%js false 6333186975989760 (-45) Hv1 eq_refl F1)
    as (Hv2 & F2 & _).
  { change (Zdigits2 (Z.pos 6333186975989760)) with 53. lia. }
  exact F2.
Qed.

(** The bearing is in the range as soon as the three conversions to
    radians are finite. *)
Lemma calculateBearing_finite_radians (lat1 lng1 lat2 lng2 : number) :
  Spec.unit_range (Math_sin M) -> Spec.unit_range (Math_cos M) -> Spec.atan2_range M ->
  valid lat1 = true -> valid lng1 = true -> valid lat2 = true -> valid lng2 = true ->
  is_finite (Spec.radians lat1) = true -> is_finite (Spec.radians lat2) = true ->
  is_finite (Spec.radians (lng2 - lng1)%js) = true ->
  let b := PathNetwork.calculateBearing M lat1 lng1 lat2 lng2 in
  valid b = true /\ leb zero b = true /\ ltb b (of_Z 360) = true.
Proof.
  intros sin_range cos_range atan2_range Vlat1 Vlng1 Vlat2 Vlng2 Fphi1 Fphi2 Fdlam b.
  pose proof (radians_valid lat1 Vlat1) as Vphi1.
  pose proof (radians_valid lat2 Vlat2) as Vphi2.
  pose proof (radians_valid _ (sub_valid lng2 lng1 Vlng2 Vlng1)) as Vdlam.
  unfold b, PathNetwork.calculateBearing. cbv zeta.
  fold (Spec.radians lat1). fold (Spec.radians lat2). fold (Spec.radians (lng2 - lng1)%js).
  set (phi1 := Spec.radians lat1) in *.
  set (phi2 := Spec.radians lat2) in *.
  set (dlam := Spec.radians (lng2 - lng1)%js) in *.
  destruct (unit_finite _ dlam sin_range Vdlam Fdlam) as (Vsd & Fsd & Esd).
  destruct (unit_finite _ dlam cos_range Vdlam Fdlam) as (Vcd & Fcd & Ecd).
  destruct (unit_finite _ phi1 sin_range Vphi1 Fphi1) as (Vs1 & Fs1 & Es1).
  destruct (unit_finite _ phi1 cos_range Vphi1 Fphi1) as (Vc1 & Fc1 & Ec1).
  destruct (unit_finite _ phi2 sin_range Vphi2 Fphi2) as (Vs2 & Fs2 & Es2).
  destruct (unit_finite _ phi2 cos_range Vphi2 Fphi2) as (Vc2 & Fc2 & Ec2).
  destruct (mul_finite _ _ Vsd Vc2 Fsd Fc2 ltac:(lia)) as (Vy & Fy & _).
  destruct (mul_finite _ _ Vc1 Vs2 Fc1 Fs2 ltac:(lia)) as (Vp1 & Fp1 & Ep1 & _).
  destruct (mul_finite _ _ Vs1 Vc2 Fs1 Fc2 ltac:(lia)) as (Vp2 & Fp2 & Ep2 & _).
  destruct (mul_finite _ _ Vp2 Vcd Fp2 Fcd ltac:(lia)) as (Vp3 & Fp3 & Ep3 & _).
  destruct (sub_finite _ _ (-48) Vp1 Vp3 Fp1 Fp3 ltac:(lia) ltac:(lia) ltac:(lia))
    as (Vx & Fx & _).
  set (y := (Math_sin M dlam * Math_cos M phi2)%js) in *.
  set (x := (Math_cos M phi1 * Math_sin M phi2
             - Math_sin M phi1 * Math_cos M phi2 * Math_cos M dlam)%js) in *.
  destruct (atan2_range y x Vy Vx (finite_is_not_nan y Fy) (finite_is_not_nan x Fx))
    as [Vtheta Btheta].
  destruct (degrees_bound _ Vtheta Btheta) as (Vu & Fu & Eu).
  destruct (add_360 _ Vu Fu Eu) as [Vt [[s Ht]|(mt & et & Ht)]]; rewrite Ht in *.
  - rewrite of_Z_360. now destruct s.
  - rewrite of_Z_360.
    destruct (rem_positive mt 6333186975989760 et (-44) Vt eq_refl)
      as [Hr|(m & e & Hr & Vr & Hlt)]; cbv zeta in Hr; rewrite Hr in *.
    + repeat split.
    + split; [exact Vr|]. split; [reflexivity|]. now apply ltb_of_mag.
Qed.

(** When one of the conversions to radians is not finite, the bearing is
    NaN. *)
Lemma calculateBearing_not_finite (lat1 lng1 lat2 lng2 : number) :
  Spec.sin_not_finite M -> Spec.cos_not_finite M -> Spec.atan2_nan M ->
  is_finite (Spec.radians lat1) = false \/ is_finite (Spec.radians lat2) = false
  \/ is_finite (Spec.radians (lng2 - lng1)%js) = false ->
  PathNetwork.calculateBearing M lat1 lng1 lat2 lng2 = NaN.
Proof.
  intros Hsin Hcos Hatan H.
  unfold PathNetwork.calculateBearing. cbv zeta.
  fold (Spec.radians lat1). fold (Spec.radians lat2). fold (Spec.radians (lng2 - lng1)%js).
  assert (forall theta, theta = NaN ->
            (((theta * of_Z 180) / Math_PI + of_Z 360) mod of_Z 360)%js = NaN) as Hend
    by (intros theta ->; reflexivity).
  apply Hend. destruct H as [H|[H|H]].
  - rewrite (Hcos _ H). change (NaN * ?x)%js with NaN. change (NaN - ?x)%js with NaN.
    apply Hatan. apply orb_true_r.
  - rewrite (Hsin _ H), mul_nan_r. change (NaN - ?x)%js with NaN.
    apply Hatan. apply orb_true_r.
  - rewrite (Hsin _ H). change (NaN * ?x)%js with NaN.
    now apply Hatan.
Qed.

End BearingRadians.

(** C6, as the code has it.  With a [Math.sin] and a [Math.cos] that stay
    between -1 and 1 and a [Math.atan2] that stays between -[Math.PI] and
    [Math.PI], the bearing between two points is a number in the half-open
    interval from 0 to 360 when the three conversions to radians that the
    function makes (of the two latitudes and of the difference of the
    longitudes) are finite, which they are for all coordinates up to 2^1000
    in magnitude.  When one of the conversions is not finite, the bearing
    is NaN, given the values ECMAScript fixes for the three functions on
    NaN and on the infinities. *)
Theorem calculateBearing_range :
  forall M : JS.MathRuntime,
    (Spec.unit_range (JS.Math_sin M) -> Spec.unit_range (JS.Math_cos M) ->
     Spec.atan2_range M ->
     forall lat1 lng1 lat2 lng2 : JS.number,
       JS.valid lat1 = true -> JS.valid lng1 = true ->
       JS.valid lat2 = true -> JS.valid lng2 = true ->
       JS.is_finite (Spec.radians lat1) = true ->
       JS.is_finite (Spec.radians lat2) = true ->
       JS.is_finite (Spec.radians (lng2 - lng1)%js) = true ->
       JS.leb JS.zero (PathNetwork.calculateBearing M lat1 lng1 lat2 lng2) = true
       /\ JS.ltb (PathNetwork.calculateBearing M lat1 lng1 lat2 lng2) (JS.of_Z 360) = true)
    /\ (forall lat1 lng1 lat2 lng2 : JS.number,
          JS.valid lat1 = true -> JS.valid lng1 = true ->
          JS.valid lat2 = true -> JS.valid lng2 = true ->
          JS.leb (SFabs lat1) Spec.big = true -> JS.leb (SFabs lng1) Spec.big = true ->
          JS.leb (SFabs lat2) Spec.big = true -> JS.leb (SFabs lng2) Spec.big = true ->
          JS.is_finite (Spec.radians lat1) = true
          /\ JS.is_finite (Spec.radians lat2) = true
          /\ JS.is_finite (Spec.radians (lng2 - lng1)%js) = true)
    /\ (Spec.sin_not_finite M -> Spec.cos_not_finite M -> Spec.atan2_nan M ->
        forall lat1 lng1 lat2 lng2 : JS.number,
          JS.is_finite (Spec.radians lat1) = false
          \/ JS.is_finite (Spec.radians lat2) = false
          \/ JS.is_finite (Spec.radians (lng2 - lng1)%js) = false ->
          PathNetwork.calculateBearing M lat1 lng1 lat2 lng2 = JS.NaN).
Proof.
  intros M. split; [|split].
  - intros Hsin Hcos Hatan lat1 lng1 lat2 lng2 V1 V2 V3 V4 F1 F2 F3.
    destruct (calculateBearing_finite_radians M lat1 lng1 lat2 lng2 Hsin Hcos Hatan
                V1 V2 V3 V4 F1 F2 F3) as (_ & H0 & H360).
    now split.
  - intros lat1 lng1 lat2 lng2 V1 V2 V3 V4 B1 B2 B3 B4.
    split; [now apply radians_big|]. split; [now apply radians_big|].
    now apply radians_sub_big.
  - intros Hsin Hcos Hatan lat1 lng1 lat2 lng2.
    now apply calculateBearing_not_finite.
Qed.

Lemma calculateBearing_range_witness :
  (JS.leb JS.zero
     (PathNetwork.calculateBearing Sample.runtime
        (CampusData.lat Sample.library) (CampusData.lng Sample.library)
        (CampusData.lat Sample.canteen) (CampusData.lng Sample.canteen)) = true
   /\ JS.ltb
        (PathNetwork.calculateBearing Sample.runtime
           (CampusData.lat Sample.library) (CampusData.lng Sample.library)
           (CampusData.lat Sample.canteen) (CampusData.lng Sample.canteen))
        (JS.of_Z 360) = true)
  /\ PathNetwork.calculateBearing Sample.runtime
       (S754_finite false 0x10000000000000 971) (JS.of_Z 0) (JS.of_Z 0) (JS.of_Z 0)
     = JS.NaN.
Proof.
  destruct (calculateBearing_range Sample.runtime) as (Hrange & Hbig & Hnan).
  split.
  - destruct (Hbig (CampusData.lat Sample.library) (CampusData.lng Sample.library)
                (CampusData.lat Sample.canteen) (CampusData.lng Sample.canteen))
      as (F1 & F2 & F3); try reflexivity.
    apply (Hrange sample_sin_range sample_cos_range sample_atan2_range);
      try reflexivity; assumption.
  - apply (Hnan sample_sin_not_finite sample_cos_not_finite sample_atan2_nan).
    left. vm_compute. reflexivity.
Defined.

(** C6 as stated fails: the latitude 2^1023 is finite and the bearing from
    it is NaN, which is not in the interval. *)
Lemma calculateBearing_finite_nan :
  JS.valid (S754_finite false 0x10000000000000 971) = true
  /\ JS.is_finite (S754_finite false 0x10000000000000 971) = true
  /\ PathNetwork.calculateBearing Sample.runtime
       (S754_finite false 0x10000000000000 971) (JS.of_Z 0) (JS.of_Z 0) (JS.of_Z 0)
     = JS.NaN
  /\ JS.leb JS.zero JS.NaN = false.
Proof. repeat split; vm_compute; reflexivity. Qed.

(** * Further properties *)

(** ** The outcome of a query *)

Section QueryOutcome.
Import JS CampusData AINavigator.
Variable M : MathRuntime.
Variable locations : list Location.

(** The three ways in which [processQuery] ends once the best match is
    known: the fallback, a recommendation, a recommendation with a route. *)
Lemma processQuery_cases (st : State) (userQuery : string)
    (best : Location) (score : Z) (rest : list (Location * Z)) :
  scoredLocations locations userQuery = (best, score) :: rest ->
  exists response calls,
    processQuery M locations st userQuery
    = Some ({| messages := messages st ++ [ {| type := user; text := userQuery |};
                                            {| type := ai; text := response |} ];
               userLocation := userLocation st;
               locationPermission := locationPermission st |}, calls)
    /\ ((score <= 0 /\ calls = [] /\ response = fallbackText)
        \/ (0 < score /\ calls = [onLocationFound best]
            /\ (locationPermission st <> granted \/ userLocation st = None
                \/ exists userLat userLng,
                     userLocation st = Some (userLat, userLng)
                     /\ findNearestLocation M locations userLat userLng = None))
        \/ (0 < score
            /\ exists userLat userLng nearest,
                 userLocation st = Some (userLat, userLng)
                 /\ locationPermission st = granted
                 /\ findNearestLocation M locations userLat userLng = Some nearest
                 /\ calls = [onRouteRequest (name nearest) (name best);
                             onLocationFound best])).
Proof.
  intros Hs. unfold processQuery. rewrite Hs. cbn [fst snd].
  destruct (Z.ltb_spec 0 score) as [Hpos|Hle].
  - destruct (userLocation st) as [[userLat userLng]|] eqn:Hu.
    + destruct (locationPermission st) eqn:Hp.
      * destruct (findNearestLocation M locations userLat userLng) as [nearest|] eqn:Hn.
        -- do 2 eexists. split; [reflexivity|]. right; right.
           split; [assumption|]. exists userLat, userLng, nearest. auto.
        -- do 2 eexists. split; [reflexivity|]. right; left.
           split; [assumption|]. split; [reflexivity|]. right; right.
           exists userLat, userLng. auto.
      * do 2 eexists. split; [reflexivity|]. right; left.
        split; [assumption|]. split; [reflexivity|]. left. discriminate.
      * do 2 eexists. split; [reflexivity|]. right; left.
        split; [assumption|]. split; [reflexivity|]. left. discriminate.
    + do 2 eexists. split; [reflexivity|]. right; left.
      split; [assumption|]. split; [reflexivity|]. right; left. reflexivity.
  - do 2 eexists. split; [reflexivity|]. left. auto.
Qed.

Lemma scoredLocations_nil (userQuery : string) :
  scoredLocations locations userQuery = [] <-> locations = [].
Proof.
  split.
  - intros H. destruct locations as [|x xs] eqn:E; [reflexivity|].
    destruct (scoredLocations_head (x :: xs) userQuery ltac:(discriminate))
      as (best & rest & Hs & _).
    rewrite Hs in H. discriminate.
  - intros ->. reflexivity.
Qed.

End QueryOutcome.

(** X1: on an empty registry [processQuery] throws (it reads [score] of
    [undefined]); on any other registry it returns, having appended exactly
    two messages to the conversation, the user's query as typed and one
    answer, and having left the device position and the permission as they
    were. *)
Theorem processQuery_appends_two_messages :
  forall (M : JS.MathRuntime) (locations : list CampusData.Location)
         (st : AINavigator.State) (userQuery : string),
    (AINavigator.processQuery M locations st userQuery = None <-> locations = [])
    /\ (forall st' calls,
          AINavigator.processQuery M locations st userQuery = Some (st', calls) ->
          (exists response,
              AINavigator.messages st'
              = AINavigator.messages st
                  ++ [ {| AINavigator.type := AINavigator.user;
                          AINavigator.text := userQuery |};
                       {| AINavigator.type := AINavigator.ai;
                          AINavigator.text := response |} ])
          /\ AINavigator.userLocation st' = AINavigator.userLocation st
          /\ AINavigator.locationPermission st' = AINavigator.locationPermission st).
Proof.
  intros M locations st userQuery.
  destruct (AINavigator.scoredLocations locations userQuery) as [|[best score] rest] eqn:Hs.
  - pose proof (proj1 (scoredLocations_nil locations userQuery) Hs) as Hnil.
    unfold AINavigator.processQuery. rewrite Hs. split.
    + split; auto.
    + intros st' calls H. discriminate.
  - destruct (processQuery_cases M locations st userQuery best score rest Hs)
      as (response & calls & Hq & _).
    rewrite Hq. split.
    + split; [discriminate|]. intros Hnil.
      apply (scoredLocations_nil locations userQuery) in Hnil. congruence.
    + intros st' calls' [= <- <-]. cbn. split; [|split; reflexivity].
      now exists response.
Qed.

(** ** Route requests *)

Section RouteRequests.
Import JS CampusData AINavigator.

Lemma find_named_some (locations : list Location) (l : Location) :
  In l locations ->
  exists l', find (fun loc => String.eqb (name loc) (name l)) locations = Some l'.
Proof.
  intros Hin.
  destruct (find (fun loc => String.eqb (name loc) (name l)) locations) as [l'|] eqn:E.
  - now exists l'.
  - apply (find_none _ _ E) in Hin. simpl in Hin.
    rewrite String.eqb_refl in Hin. discriminate.
Qed.

Lemma findPath_registry_names (locations : list Location) (a b : Location) :
  In a locations -> In b locations ->
  exists n1 n2 n3,
    PathNetwork.findPath locations (name a) (name b) = Some [n1; n2; n3].
Proof.
  intros Ha Hb. destruct (find_named_some locations a Ha) as [a' Ea].
  destruct (find_named_some locations b Hb) as [b' Eb].
  unfold PathNetwork.findPath. rewrite Ea, Eb. do 3 eexists. reflexivity.
Qed.

End RouteRequests.

(** X2: [processQuery] requests a route only when the permission is [granted]
    and a device position is known; it requests at most one, always
    followed by the highlighting of its destination, and both of its
    endpoints are names of registry locations, so that [findPath] finds a
    path of three nodes for it. *)
Theorem processQuery_route_request :
  forall (M : JS.MathRuntime) (locations : list CampusData.Location)
         (st st' : AINavigator.State) (userQuery : string)
         (calls : list AINavigator.Callback) (from to : string),
    AINavigator.processQuery M locations st userQuery = Some (st', calls) ->
    In (AINavigator.onRouteRequest from to) calls ->
    AINavigator.locationPermission st = AINavigator.granted
    /\ AINavigator.userLocation st <> None
    /\ (exists destination,
          In destination locations /\ CampusData.name destination = to
          /\ calls = [AINavigator.onRouteRequest from to;
                      AINavigator.onLocationFound destination])
    /\ exists n1 n2 n3, PathNetwork.findPath locations from to = Some [n1; n2; n3].
Proof.
  intros M locations st st' userQuery calls from to Hq Hin.
  assert (Hne : locations <> []).
  { intros ->. discriminate. }
  destruct (scoredLocations_head locations userQuery Hne)
    as (best & rest & Hs & Hbest & _).
  destruct (processQuery_cases M locations st userQuery best _ rest Hs)
    as (response & calls' & Hq' & Hcases).
  rewrite Hq in Hq'. injection Hq' as -> ->.
  destruct Hcases as [(_ & -> & _)|[(_ & -> & _)|(_ & la & lo & nearest & Hu & Hp & Hn & ->)]].
  - destruct Hin.
  - destruct Hin as [H|[]]. discriminate.
  - destruct Hin as [H|[H|[]]]; [|discriminate]. injection H as <- <-.
    destruct (findNearestLocation_some M la lo locations nearest Hn) as [Hnear _].
    split; [assumption|]. split; [rewrite Hu; discriminate|]. split.
    + exists best. auto.
    + now apply findPath_registry_names.
Qed.

Lemma processQuery_route_request_witness :
  exists st' calls,
    AINavigator.processQuery Sample.runtime Sample.registry
      {| AINavigator.messages := [];
         AINavigator.userLocation := Some (Sample.userLat, Sample.userLng);
         AINavigator.locationPermission := AINavigator.granted |}
      "snack" = Some (st', calls)
    /\ In (AINavigator.onRouteRequest "Library" "Canteen") calls
    /\ exists n1 n2 n3,
         PathNetwork.findPath Sample.registry "Library" "Canteen" = Some [n1; n2; n3].
Proof.
  destruct (AINavigator.processQuery Sample.runtime Sample.registry
              {| AINavigator.messages := [];
                 AINavigator.userLocation := Some (Sample.userLat, Sample.userLng);
                 AINavigator.locationPermission := AINavigator.granted |}
              "snack") as [[st' calls]|] eqn:Hq; [|vm_compute in Hq; discriminate].
  assert (Hin : In (AINavigator.onRouteRequest "Library" "Canteen") calls).
  { vm_compute in Hq. injection Hq as _ Hc. rewrite <- Hc. now left. }
  exists st', calls. split; [reflexivity|]. split; [exact Hin|].
  exact (proj2 (proj2 (proj2
           (processQuery_route_request Sample.runtime Sample.registry _ st' "snack"
              calls "Library" "Canteen" Hq Hin)))).
Defined.

(** ** Ties between best matches *)

Section TieBreak.
Import JS CampusData AINavigator.

(** The head of the sorted array is the first element that carries the
    highest score: the sort is stable. *)
Lemma sort_head_first {A : Type} (score : A -> Z) (x : A) (l : list A) :
  exists best rest before after,
    sort (fun a b => score b - score a) (x :: l) = best :: rest
    /\ x :: l = before ++ best :: after
    /\ (forall y, In y before -> score y < score best)
    /\ (forall y, In y after -> score y <= score best).
Proof.
  revert x. induction l as [|z l IH]; intros x.
  - exists x, [], [], []. simpl. intuition.
  - destruct (IH z) as (best & rest & before & after & Hs & Hd & Hb & Ha).
    cbn [sort] in *. rewrite Hs. cbn [sort_insert].
    destruct (Z.leb_spec (score best - score x) 0) as [Hle|Hgt].
    + exists x, (best :: rest), [], (z :: l).
      split; [reflexivity|]. split; [reflexivity|]. split; [intros y []|].
      intros y Hy. rewrite Hd in Hy. apply in_app_or in Hy.
      destruct Hy as [Hy|[<-|Hy]].
      * specialize (Hb y Hy). lia.
      * lia.
      * specialize (Ha y Hy). lia.
    + exists best, (sort_insert (fun a b => score b - score a) x rest),
        (x :: before), after.
      split; [reflexivity|]. split; [now rewrite Hd|]. split; [|assumption].
      intros y [<-|Hy]; [lia|]. now apply Hb.
Qed.

Lemma scoredLocations_first (locations : list Location) (userQuery : string) :
  locations <> [] ->
  exists best rest before after,
    scoredLocations locations userQuery
      = (best, scoreLocation (keywordsOf userQuery) best) :: rest
    /\ locations = before ++ best :: after
    /\ (forall l, In l before ->
          scoreLocation (keywordsOf userQuery) l
          < scoreLocation (keywordsOf userQuery) best)
    /\ (forall l, In l after ->
          scoreLocation (keywordsOf userQuery) l
          <= scoreLocation (keywordsOf userQuery) best).
Proof.
  intros Hne. destruct locations as [|x xs]; [contradiction|].
  unfold scoredLocations. set (kw := keywordsOf userQuery).
  set (f := fun location : Location => (location, scoreLocation kw location)).
  destruct (sort_head_first (@snd Location Z) (f x) (map f xs))
    as ([best sc] & rest & before & after & Hs & Hd & Hb & Ha).
  change (f x :: map f xs) with (map f (x :: xs)) in *.
  apply map_eq_app in Hd.
  destruct Hd as (before' & tl & Hl & Hbefore & Htl).
  apply map_eq_cons in Htl. destruct Htl as (best' & after' & -> & Hbest & Hafter).
  unfold f in Hbest. injection Hbest as -> <-.
  exists best, rest, before', after'.
  split; [exact Hs|]. split; [exact Hl|]. split.
  - intros l Hl'. apply (Hb (f l)). rewrite <- Hbefore. now apply in_map.
  - intros l Hl'. apply (Ha (f l)). rewrite <- Hafter. now apply in_map.
Qed.

End TieBreak.

(** X3: among the locations that carry the highest score, [processQuery]
    recommends the one that comes first in the registry: every location
    before it scores strictly less, every location after it scores at most
    as much. *)
Theorem processQuery_first_best :
  forall (M : JS.MathRuntime) (locations : list CampusData.Location)
         (st : AINavigator.State) (userQuery : string),
    locations <> [] ->
    let score := AINavigator.scoreLocation (AINavigator.keywordsOf userQuery) in
    exists best before after,
      locations = before ++ best :: after
      /\ (forall l, In l before -> score l < score best)
      /\ (forall l, In l after -> score l <= score best)
      /\ (0 < score best ->
          exists st' calls,
            AINavigator.processQuery M locations st userQuery = Some (st', calls)
            /\ In (AINavigator.onLocationFound best) calls
            /\ forall l, In (AINavigator.onLocationFound l) calls -> l = best).
Proof.
  intros M locations st userQuery Hne score.
  destruct (scoredLocations_first locations userQuery Hne)
    as (best & rest & before & after & Hs & Hd & Hb & Ha).
  exists best, before, after. repeat (split; [assumption|]).
  intros Hpos.
  destruct (processQuery_cases M locations st userQuery best _ rest Hs)
    as (response & calls & Hq & Hcases).
  eexists. exists calls. split; [exact Hq|].
  destruct Hcases as [(Hle & _)|[(_ & -> & _)|(_ & la & lo & nearest & _ & _ & _ & ->)]].
  - unfold score in Hpos. lia.
  - split; [now left|]. intros l [H|[]]. now injection H.
  - split; [right; now left|]. intros l [H|[H|[]]]; [discriminate|now injection H].
Qed.

Lemma processQuery_first_best_witness :
  [Sample.canteen; Sample.library; Sample.canteen] <> []
  /\ exists best before after,
       [Sample.canteen; Sample.library; Sample.canteen] = before ++ best :: after
       /\ (forall l, In l before ->
             AINavigator.scoreLocation (AINavigator.keywordsOf "quiet") l
             < AINavigator.scoreLocation (AINavigator.keywordsOf "quiet") best)
       /\ (forall l, In l after ->
             AINavigator.scoreLocation (AINavigator.keywordsOf "quiet") l
             <= AINavigator.scoreLocation (AINavigator.keywordsOf "quiet") best)
       /\ (0 < AINavigator.scoreLocation (AINavigator.keywordsOf "quiet") best ->
           exists st' calls,
             AINavigator.processQuery Sample.runtime
               [Sample.canteen; Sample.library; Sample.canteen]
               {| AINavigator.messages := [];
                  AINavigator.userLocation := None;
                  AINavigator.locationPermission := AINavigator.prompt |}
               "quiet" = Some (st', calls)
             /\ In (AINavigator.onLocationFound best) calls
             /\ forall l, In (AINavigator.onLocationFound l) calls -> l = best).
Proof.
  split; [discriminate|].
  apply (processQuery_first_best Sample.runtime
           [Sample.canteen; Sample.library; Sample.canteen]
           {| AINavigator.messages := [];
              AINavigator.userLocation := None;
              AINavigator.locationPermission := AINavigator.prompt |}
           "quiet").
  discriminate.
Defined.

(** ** Matches *)

Section Matches.
Import JS CampusData AINavigator.

Lemma count_pos {A : Type} (f : A -> bool) (l : list A) :
  0 < Spec.count f l <-> exists x, In x l /\ f x = true.
Proof.
  unfold Spec.count. split.
  - intros H. destruct (filter f l) as [|x r] eqn:E; [simpl in H; lia|].
    assert (In x (filter f l)) as Hx by (rewrite E; now left).
    apply filter_In in Hx. now exists x.
  - intros (x & Hx & Hf).
    assert (In x (filter f l)) as Hin by (apply filter_In; now split).
    destruct (filter f l); [destruct Hin|]. cbn [List.length]. lia.
Qed.

Lemma tag_pairs_pos (keywords : list string) (l : Location) :
  0 < Spec.tag_pairs keywords l
  <-> exists k tag, In k keywords /\ In tag (tags l) /\ Spec.matches_tag k tag = true.
Proof.
  unfold Spec.tag_pairs. induction keywords as [|k ks IH].
  - simpl. split; [lia|]. intros (k & tag & [] & _).
  - cbn [map fold_right].
    pose proof (count_nonneg (Spec.matches_tag k) (tags l)) as H0.
    pose proof (tag_pairs_nonneg ks l) as H1. unfold Spec.tag_pairs in H1.
    split.
    + intros H.
      destruct (Z.ltb_spec 0 (Spec.count (Spec.matches_tag k) (tags l))) as [Hk|Hk].
      * apply count_pos in Hk. destruct Hk as (tag & Ht & Hm).
        exists k, tag. split; [now left|]. now split.
      * assert (0 < fold_right Z.add 0
                      (map (fun k0 => Spec.count (Spec.matches_tag k0) (tags l)) ks))
          as Hks by lia.
        apply IH in Hks. destruct Hks as (k' & tag & Hk' & Ht & Hm).
        exists k', tag. split; [now right|]. now split.
    + intros (k' & tag & [<-|Hk'] & Ht & Hm).
      * assert (0 < Spec.count (Spec.matches_tag k) (tags l))
          by (apply count_pos; now exists tag).
        lia.
      * assert (0 < fold_right Z.add 0
                      (map (fun k0 => Spec.count (Spec.matches_tag k0) (tags l)) ks))
          by (apply IH; exists k', tag; auto).
        lia.
Qed.

(** A location scores exactly when one of the keywords is a substring of
    one of its tags, contains one of its tags, or is a substring of its
    lowercased name or description. *)
Lemma scoreLocation_pos (keywords : list string) (l : Location) :
  0 < scoreLocation keywords l
  <-> exists k, In k keywords
        /\ ((exists tag, In tag (tags l)
                         /\ (includes tag k = true \/ includes k tag = true))
            \/ includes (toLowerCase (name l)) k = true
            \/ includes (toLowerCase (description l)) k = true).
Proof.
  rewrite scoreLocation_pair_score. unfold Spec.pair_score.
  pose proof (tag_pairs_nonneg keywords l) as H1.
  pose proof (count_nonneg (includes (toLowerCase (name l))) keywords) as H2.
  pose proof (count_nonneg (includes (toLowerCase (description l))) keywords) as H3.
  fold (Spec.name_hits keywords l) in H2. fold (Spec.description_hits keywords l) in H3.
  split.
  - intros H.
    destruct (Z.ltb_spec 0 (Spec.tag_pairs keywords l)) as [Ht|Ht].
    { apply tag_pairs_pos in Ht. destruct Ht as (k & tag & Hk & Ht & Hm).
      exists k. split; [assumption|]. left. exists tag. split; [assumption|].
      unfold Spec.matches_tag in Hm. now apply orb_true_iff in Hm. }
    destruct (Z.ltb_spec 0 (Spec.name_hits keywords l)) as [Hn|Hn].
    { apply count_pos in Hn. destruct Hn as (k & Hk & Hn).
      exists k. split; [assumption|]. right; now left. }
    assert (0 < Spec.description_hits keywords l) as Hd by lia.
    apply count_pos in Hd. destruct Hd as (k & Hk & Hd).
    exists k. split; [assumption|]. right; now right.
  - intros (k & Hk & [(tag & Ht & Hm)|[Hn|Hd]]).
    + assert (0 < Spec.tag_pairs keywords l).
      { apply tag_pairs_pos. exists k, tag. repeat split; try assumption.
        unfold Spec.matches_tag. now apply orb_true_iff. }
      lia.
    + assert (0 < Spec.name_hits keywords l) by (apply count_pos; now exists k).
      lia.
    + assert (0 < Spec.description_hits keywords l) by (apply count_pos; now exists k).
      lia.
Qed.

End Matches.

(** X4: [processQuery] recommends a location exactly when some keyword of the
    query matches some registry location, and the location it recommends is
    itself matched by a keyword: the keyword is a substring of one of its
    tags or contains one of them, or is a substring of its lowercased name
    or description. *)
Theorem processQuery_recommends_a_match :
  forall (M : JS.MathRuntime) (locations : list CampusData.Location)
         (st : AINavigator.State) (userQuery : string),
    let hit (k : string) (l : CampusData.Location) :=
      (exists tag, In tag (CampusData.tags l)
                   /\ (JS.includes tag k = true \/ JS.includes k tag = true))
      \/ JS.includes (JS.toLowerCase (CampusData.name l)) k = true
      \/ JS.includes (JS.toLowerCase (CampusData.description l)) k = true in
    (forall st' calls best,
        AINavigator.processQuery M locations st userQuery = Some (st', calls) ->
        In (AINavigator.onLocationFound best) calls ->
        In best locations
        /\ exists k, In k (AINavigator.keywordsOf userQuery) /\ hit k best)
    /\ ((exists l k, In l locations /\ In k (AINavigator.keywordsOf userQuery) /\ hit k l) ->
        exists st' calls best,
          AINavigator.processQuery M locations st userQuery = Some (st', calls)
          /\ In (AINavigator.onLocationFound best) calls).
Proof.
  intros M locations st userQuery hit. split.
  - intros st' calls best Hq Hin.
    assert (Hne : locations <> []) by (intros ->; discriminate).
    destruct (scoredLocations_head locations userQuery Hne)
      as (best' & rest & Hs & Hbest & _).
    destruct (processQuery_cases M locations st userQuery best' _ rest Hs)
      as (response & calls' & Hq' & Hcases).
    rewrite Hq in Hq'. injection Hq' as -> ->.
    assert (best = best' /\ 0 < AINavigator.scoreLocation
                                   (AINavigator.keywordsOf userQuery) best')
      as [-> Hpos].
    { destruct Hcases
        as [(_ & -> & _)|[(Hp & -> & _)|(Hp & la & lo & nearest & _ & _ & _ & ->)]].
      - destruct Hin.
      - destruct Hin as [H|[]]. injection H as ->. now split.
      - destruct Hin as [H|[H|[]]]; [discriminate|]. injection H as ->. now split. }
    split; [assumption|]. now apply scoreLocation_pos.
  - intros (l & k & Hl & Hk & Hhit).
    assert (Hne : locations <> []) by (intros ->; destruct Hl).
    destruct (scoredLocations_head locations userQuery Hne)
      as (best & rest & Hs & Hbest & Hmax).
    assert (0 < AINavigator.scoreLocation (AINavigator.keywordsOf userQuery) l) as Hpos
      by (apply scoreLocation_pos; now exists k).
    specialize (Hmax l Hl).
    destruct (processQuery_cases M locations st userQuery best _ rest Hs)
      as (response & calls & Hq & Hcases).
    eexists. exists calls, best. split; [exact Hq|].
    destruct Hcases as [(Hle & _)|[(_ & -> & _)|(_ & la & lo & nearest & _ & _ & _ & ->)]].
    + lia.
    + now left.
    + right; now left.
Qed.

(** ** The keywords of a query made of two parts *)

Section Parts.
Import JS CampusData AINavigator.

Lemma filter_long_cons (piece : string) (l : list string) :
  filter Spec.long (piece :: l) = filter Spec.long [piece] ++ filter Spec.long l.
Proof. cbn [filter]. now destruct (Spec.long piece). Qed.

Lemma filter_split_space (a b : string) :
  forall piece in_run,
    (in_run = true -> piece = EmptyString) ->
    filter Spec.long (split_from piece in_run (a ++ String " " b))
    = filter Spec.long (split_from piece in_run a)
        ++ filter Spec.long (split_whitespace b).
Proof.
  induction a as [|c a IH]; intros piece in_run Hinv.
  - change (EmptyString ++ String " " b)%string with (String " " b).
    cbn [split_from]. change (is_whitespace " ") with true. cbv iota.
    destruct in_run.
    + rewrite (Hinv eq_refl). cbn [filter]. rewrite long_empty. cbn [app].
      now rewrite split_from_run, filter_split_trimStart.
    + rewrite filter_long_cons. f_equal.
      now rewrite split_from_run, filter_split_trimStart.
  - change (String c a ++ String " " b)%string with (String c (a ++ String " " b)).
    cbn [split_from]. destruct (is_whitespace c).
    + destruct in_run.
      * now apply IH.
      * rewrite (filter_long_cons piece (split_from EmptyString true (a ++ String " " b))),
          (filter_long_cons piece (split_from EmptyString true a)), <- app_assoc.
        f_equal. now apply IH.
    + apply IH. discriminate.
Qed.

Lemma keywordsOf_space (q1 q2 : string) :
  keywordsOf (q1 ++ String " " q2) = keywordsOf q1 ++ keywordsOf q2.
Proof.
  rewrite !keywordsOf_tokens. unfold Spec.tokens.
  rewrite toLowerCase_app. cbn [toLowerCase].
  change (lower_char " ") with " "%char.
  apply (filter_split_space (toLowerCase q1) (toLowerCase q2) EmptyString false).
  discriminate.
Qed.

Lemma count_app {A : Type} (f : A -> bool) (l1 l2 : list A) :
  Spec.count f (l1 ++ l2) = Spec.count f l1 + Spec.count f l2.
Proof. unfold Spec.count. rewrite filter_app, length_app. lia. Qed.

Lemma scoreLocation_app (k1 k2 : list string) (l : Location) :
  scoreLocation (k1 ++ k2) l = scoreLocation k1 l + scoreLocation k2 l.
Proof.
  rewrite !scoreLocation_pair_score. unfold Spec.pair_score, Spec.name_hits,
    Spec.description_hits.
  rewrite !count_app.
  assert (Spec.tag_pairs (k1 ++ k2) l = Spec.tag_pairs k1 l + Spec.tag_pairs k2 l) as ->.
  { unfold Spec.tag_pairs. induction k1 as [|k ks IH]; [reflexivity|].
    cbn [app map fold_right]. rewrite IH. lia. }
  lia.
Qed.

End Parts.

(** X5: the score of a query made of two parts separated by a space is the sum
    of the scores of the parts: a word counts as often as it occurs, so
    repeating the query doubles the score of every location. *)
Theorem scoreLocation_additive :
  forall (q1 q2 : string) (l : CampusData.Location),
    AINavigator.keywordsOf (q1 ++ String " " q2)
    = AINavigator.keywordsOf q1 ++ AINavigator.keywordsOf q2
    /\ AINavigator.scoreLocation (AINavigator.keywordsOf (q1 ++ String " " q2)) l
       = AINavigator.scoreLocation (AINavigator.keywordsOf q1) l
         + AINavigator.scoreLocation (AINavigator.keywordsOf q2) l
    /\ AINavigator.scoreLocation (AINavigator.keywordsOf (q1 ++ String " " q1)) l
       = 2 * AINavigator.scoreLocation (AINavigator.keywordsOf q1) l.
Proof.
  intros q1 q2 l. split; [apply keywordsOf_space|]. split.
  - now rewrite keywordsOf_space, scoreLocation_app.
  - rewrite keywordsOf_space, scoreLocation_app. lia.
Qed.

(** ** Ties between nearest locations *)

Section OrderFacts.
Import JS.

Lemma ltb_leb_trans (x y z : number) :
  ltb x y = true -> leb y z = true -> ltb x z = true.
Proof.
  rewrite !ltb_lt3, leb_not_lt3. intros (Hx & Hy & H1) (_ & Hz & H2).
  repeat split; try assumption.
  destruct (FloatOrder.ord x) as [[a1 a2] a3], (FloatOrder.ord y) as [[b1 b2] b3],
    (FloatOrder.ord z) as [[c1 c2] c3].
  unfold FloatOrder.lt3 in *. lia.
Qed.

Lemma ltb_not_nan (x y : number) :
  ltb x y = true -> is_nan x = false /\ is_nan y = false.
Proof. intros H. apply ltb_lt3 in H. tauto. Qed.

Lemma not_below_Infinity (x : number) :
  is_nan x = false -> ltb x Infinity = false -> x = Infinity.
Proof. destruct x as [s|[]| |s m e]; try discriminate; try reflexivity; now destruct s. Qed.

End OrderFacts.

Section NearestFirst.
Import JS CampusData AINavigator.
Variable M : MathRuntime.
Variables userLat userLng : number.

Let distanceTo (l : Location) : number :=
  calculateDistance M userLat userLng (lat l) (lng l).

Let step (acc : option Location * number) (location : Location) :=
  let '(nearestLocation, minDistance) := acc in
  let distance := calculateDistance M userLat userLng (lat location) (lng location) in
  if ltb distance minDistance then (Some location, distance)
  else (nearestLocation, minDistance).

(** The loop invariant: the running nearest location is the first of the
    locations seen so far at the least distance. *)
Let first_invariant (seen : list Location) (acc : option Location * number) : Prop :=
  match fst acc with
  | Some best =>
      exists before after,
        seen = before ++ best :: after
        /\ snd acc = distanceTo best
        /\ ltb (distanceTo best) Infinity = true
        /\ (forall l, In l before -> is_nan (distanceTo l) = false ->
              ltb (distanceTo best) (distanceTo l) = true)
        /\ (forall l, In l after -> ltb (distanceTo l) (distanceTo best) = false)
  | None =>
      snd acc = Infinity
      /\ forall l, In l seen -> ltb (distanceTo l) Infinity = false
  end.

Lemma nearest_first_invariant (todo seen : list Location) (acc : option Location * number) :
  first_invariant seen acc -> first_invariant (seen ++ todo) (fold_left step todo acc).
Proof.
  revert seen acc. induction todo as [|x todo IH]; intros seen acc Hinv.
  - now rewrite app_nil_r.
  - cbn [fold_left].
    replace (seen ++ x :: todo) with ((seen ++ [x]) ++ todo)
      by now rewrite <- app_assoc.
    apply IH. destruct acc as [[best|] minDistance]; unfold first_invariant in *;
      cbn [fst snd] in *; unfold step; fold (distanceTo x).
    + destruct Hinv as (before & after & Hseen & -> & Hfin & Hb & Ha).
      destruct (ltb (distanceTo x) (distanceTo best)) eqn:E; cbn [fst snd].
      * exists seen, []. split; [reflexivity|]. split; [reflexivity|].
        split; [now apply ltb_trans with (distanceTo best)|].
        split; [|intros l []].
        intros l Hl Hnan. rewrite Hseen in Hl. apply in_app_or in Hl.
        destruct Hl as [Hl|[<-|Hl]].
        -- apply ltb_trans with (distanceTo best); auto.
        -- assumption.
        -- apply ltb_leb_trans with (distanceTo best); [assumption|].
           apply not_ltb_leb; [assumption| |now apply Ha].
           now apply ltb_not_nan in E.
      * exists before, (after ++ [x]).
        split; [rewrite Hseen, <- app_assoc; reflexivity|].
        split; [reflexivity|]. split; [assumption|]. split; [assumption|].
        intros l Hl. apply in_app_or in Hl. destruct Hl as [Hl|[<-|[]]]; auto.
    + destruct Hinv as [-> Hseen].
      destruct (ltb (distanceTo x) Infinity) eqn:E; cbn [fst snd].
      * exists seen, []. split; [reflexivity|]. split; [reflexivity|].
        split; [assumption|]. split; [|intros l []].
        intros l Hl Hnan.
        now rewrite (not_below_Infinity (distanceTo l) Hnan (Hseen l Hl)).
      * split; [reflexivity|]. intros l Hl. apply in_app_or in Hl.
        destruct Hl as [Hl|[<-|[]]]; auto.
Qed.

Lemma findNearestLocation_first (locations : list Location) (nearest : Location) :
  findNearestLocation M locations userLat userLng = Some nearest ->
  exists before after,
    locations = before ++ nearest :: after
    /\ ltb (distanceTo nearest) Infinity = true
    /\ (forall l, In l before -> is_nan (distanceTo l) = false ->
          ltb (distanceTo nearest) (distanceTo l) = true)
    /\ (forall l, In l after -> ltb (distanceTo l) (distanceTo nearest) = false).
Proof.
  unfold findNearestLocation. fold step. intros H.
  assert (first_invariant locations (fold_left step locations (None, Infinity))) as Hinv.
  { apply (nearest_first_invariant locations [] (None, Infinity)).
    split; [reflexivity|]. intros l []. }
  unfold first_invariant in Hinv. rewrite H in Hinv.
  destruct Hinv as (before & after & Hl & _ & Hfin & Hb & Ha).
  exists before, after. auto.
Qed.

End NearestFirst.

(** X6: among the locations at the least distance, [findNearestLocation]
    returns the one that comes first in the registry: its distance is a
    number below Infinity, strictly smaller than the distance of every
    earlier location unless that one is NaN, and no later location is
    strictly nearer. *)
Theorem findNearestLocation_first_nearest :
  forall (M : JS.MathRuntime) (locations : list CampusData.Location)
         (userLat userLng : JS.number) (nearest : CampusData.Location),
    AINavigator.findNearestLocation M locations userLat userLng = Some nearest ->
    let distanceTo (l : CampusData.Location) :=
      AINavigator.calculateDistance M userLat userLng
        (CampusData.lat l) (CampusData.lng l) in
    exists before after,
      locations = before ++ nearest :: after
      /\ JS.ltb (distanceTo nearest) JS.Infinity = true
      /\ (forall l, In l before -> JS.is_nan (distanceTo l) = false ->
            JS.ltb (distanceTo nearest) (distanceTo l) = true)
      /\ (forall l, In l after -> JS.ltb (distanceTo l) (distanceTo nearest) = false).
Proof.
  intros M locations userLat userLng nearest H distanceTo.
  now apply findNearestLocation_first.
Qed.

Lemma findNearestLocation_first_nearest_witness :
  AINavigator.findNearestLocation Sample.runtime
    [Sample.nowhere; Sample.library; Sample.canteen; Sample.library]
    Sample.userLat Sample.userLng = Some Sample.library
  /\ exists before after,
       [Sample.nowhere; Sample.library; Sample.canteen; Sample.library]
       = before ++ Sample.library :: after
       /\ JS.ltb (AINavigator.calculateDistance Sample.runtime
                    Sample.userLat Sample.userLng
                    (CampusData.lat Sample.library) (CampusData.lng Sample.library))
                 JS.Infinity = true
       /\ (forall l, In l before ->
             JS.is_nan (AINavigator.calculateDistance Sample.runtime
                          Sample.userLat Sample.userLng
                          (CampusData.lat l) (CampusData.lng l)) = false ->
             JS.ltb (AINavigator.calculateDistance Sample.runtime
                       Sample.userLat Sample.userLng
                       (CampusData.lat Sample.library) (CampusData.lng Sample.library))
                    (AINavigator.calculateDistance Sample.runtime
                       Sample.userLat Sample.userLng
                       (CampusData.lat l) (CampusData.lng l)) = true)
       /\ (forall l, In l after ->
             JS.ltb (AINavigator.calculateDistance Sample.runtime
                       Sample.userLat Sample.userLng
                       (CampusData.lat l) (CampusData.lng l))
                    (AINavigator.calculateDistance Sample.runtime
                       Sample.userLat Sample.userLng
                       (CampusData.lat Sample.library) (CampusData.lng Sample.library))
             = false).
Proof.
  assert (H : AINavigator.findNearestLocation Sample.runtime
                [Sample.nowhere; Sample.library; Sample.canteen; Sample.library]
                Sample.userLat Sample.userLng = Some Sample.library)
    by (vm_compute; reflexivity).
  split; [exact H|].
  exact (findNearestLocation_first_nearest Sample.runtime
           [Sample.nowhere; Sample.library; Sample.canteen; Sample.library]
           Sample.userLat Sample.userLng Sample.library H).
Defined.

(** ** Submitting a query *)

Section Submit.
Import JS CampusData AINavigator AINavigatorEvents.

Lemma trimStart_blank (s : string) :
  Notions.blank s = true -> trimStart s = EmptyString.
Proof.
  induction s as [|c s IH]; [reflexivity|]. cbn [Notions.blank trimStart].
  intros H. apply andb_true_iff in H. destruct H as [-> H]. now apply IH.
Qed.

Lemma trimEnd_blank (s : string) :
  trimEnd s = EmptyString <-> Notions.blank s = true.
Proof.
  induction s as [|c s IH]; [now split|]. cbn [Notions.blank]. split.
  - intros H. apply trimEnd_empty in H. destruct H as [-> H].
    now apply IH.
  - intros H. apply andb_true_iff in H. destruct H as [Hc H].
    cbn [trimEnd]. apply IH in H. now rewrite H, Hc.
Qed.

Lemma trimStart_not_blank (s : string) :
  Notions.blank s = false -> Notions.blank (trimStart s) = false.
Proof.
  induction s as [|c s IH]; [discriminate|]. cbn [Notions.blank trimStart].
  destruct (is_whitespace c) eqn:E; [exact IH|].
  intros _. cbn [Notions.blank]. now rewrite E.
Qed.

(** [trim] leaves nothing exactly of the blank strings. *)
Lemma trim_blank (s : string) :
  (trim s =? "")%string = Notions.blank s.
Proof.
  unfold trim. destruct (Notions.blank s) eqn:E.
  - rewrite (trimStart_blank s E). reflexivity.
  - apply trimStart_not_blank in E.
    destruct (String.eqb_spec (trimEnd (trimStart s)) "") as [H|H]; [|reflexivity].
    apply trimEnd_blank in H. congruence.
Qed.

End Submit.

(** X7: [handleSubmit] does nothing for a blank query, one made of white space
    only: no message, no callback, and no exception even on an empty
    registry.  For any other query it throws exactly when the registry is
    empty, and otherwise does what [processQuery] does on the query as
    typed, and clears the input field. *)
Theorem handleSubmit_blank_or_processed :
  forall (M : JS.MathRuntime) (locations : list CampusData.Location)
         (w : AINavigatorEvents.Widget),
    (Notions.blank (AINavigatorEvents.query w) = true ->
     AINavigatorEvents.handleSubmit M locations w = Some (w, []))
    /\ (Notions.blank (AINavigatorEvents.query w) = false ->
        (AINavigatorEvents.handleSubmit M locations w = None <-> locations = [])
        /\ forall w' calls,
             AINavigatorEvents.handleSubmit M locations w = Some (w', calls) ->
             AINavigatorEvents.query w' = EmptyString
             /\ AINavigator.processQuery M locations (AINavigatorEvents.state w)
                  (AINavigatorEvents.query w)
                = Some (AINavigatorEvents.state w', calls)
             /\ List.length (AINavigator.messages (AINavigatorEvents.state w'))
                = (List.length (AINavigator.messages (AINavigatorEvents.state w)) + 2)%nat).
Proof.
  intros M locations w. unfold AINavigatorEvents.handleSubmit.
  rewrite trim_blank. split; intros Hb; rewrite Hb; [reflexivity|].
  destruct (AINavigator.scoredLocations locations (AINavigatorEvents.query w))
    as [|[best score] rest] eqn:Hs.
  - pose proof (proj1 (scoredLocations_nil locations _) Hs) as Hnil.
    unfold AINavigator.processQuery. rewrite Hs. split; [tauto|].
    intros w' calls H. discriminate.
  - destruct (processQuery_cases M locations (AINavigatorEvents.state w)
                (AINavigatorEvents.query w) best score rest Hs)
      as (response & calls & Hq & _).
    rewrite Hq. split.
    + split; [discriminate|]. intros Hnil.
      apply (scoredLocations_nil locations (AINavigatorEvents.query w)) in Hnil.
      congruence.
    + intros w' calls' [= <- <-]. cbn [AINavigatorEvents.query AINavigatorEvents.state].
      split; [reflexivity|]. split; [reflexivity|].
      cbn [AINavigator.messages]. rewrite length_app. reflexivity.
Qed.

Lemma handleSubmit_blank_or_processed_witness :
  Notions.blank "  " = true
  /\ AINavigatorEvents.handleSubmit Sample.runtime []
       {| AINavigatorEvents.state := AINavigatorEvents.state AINavigatorEvents.initial;
          AINavigatorEvents.query := "  " |}
     = Some ({| AINavigatorEvents.state := AINavigatorEvents.state AINavigatorEvents.initial;
                AINavigatorEvents.query := "  " |}, [])
  /\ Notions.blank " ok " = false
  /\ (AINavigatorEvents.handleSubmit Sample.runtime []
        {| AINavigatorEvents.state := AINavigatorEvents.state AINavigatorEvents.initial;
           AINavigatorEvents.query := " ok " |} = None <-> @nil CampusData.Location = []).
Proof.
  split; [reflexivity|]. split.
  - apply (proj1 (handleSubmit_blank_or_processed Sample.runtime []
                    {| AINavigatorEvents.state :=
                         AINavigatorEvents.state AINavigatorEvents.initial;
                       AINavigatorEvents.query := "  " |})).
    reflexivity.
  - split; [reflexivity|].
    apply (proj2 (handleSubmit_blank_or_processed Sample.runtime []
                    {| AINavigatorEvents.state :=
                         AINavigatorEvents.state AINavigatorEvents.initial;
                       AINavigatorEvents.query := " ok " |})).
    reflexivity.
Defined.

(** ** Invariants of the widget *)

Section WidgetInvariant.
Import JS CampusData AINavigator AINavigatorEvents.
Variable M : MathRuntime.
Variable locations : list Location.







End WidgetInvariant.



(** ** The number of directions *)

Section DirectionsLength.
Import JS PathNetwork.
Variable M : MathRuntime.
Variable Number_toString : number -> string.

Lemma generateDirections_plain_length (path : list PathNode) :
  (2 <= List.length path)%nat ->
  List.length (generateDirections M Number_toString path "faculty")
  = (List.length path + 2)%nat.
Proof.
  intros Hlen. destruct path as [|a [|b rest]]; simpl in Hlen; try lia.
  unfold generateDirections. cbn [List.length]. rewrite length_app.
  rewrite (segments_plain_length M Number_toString "faculty" _ (faculty_no_tip _)).
  cbn [List.length]. lia.
Qed.

Lemma insert_tip_length (tip : option (nat * string)) (lines : list string) :
  List.length (Spec.insert_tip tip lines)
  = (List.length lines + match tip with Some _ => 1 | None => 0 end)%nat.
Proof.
  destruct tip as [[k t]|]; cbn [Spec.insert_tip]; [|lia].
  rewrite length_app. cbn [List.length].
  rewrite <- (firstn_skipn k lines) at 3. rewrite length_app. lia.
Qed.

Lemma half_below (len : nat) :
  (2 <= len)%nat -> (len / 2 <? len - 1)%nat = (3 <=? len)%nat.
Proof.
  intros H. pose proof (Nat.div_mod_eq len 2) as Hd.
  pose proof (Nat.mod_upper_bound len 2 ltac:(lia)) as Hm.
  destruct (Nat.leb_spec 3 len); [apply Nat.ltb_lt|apply Nat.ltb_ge]; lia.
Qed.

End DirectionsLength.

(** X9: on a path of n nodes, n at least 2, [generateDirections] returns n + 2
    lines (the opening line, n - 1 segment lines, the arrival line and the
    total), and one more, the tip, for the personas [new-student] and
    [cat-fearful] and, when n is at least 3, for [cat-lover].  The first
    line names the first node, the line before the last names the last
    node. *)
Theorem generateDirections_length :
  forall (M : JS.MathRuntime) (Number_toString : JS.number -> string)
         (path : list PathNetwork.PathNode) (persona : string),
    (2 <= List.length path)%nat ->
    let tipped :=
      ((persona =? "new-student") || (persona =? "cat-fearful")
       || (persona =? "cat-lover") && (3 <=? List.length path)%nat)%string in
    List.length (PathNetwork.generateDirections M Number_toString path persona)
    = (List.length path + 2 + if tipped then 1 else 0)%nat
    /\ exists first rest middle total,
         path = first :: rest
         /\ PathNetwork.generateDirections M Number_toString path persona
            = ("Start at " ++ PathNetwork.name first)%string
                :: middle
                ++ [ ("Arrive at " ++ PathNetwork.name (List.last rest first))%string;
                     total ].
Proof.
  intros M Number_toString path persona Hlen tipped. split.
  - rewrite (generateDirections_insert_tip M Number_toString path persona Hlen).
    rewrite insert_tip_length, (generateDirections_plain_length M Number_toString path Hlen).
    f_equal. unfold tipped, Spec.tip_of, Spec.tip_index.
    destruct (persona =? "new-student")%string.
    + replace (0 <? List.length path - 1)%nat with true
        by (symmetry; apply Nat.ltb_lt; lia).
      reflexivity.
    + destruct (persona =? "cat-lover")%string eqn:Hc.
      * rewrite (half_below _ Hlen).
        assert ((persona =? "cat-fearful")%string = false) as ->.
        { apply String.eqb_eq in Hc. now subst persona. }
        cbn [orb andb]. now destruct (3 <=? List.length path)%nat.
      * destruct (persona =? "cat-fearful")%string; [|reflexivity].
        replace (0 <? List.length path - 1)%nat with true
          by (symmetry; apply Nat.ltb_lt; lia).
        reflexivity.
  - destruct path as [|a [|b rest]]; simpl in Hlen; try lia.
    exists a, (b :: rest). do 2 eexists. split; [reflexivity|].
    unfold PathNetwork.generateDirections. reflexivity.
Qed.

Lemma generateDirections_length_witness :
  (2 <= List.length [Sample.nodeA; Sample.nodeB; Sample.nodeA])%nat
  /\ List.length (PathNetwork.generateDirections Sample.runtime Sample.Number_toString
                    [Sample.nodeA; Sample.nodeB; Sample.nodeA] "cat-lover") = 6%nat.
Proof.
  split; [simpl; lia|].
  apply (proj1 (generateDirections_length Sample.runtime Sample.Number_toString
                  [Sample.nodeA; Sample.nodeB; Sample.nodeA] "cat-lover"
                  ltac:(simpl; lia))).
Defined.

(** ** The direction of a bearing between two places *)

Section BearingDirection.
Import JS.

Lemma below_finite (b x : number) :
  leb zero b = true -> ltb b x = true -> is_finite b = true.
Proof.
  destruct b as [s|[]| |s m e]; try reflexivity; try discriminate.
  intros _ H. destruct x as [sx|[]| |[] mx ex]; discriminate.
Qed.

Lemma nth_error_directions (k : Z) :
  0 <= k < 8 ->
  exists label,
    nth_error PathNetwork.directions (Z.to_nat k) = Some label
    /\ In label PathNetwork.directions.
Proof.
  intros Hk.
  destruct (nth_error PathNetwork.directions (Z.to_nat k)) as [label|] eqn:E.
  - exists label. split; [reflexivity|]. now apply nth_error_In in E.
  - exfalso. apply nth_error_None in E. simpl in E. lia.
Qed.

End BearingDirection.

(** X10: between two places on the globe (latitudes between -90 and 90,
    longitudes between -180 and 180) the direction that
    [generateDirections] prints is one of the eight compass labels, never
    [undefined]: [bearingToDirection] is defined on every bearing that
    [calculateBearing] returns there. *)
Theorem direction_between_places :
  forall M : JS.MathRuntime,
    Spec.unit_range (JS.Math_sin M) -> Spec.unit_range (JS.Math_cos M) ->
    Spec.atan2_range M ->
    forall lat1 lng1 lat2 lng2 : JS.number,
      JS.valid lat1 = true -> JS.valid lng1 = true ->
      JS.valid lat2 = true -> JS.valid lng2 = true ->
      JS.leb (SFabs lat1) (JS.of_Z 90) = true ->
      JS.leb (SFabs lng1) (JS.of_Z 180) = true ->
      JS.leb (SFabs lat2) (JS.of_Z 90) = true ->
      JS.leb (SFabs lng2) (JS.of_Z 180) = true ->
      exists label,
        PathNetwork.bearingToDirection
          (PathNetwork.calculateBearing M lat1 lng1 lat2 lng2) = Some label
        /\ In label ["north"; "northeast"; "east"; "southeast";
                     "south"; "southwest"; "west"; "northwest"]%string
        /\ PathNetwork.show_direction
             (PathNetwork.bearingToDirection
                (PathNetwork.calculateBearing M lat1 lng1 lat2 lng2)) = label.
Proof.
  intros M Hsin Hcos Hatan lat1 lng1 lat2 lng2 V1 V2 V3 V4 B1 B2 B3 B4.
  destruct (calculateBearing_in_range M Hsin Hcos Hatan lat1 lng1 lat2 lng2
              V1 V2 V3 V4 B1 B2 B3 B4) as (Hv & H0 & H360).
  pose proof (below_finite _ _ H0 H360) as Hf.
  rewrite (bearingToDirection_index _ Hv Hf H0).
  destruct (nth_error_directions
              (Spec.direction_index (PathNetwork.calculateBearing M lat1 lng1 lat2 lng2)))
    as (label & Hl & Hin).
  { apply Z.mod_pos_bound. lia. }
  exists label. rewrite Hl. repeat split; [exact Hin].
Qed.

Lemma direction_between_places_witness :
  exists label,
    PathNetwork.bearingToDirection
      (PathNetwork.calculateBearing Sample.runtime
         (CampusData.lat Sample.library) (CampusData.lng Sample.library)
         (CampusData.lat Sample.canteen) (CampusData.lng Sample.canteen)) = Some label
    /\ In label ["north"; "northeast"; "east"; "southeast";
                 "south"; "southwest"; "west"; "northwest"]%string
    /\ PathNetwork.show_direction
         (PathNetwork.bearingToDirection
            (PathNetwork.calculateBearing Sample.runtime
               (CampusData.lat Sample.library) (CampusData.lng Sample.library)
               (CampusData.lat Sample.canteen) (CampusData.lng Sample.canteen))) = label.
Proof.
  apply (direction_between_places Sample.runtime
           sample_sin_range sample_cos_range sample_atan2_range);
    reflexivity.
Defined.

(** ** The route on the map *)

Ltac map_fields :=
  cbv [CampusMap.setCurrentDirections CampusMap.set_directionMarkersRef
       CampusMap.set_routeLayerRef CampusMap.set_view CampusMap.set_markersRef
       CampusMap.set_highlightedMarkerRef CampusMap.set_popup CampusMap.set_clock
       CampusMap.set_timers CampusMap.set_mapRef CampusMap.set_leafletLoaded
       CampusMap.setFromLocation CampusMap.setSelectedLocation
       CampusMap.setSelectedPersona CampusMap.setTimeout
       CampusMap.leafletLoaded CampusMap.mapRef CampusMap.view CampusMap.markersRef
       CampusMap.routeLayerRef CampusMap.directionMarkersRef
       CampusMap.highlightedMarkerRef CampusMap.popup CampusMap.fromLocation
       CampusMap.selectedLocation CampusMap.selectedPersona
       CampusMap.currentDirections CampusMap.clock CampusMap.timers].

Ltac map_simpl :=
  cbn [CampusMap.setCurrentDirections CampusMap.set_directionMarkersRef
       CampusMap.set_routeLayerRef CampusMap.set_view CampusMap.set_markersRef
       CampusMap.set_highlightedMarkerRef CampusMap.set_popup CampusMap.set_clock
       CampusMap.set_timers CampusMap.set_mapRef CampusMap.set_leafletLoaded
       CampusMap.setFromLocation CampusMap.setSelectedLocation
       CampusMap.setSelectedPersona CampusMap.setTimeout
       CampusMap.leafletLoaded CampusMap.mapRef CampusMap.view CampusMap.markersRef
       CampusMap.routeLayerRef CampusMap.directionMarkersRef
       CampusMap.highlightedMarkerRef CampusMap.popup CampusMap.fromLocation
       CampusMap.selectedLocation CampusMap.selectedPersona
       CampusMap.currentDirections CampusMap.clock CampusMap.timers].

Section Route.
Import JS CampusData CampusMap.
Variable M : MathRuntime.
Variable Number_toString : number -> string.
Variable locations : list Location.

Lemma eqb_empty (s : string) : s <> EmptyString -> (s =? "")%string = false.
Proof. intros H. now apply String.eqb_neq. Qed.

(** The state after the route effect has found a path. *)
Lemma routeEffect_found (s : Map) (a b : Location) :
  mapRef s = true -> leafletLoaded s = true ->
  fromLocation s <> EmptyString -> selectedLocation s <> EmptyString ->
  find (fun loc => String.eqb (name loc) (fromLocation s)) locations = Some a ->
  find (fun loc => String.eqb (name loc) (selectedLocation s)) locations = Some b ->
  let path :=
    [ {| PathNetwork.id := "start"; PathNetwork.lat := lat a; PathNetwork.lng := lng a;
         PathNetwork.name := fromLocation s; PathNetwork.type := PathNetwork.location |};
      {| PathNetwork.id := "mid";
         PathNetwork.lat := ((lat a + lat b) / of_Z 2)%js;
         PathNetwork.lng := ((lng a + lng b) / of_Z 2)%js;
         PathNetwork.name := "Midpoint"; PathNetwork.type := PathNetwork.waypoint |};
      {| PathNetwork.id := "end"; PathNetwork.lat := lat b; PathNetwork.lng := lng b;
         PathNetwork.name := selectedLocation s;
         PathNetwork.type := PathNetwork.location |} ] in
  let points :=
    [ (lat a, lng a);
      (((lat a + lat b) / of_Z 2)%js, ((lng a + lng b) / of_Z 2)%js);
      (lat b, lng b) ] in
  routeEffect M Number_toString locations s
  = set_directionMarkersRef
      [ {| position := (lat a, lng a); label := 1;
           border := personaColors (selectedPersona s) |};
        {| position := (lat b, lng b); label := 3;
           border := personaColors (selectedPersona s) |} ]
      (set_view (Some (fitBounds points))
         (set_routeLayerRef
            (Some {| latlngs := points; color := personaColors (selectedPersona s) |})
            (setCurrentDirections
               (PathNetwork.generateDirections M Number_toString path
                  (persona_value (selectedPersona s))) s))).
Proof.
  intros Hm Hl Hf Ht Ha Hb path points. unfold routeEffect.
  rewrite Hm, Hl, (eqb_empty _ Hf), (eqb_empty _ Ht). cbn [negb orb].
  unfold PathNetwork.findPath. rewrite Ha, Hb. reflexivity.
Qed.

(** The directions for a path of three nodes, persona by persona. *)
Lemma generateDirections_three (n1 n2 n3 : PathNetwork.PathNode) (p : Persona) :
  let d1 := PathNetwork.calculateDistance M
              (PathNetwork.lat n1) (PathNetwork.lng n1)
              (PathNetwork.lat n2) (PathNetwork.lng n2) in
  let d2 := PathNetwork.calculateDistance M
              (PathNetwork.lat n2) (PathNetwork.lng n2)
              (PathNetwork.lat n3) (PathNetwork.lng n3) in
  let b1 := PathNetwork.calculateBearing M
              (PathNetwork.lat n1) (PathNetwork.lng n1)
              (PathNetwork.lat n2) (PathNetwork.lng n2) in
  let b2 := PathNetwork.calculateBearing M
              (PathNetwork.lat n2) (PathNetwork.lng n2)
              (PathNetwork.lat n3) (PathNetwork.lng n3) in
  let opening := ("Start at " ++ PathNetwork.name n1)%string in
  let head :=
    ("Head " ++ PathNetwork.show_direction (PathNetwork.bearingToDirection b1)
       ++ " for " ++ Number_toString (Math_round d1) ++ "m")%string in
  let continue :=
    ("Continue " ++ PathNetwork.show_direction (PathNetwork.bearingToDirection b2)
       ++ " for " ++ Number_toString (Math_round d2) ++ "m to reach "
       ++ PathNetwork.name n3)%string in
  let closing := ("Arrive at " ++ PathNetwork.name n3)%string in
  let total :=
    ("📍 Total distance: "
       ++ Number_toString (Math_round (of_Z 0 + d1 + d2)%js) ++ "m")%string in
  PathNetwork.generateDirections M Number_toString [n1; n2; n3] (persona_value p)
  = match p with
    | faculty => [opening; head; continue; closing; total]
    | new_student =>
        [opening; head; PathNetwork.tip_new_student; continue; closing; total]
    | cat_lover =>
        [opening; head; continue; PathNetwork.tip_cat_lover; closing; total]
    | cat_fearful =>
        [opening; head; PathNetwork.tip_cat_fearful; continue; closing; total]
    end.
Proof.
  intros d1 d2 b1 b2 opening head continue closing total.
  unfold PathNetwork.generateDirections.
  cbn [PathNetwork.segments List.length List.last app PathNetwork.totalDistance
       PathNetwork.sumSegments].
  unfold PathNetwork.persona_tip, PathNetwork.segment_line.
  cbn [Nat.eqb Nat.div Nat.divmod Nat.sub fst andb].
  destruct p; reflexivity.
Qed.

End Route.

(** X11: when the map is ready and the start and the destination are names of
    registry locations, the route effect draws a polyline through three
    points (the start, the mean of the two places, the destination) in the
    persona's colour, fits the view to it, numbers the start 1 and the
    destination 3 (the midpoint gets no marker), and shows five directions,
    or six with the persona's tip: after the first segment for
    [new-student] and [cat-fearful], after the second for [cat-lover]. *)
Theorem routeEffect_draws_route :
  forall (M : JS.MathRuntime) (Number_toString : JS.number -> string)
         (locations : list CampusData.Location) (s : CampusMap.Map)
         (a b : CampusData.Location),
    CampusMap.mapRef s = true -> CampusMap.leafletLoaded s = true ->
    CampusMap.fromLocation s <> EmptyString ->
    CampusMap.selectedLocation s <> EmptyString ->
    Spec.first_named locations (CampusMap.fromLocation s) a ->
    Spec.first_named locations (CampusMap.selectedLocation s) b ->
    let s' := CampusMap.routeEffect M Number_toString locations s in
    let start := (CampusData.lat a, CampusData.lng a) in
    let mid :=
      (((CampusData.lat a + CampusData.lat b) / JS.of_Z 2)%js,
       ((CampusData.lng a + CampusData.lng b) / JS.of_Z 2)%js) in
    let destination := (CampusData.lat b, CampusData.lng b) in
    let colour := CampusMap.personaColors (CampusMap.selectedPersona s) in
    let d1 := PathNetwork.calculateDistance M (fst start) (snd start) (fst mid) (snd mid) in
    let d2 :=
      PathNetwork.calculateDistance M (fst mid) (snd mid)
        (fst destination) (snd destination) in
    let b1 := PathNetwork.calculateBearing M (fst start) (snd start) (fst mid) (snd mid) in
    let b2 :=
      PathNetwork.calculateBearing M (fst mid) (snd mid)
        (fst destination) (snd destination) in
    let opening := ("Start at " ++ CampusMap.fromLocation s)%string in
    let head :=
      ("Head " ++ PathNetwork.show_direction (PathNetwork.bearingToDirection b1)
         ++ " for " ++ Number_toString (JS.Math_round d1) ++ "m")%string in
    let continue :=
      ("Continue " ++ PathNetwork.show_direction (PathNetwork.bearingToDirection b2)
         ++ " for " ++ Number_toString (JS.Math_round d2) ++ "m to reach "
         ++ CampusMap.selectedLocation s)%string in
    let closing := ("Arrive at " ++ CampusMap.selectedLocation s)%string in
    let total :=
      ("📍 Total distance: "
         ++ Number_toString (JS.Math_round (JS.of_Z 0 + d1 + d2)%js) ++ "m")%string in
    CampusMap.routeLayerRef s'
    = Some {| CampusMap.latlngs := [start; mid; destination];
              CampusMap.color := colour |}
    /\ CampusMap.view s' = Some (CampusMap.fitBounds [start; mid; destination])
    /\ CampusMap.directionMarkersRef s'
       = [ {| CampusMap.position := start; CampusMap.label := 1;
              CampusMap.border := colour |};
           {| CampusMap.position := destination; CampusMap.label := 3;
              CampusMap.border := colour |} ]
    /\ CampusMap.currentDirections s'
       = match CampusMap.selectedPersona s with
         | CampusMap.faculty => [opening; head; continue; closing; total]
         | CampusMap.new_student =>
             [opening; head; PathNetwork.tip_new_student; continue; closing; total]
         | CampusMap.cat_lover =>
             [opening; head; continue; PathNetwork.tip_cat_lover; closing; total]
         | CampusMap.cat_fearful =>
             [opening; head; PathNetwork.tip_cat_fearful; continue; closing; total]
         end.
Proof.
  intros M Number_toString locations s a b Hm Hl Hf Ht Ha Hb.
  apply find_first_named in Ha. apply find_first_named in Hb.
  intros s'. unfold s'.
  rewrite (routeEffect_found M Number_toString locations s a b Hm Hl Hf Ht Ha Hb).
  rewrite (generateDirections_three M Number_toString).
  cbv zeta. repeat split.
Qed.

Lemma routeEffect_draws_route_witness :
  let s :=
    CampusMap.setSelectedLocation "Canteen"
      (CampusMap.setFromLocation "Library"
         (CampusMap.set_mapRef true
            (CampusMap.set_leafletLoaded true CampusMap.initial))) in
  List.length
    (CampusMap.currentDirections
       (CampusMap.routeEffect Sample.runtime Sample.Number_toString Sample.registry s))
  = 6%nat
  /\ CampusMap.directionMarkersRef
       (CampusMap.routeEffect Sample.runtime Sample.Number_toString Sample.registry s)
     = [ {| CampusMap.position :=
              (CampusData.lat Sample.library, CampusData.lng Sample.library);
            CampusMap.label := 1; CampusMap.border := "#f59e0b" |};
         {| CampusMap.position :=
              (CampusData.lat Sample.canteen, CampusData.lng Sample.canteen);
            CampusMap.label := 3; CampusMap.border := "#f59e0b" |} ].
Proof.
  intros s.
  assert (Ha : Spec.first_named Sample.registry (CampusMap.fromLocation s) Sample.library).
  { exists [], [Sample.canteen]. split; [reflexivity|]. split; [reflexivity|].
    intros x []. }
  assert (Hb : Spec.first_named Sample.registry (CampusMap.selectedLocation s)
                 Sample.canteen).
  { exists [Sample.library], []. split; [reflexivity|]. split; [reflexivity|].
    intros x [<-|[]]. discriminate. }
  destruct (routeEffect_draws_route Sample.runtime Sample.Number_toString
              Sample.registry s Sample.library Sample.canteen
              eq_refl eq_refl ltac:(discriminate) ltac:(discriminate) Ha Hb)
    as (_ & _ & Hmarkers & Hdirections).
  split; [rewrite Hdirections; reflexivity | exact Hmarkers].
Defined.

(** X12: without a start or a destination (or before the map exists) the route
    effect removes the route, its markers and the directions.  With both
    chosen but one of them not the name of a registry location it shows
    the single line that no route was found, and leaves the route and the
    markers drawn before on the map. *)
Theorem routeEffect_without_route :
  forall (M : JS.MathRuntime) (Number_toString : JS.number -> string)
         (locations : list CampusData.Location) (s : CampusMap.Map),
    let s' := CampusMap.routeEffect M Number_toString locations s in
    ((CampusMap.mapRef s = false \/ CampusMap.leafletLoaded s = false
      \/ CampusMap.fromLocation s = EmptyString
      \/ CampusMap.selectedLocation s = EmptyString) ->
     CampusMap.currentDirections s' = []
     /\ CampusMap.routeLayerRef s' = None
     /\ CampusMap.directionMarkersRef s' = [])
    /\ (CampusMap.mapRef s = true -> CampusMap.leafletLoaded s = true ->
        CampusMap.fromLocation s <> EmptyString ->
        CampusMap.selectedLocation s <> EmptyString ->
        (~ Spec.named locations (CampusMap.fromLocation s)
         \/ ~ Spec.named locations (CampusMap.selectedLocation s)) ->
        CampusMap.currentDirections s' = ["No route found between these locations"%string]
        /\ CampusMap.routeLayerRef s' = CampusMap.routeLayerRef s
        /\ CampusMap.directionMarkersRef s' = CampusMap.directionMarkersRef s
        /\ CampusMap.view s' = CampusMap.view s).
Proof.
  intros M Number_toString locations s s'. unfold s', CampusMap.routeEffect. split.
  - intros H.
    assert (negb (CampusMap.mapRef s) || (CampusMap.fromLocation s =? "")%string
            || (CampusMap.selectedLocation s =? "")%string
            || negb (CampusMap.leafletLoaded s) = true) as ->.
    { destruct H as [-> | [-> | [-> | ->]]]; cbn [negb orb];
        rewrite ?orb_true_r; reflexivity. }
    repeat split.
  - intros Hm Hl Hf Ht Hn.
    rewrite Hm, Hl, (eqb_empty _ Hf), (eqb_empty _ Ht). cbn [negb orb].
    assert (PathNetwork.findPath locations (CampusMap.fromLocation s)
              (CampusMap.selectedLocation s) = None) as ->.
    { unfold PathNetwork.findPath.
      destruct Hn as [Hn|Hn]; apply find_named_none in Hn; rewrite Hn;
        [reflexivity|].
      destruct (find (fun loc => String.eqb (CampusData.name loc)
                          (CampusMap.fromLocation s)) locations); reflexivity. }
    repeat split.
Qed.

Lemma routeEffect_without_route_witness :
  let s :=
    CampusMap.setSelectedLocation "Canteen"
      (CampusMap.setFromLocation "Library"
         (CampusMap.set_mapRef true
            (CampusMap.set_leafletLoaded true CampusMap.initial))) in
  let drawn :=
    CampusMap.routeEffect Sample.runtime Sample.Number_toString Sample.registry s in
  let s' :=
    CampusMap.routeEffect Sample.runtime Sample.Number_toString Sample.registry
      (CampusMap.setSelectedLocation "Gym" drawn) in
  CampusMap.currentDirections s' = ["No route found between these locations"%string]
  /\ CampusMap.routeLayerRef s' = CampusMap.routeLayerRef drawn
  /\ CampusMap.routeLayerRef drawn <> None.
Proof.
  intros s drawn s'.
  destruct (proj2 (routeEffect_without_route Sample.runtime Sample.Number_toString
                     Sample.registry (CampusMap.setSelectedLocation "Gym" drawn))
              eq_refl eq_refl ltac:(discriminate) ltac:(discriminate))
    as (Hd & Hr & _).
  - right. intros (l & [<-|[<-|[]]] & Hn); discriminate.
  - split; [exact Hd|]. split; [exact Hr|]. discriminate.
Defined.

(** ** From the navigator to the map *)

Section Highlight.
Import JS CampusData CampusMap.

Lemma findIndex_first {A : Type} (f : A -> bool) (before after : list A) (x : A) :
  f x = true -> (forall y, In y before -> f y = false) ->
  findIndex f (before ++ x :: after) = Some (List.length before).
Proof.
  intros Hx. induction before as [|y before IH]; intros Hb; cbn [app findIndex List.length].
  - now rewrite Hx.
  - rewrite (Hb y (or_introl eq_refl)), IH; [reflexivity|].
    intros z Hz. apply Hb. now right.
Qed.

Lemma findIndex_none {A : Type} (f : A -> bool) (l : list A) :
  (forall y, In y l -> f y = false) -> findIndex f l = None.
Proof.
  induction l as [|y l IH]; intros H; [reflexivity|]. cbn [findIndex].
  rewrite (H y (or_introl eq_refl)), IH; [reflexivity|].
  intros z Hz. apply H. now right.
Qed.

Lemma nth_error_update {A : Type} (f : A -> A) (l : list A) :
  forall i j,
    nth_error (update i f l) j
    = if (j =? i)%nat then option_map f (nth_error l j) else nth_error l j.
Proof.
  induction l as [|x l IH]; intros i j.
  - destruct i as [|i], j as [|j]; cbn [update nth_error Nat.eqb option_map];
      try reflexivity. now destruct (j =? i)%nat.
  - destruct i as [|i], j as [|j]; cbn [update nth_error Nat.eqb option_map];
      try reflexivity. apply IH.
Qed.

Lemma highlightEffect_keeps (locations : list Location) (h : option Location) (s : Map) :
  mapRef (highlightEffect locations h s) = mapRef s
  /\ leafletLoaded (highlightEffect locations h s) = leafletLoaded s
  /\ fromLocation (highlightEffect locations h s) = fromLocation s
  /\ selectedPersona (highlightEffect locations h s) = selectedPersona s
  /\ routeLayerRef (highlightEffect locations h s) = routeLayerRef s.
Proof.
  unfold highlightEffect. destruct h as [h|]; [|repeat split].
  destruct (negb (mapRef s) || negb (leafletLoaded s)); [repeat split|].
  destruct (findIndex _ locations) as [i|]; [|repeat split].
  destruct (nth_error (markersRef s) i); [|repeat split].
  map_fields. destruct s as [? ? ? ? ? ? [previous|] ? ? ? ? ? ? ?]; repeat split.
Qed.

End Highlight.

(** X13: the highlight effect does nothing before the map exists, and nothing
    for a location whose name is not in the registry.  For a location
    whose name is first borne by the registry entry of index i, whose
    marker exists, it makes that location the destination, gives marker i
    the pulsing icon of the location, remembers it as the highlighted
    marker and sets two timers: one opens the popup after 1.5 s, one resets
    the icon after 4.5 s.  The marker highlighted before is reset at once,
    to the normal icon not of its own location but of the newly
    highlighted one. *)
Theorem highlightEffect_marker :
  forall (locations : list CampusData.Location) (h : CampusData.Location)
         (s : CampusMap.Map),
    let s' := CampusMap.highlightEffect locations (Some h) s in
    ((CampusMap.mapRef s = false \/ CampusMap.leafletLoaded s = false
      \/ ~ Spec.named locations (CampusData.name h)) -> s' = s)
    /\ (forall before a after,
          CampusMap.mapRef s = true -> CampusMap.leafletLoaded s = true ->
          locations = before ++ a :: after ->
          CampusData.name a = CampusData.name h ->
          (forall x, In x before -> CampusData.name x <> CampusData.name h) ->
          (List.length before < List.length (CampusMap.markersRef s))%nat ->
          let i := List.length before in
          CampusMap.selectedLocation s' = CampusData.name h
          /\ CampusMap.highlightedMarkerRef s' = Some i
          /\ nth_error (CampusMap.markersRef s') i
             = option_map (CampusMap.setIcon (CampusMap.pulseIcon h))
                 (nth_error (CampusMap.markersRef s) i)
          /\ (forall j, j <> i ->
                nth_error (CampusMap.markersRef s') j
                = if match CampusMap.highlightedMarkerRef s with
                     | Some previous => (j =? previous)%nat
                     | None => false
                     end
                  then option_map (CampusMap.setIcon (CampusMap.normalIcon h))
                         (nth_error (CampusMap.markersRef s) j)
                  else nth_error (CampusMap.markersRef s) j)
          /\ CampusMap.timers s'
             = CampusMap.timers s
                 ++ [ (CampusMap.clock s + 1500, CampusMap.openPopup i);
                      (CampusMap.clock s + 4500,
                       CampusMap.resetIcon i (CampusMap.normalIcon h)) ]).
Proof.
  intros locations h s s'. unfold s', CampusMap.highlightEffect. split.
  - intros [-> | [-> | Hn]]; [reflexivity|now rewrite orb_true_r|].
    destruct (negb (CampusMap.mapRef s) || negb (CampusMap.leafletLoaded s));
      [reflexivity|].
    rewrite findIndex_none; [reflexivity|].
    intros y Hy. apply String.eqb_neq. intros E. apply Hn. now exists y.
  - intros before a after Hm Hl Hlocs Hname Hbefore Hlen.
    rewrite Hm, Hl. cbn [negb orb]. rewrite Hlocs.
    rewrite (findIndex_first _ before after a);
      [|now apply String.eqb_eq|intros y Hy; apply String.eqb_neq; now apply Hbefore].
    set (i := List.length before) in *.
    destruct (nth_error (CampusMap.markersRef s) i) as [m|] eqn:Hi;
      [|apply nth_error_None in Hi; lia].
    destruct s as [ll mr vw ms rl dm [previous|] pp fl sl sp cd ck tm];
      map_fields; cbv [CampusMap.markersRef] in Hi.
    + split; [reflexivity|]. split; [reflexivity|]. split.
      * rewrite !nth_error_update, Nat.eqb_refl.
        destruct (Nat.eqb_spec i previous) as [E|E]; rewrite Hi; cbn [option_map];
          reflexivity.
      * split.
        -- intros j Hj. rewrite !nth_error_update.
           replace (j =? i)%nat with false by (symmetry; now apply Nat.eqb_neq).
           reflexivity.
        -- now rewrite <- app_assoc.
    + split; [reflexivity|]. split; [reflexivity|]. split.
      * rewrite nth_error_update, Nat.eqb_refl. now rewrite Hi.
      * split.
        -- intros j Hj. rewrite nth_error_update.
           replace (j =? i)%nat with false by (symmetry; now apply Nat.eqb_neq).
           reflexivity.
        -- now rewrite <- app_assoc.
Qed.

(** ** Timers *)

Section Timers.
Import JS CampusMap.
Variable locations : list CampusData.Location.

Let earlier (a b : Z * Task) : Z := fst a - fst b.

Lemma sort_insert_In {A : Type} (cmp : A -> A -> Z) (x y : A) (l : list A) :
  In y (sort_insert cmp x l) <-> y = x \/ In y l.
Proof.
  induction l as [|z l IH]; cbn [sort_insert].
  - simpl. intuition.
  - destruct (cmp x z <=? 0); simpl; [intuition|]. rewrite IH. simpl. intuition.
Qed.

Lemma sort_In {A : Type} (cmp : A -> A -> Z) (y : A) (l : list A) :
  In y (sort cmp l) <-> In y l.
Proof.
  induction l as [|z l IH]; cbn [sort]; [reflexivity|].
  rewrite sort_insert_In, IH. simpl. intuition.
Qed.

Lemma pending_sort (l : list (Z * Task)) : pending (sort earlier l) = pending l.
Proof.
  induction l as [|t l IH]; cbn [sort]; [reflexivity|].
  cbn [pending fold_right]. fold (pending l). rewrite <- IH.
  generalize (sort earlier l) as r. induction r as [|u r IHr]; cbn [sort_insert].
  - reflexivity.
  - destruct (earlier t u <=? 0); cbn [pending fold_right]; [reflexivity|].
    fold (pending (sort_insert earlier t r)). fold (pending r). rewrite IHr. lia.
Qed.

(** The head of the sorted timers is due no later than the others. *)
Lemma sort_head_least (l : list (Z * Task)) (t : Z * Task) (later : list (Z * Task)) :
  sort earlier l = t :: later -> forall x, In x l -> fst t <= fst x.
Proof.
  intros Hs x Hx. apply (sort_In earlier) in Hx. rewrite Hs in Hx.
  assert (forall r, match sort earlier r with
                    | [] => True
                    | u :: rest => forall y, In y rest -> fst u <= fst y
                    end) as Hleast.
  { induction r as [|z r IHr]; cbn [sort]; [exact I|].
    destruct (sort earlier r) as [|u rest]; cbn [sort_insert].
    - intros y [].
    - unfold earlier at 1. destruct (Z.leb_spec (fst z - fst u) 0).
      + intros y [<-|Hy]; [lia|]. specialize (IHr y Hy). lia.
      + intros y Hy. apply sort_insert_In in Hy. destruct Hy as [->|Hy]; [lia|].
        now apply IHr. }
  specialize (Hleast l). rewrite Hs in Hleast.
  destruct Hx as [<-|Hx]; [lia|]. now apply Hleast.
Qed.

Lemma pending_app (l1 l2 : list (Z * Task)) :
  pending (l1 ++ l2) = (pending l1 + pending l2)%nat.
Proof.
  induction l1 as [|t l1 IH]; [reflexivity|].
  cbn [app pending fold_right]. fold (pending (l1 ++ l2)). fold (pending l1).
  rewrite IH. lia.
Qed.

Lemma runTask_pending (task : Task) (s : Map) :
  pending (timers (runTask locations task s))
  = (pending (timers s) + spawns task)%nat.
Proof.
  destruct task; unfold runTask; map_fields; destruct s; cbn [spawns];
    rewrite ?pending_app; cbn [pending fold_right spawns snd]; lia.
Qed.

(** The bound is large enough: once the timers have run, every timer that
    is still pending is due later. *)
Lemma runTimers_all_due (target : Z) :
  forall (n : nat) (s : Map),
    (pending (timers s) <= n)%nat ->
    forall t, In t (timers (runTimers locations n target s)) -> target < fst t.
Proof.
  induction n as [|n IH]; intros s Hn t; cbn [runTimers].
  - destruct (timers s) as [|u r]; [intros []|].
    cbn [pending fold_right] in Hn. lia.
  - fold earlier.
    destruct (sort earlier (timers s)) as [|u later] eqn:Hs.
    + intros Ht. apply (sort_In earlier) in Ht. now rewrite Hs in Ht.
    + destruct (Z.leb_spec (fst u) target) as [Hdue|Hlate].
      * apply IH. rewrite runTask_pending.
        pose proof (pending_sort (timers s)) as Hp. rewrite Hs in Hp.
        cbn [pending fold_right] in Hp. fold (pending later) in Hp.
        destruct s; map_fields; cbv [timers] in Hp, Hn. lia.
      * intros Ht. pose proof (sort_head_least (timers s) u later Hs t Ht). lia.
Qed.

Lemma runTimers_step (n : nat) (target : Z) (s : Map) (t : Z * Task)
    (later : list (Z * Task)) :
  sort (fun a b => fst a - fst b) (timers s) = t :: later -> fst t <= target ->
  runTimers locations (S n) target s
  = runTimers locations n target
      (runTask locations (snd t) (set_clock (fst t) (set_timers later s))).
Proof.
  intros Hs Ht. cbn [runTimers]. rewrite Hs.
  now replace (fst t <=? target) with true by (symmetry; apply Z.leb_le; exact Ht).
Qed.

Lemma elapse_runs_due (delay : Z) (s : Map) :
  forall t, In t (timers (elapse locations delay s)) -> clock s + delay < fst t.
Proof.
  intros t Ht. unfold elapse in Ht.
  apply (runTimers_all_due (clock s + delay) (pending (timers s)) s (le_n _)).
  revert Ht. generalize (runTimers locations (pending (timers s)) (clock s + delay) s).
  intros r. now destruct r.
Qed.

End Timers.

Lemma highlightEffect_marker_witness :
  let s := CampusMap.runTask Sample.registry CampusMap.createMap
             (CampusMap.set_leafletLoaded true CampusMap.initial) in
  let s' := CampusMap.highlightEffect Sample.registry (Some Sample.canteen) s in
  CampusMap.selectedLocation s' = "Canteen"%string
  /\ CampusMap.highlightedMarkerRef s' = Some 1%nat
  /\ nth_error (CampusMap.markersRef s') 1
     = Some {| CampusMap.location := Sample.canteen;
               CampusMap.markerIcon := CampusMap.pulseIcon Sample.canteen |}.
Proof.
  intros s s'.
  destruct (proj2 (highlightEffect_marker Sample.registry Sample.canteen s)
              [Sample.library] Sample.canteen [] eq_refl eq_refl eq_refl eq_refl)
    as (H1 & H2 & H3 & _).
  - intros x [<-|[]]. discriminate.
  - simpl. lia.
  - split; [exact H1|]. split; [exact H2|]. exact H3.
Defined.

(** ** The icon of the marker highlighted before *)

Section StaleIcon.
Import JS CampusData CampusMap.
Variable locations : list Location.

(** The state after the highlight effect has found the marker. *)
Lemma highlightEffect_found (h : Location) (s : Map) (before after : list Location)
    (a : Location) :
  mapRef s = true -> leafletLoaded s = true ->
  locations = before ++ a :: after -> name a = name h ->
  (forall x, In x before -> name x <> name h) ->
  (List.length before < List.length (markersRef s))%nat ->
  let i := List.length before in
  let reset (ms : list Marker) :=
    match highlightedMarkerRef s with
    | Some previous => update previous (setIcon (normalIcon h)) ms
    | None => ms
    end in
  highlightEffect locations (Some h) s
  = setSelectedLocation (name h)
      (set_timers (timers s ++ [ (clock s + 1500, openPopup i);
                                 (clock s + 4500, resetIcon i (normalIcon h)) ])
         (set_highlightedMarkerRef (Some i)
            (set_markersRef (update i (setIcon (pulseIcon h)) (reset (markersRef s)))
               (set_view (Some (flyTo (lat h, lng h) 18)) s)))).
Proof.
  intros Hm Hl Hlocs Hname Hbefore Hlen i reset. unfold highlightEffect.
  rewrite Hm, Hl. cbn [negb orb]. rewrite Hlocs.
  rewrite (findIndex_first _ before after a);
    [|now apply String.eqb_eq|intros y Hy; apply String.eqb_neq; now apply Hbefore].
  fold i.
  destruct (nth_error (markersRef s) i) as [m|] eqn:Hi;
    [|apply nth_error_None in Hi; unfold i in Hi; lia].
  unfold reset.
  destruct s as [ll mr vw ms rl dm [previous|] pp fl sl sp cd ck tm];
    map_fields; now rewrite <- app_assoc.
Qed.

End StaleIcon.

(** X14: once the timers of a highlight have run (4.5 s later, no other timer
    pending), the highlighted marker i wears the normal icon of the
    highlighted location again and its popup is open; but the marker j
    that was highlighted before, reset when the highlight moved, wears
    that same icon too: the glyph and the colour of the newly highlighted
    location, not those of its own. *)
Theorem highlight_leaves_icon_on_previous_marker :
  forall (locations : list CampusData.Location) (h : CampusData.Location)
         (s : CampusMap.Map) (before after : list CampusData.Location)
         (a : CampusData.Location) (j : nat),
    CampusMap.mapRef s = true -> CampusMap.leafletLoaded s = true ->
    locations = before ++ a :: after ->
    CampusData.name a = CampusData.name h ->
    (forall x, In x before -> CampusData.name x <> CampusData.name h) ->
    (List.length before < List.length (CampusMap.markersRef s))%nat ->
    CampusMap.timers s = [] ->
    CampusMap.highlightedMarkerRef s = Some j ->
    j <> List.length before ->
    let i := List.length before in
    let s' :=
      CampusMap.elapse locations 4500
        (CampusMap.highlightEffect locations (Some h) s) in
    nth_error (CampusMap.markersRef s') i
    = option_map (CampusMap.setIcon (CampusMap.normalIcon h))
        (nth_error (CampusMap.markersRef s) i)
    /\ nth_error (CampusMap.markersRef s') j
       = option_map (CampusMap.setIcon (CampusMap.normalIcon h))
           (nth_error (CampusMap.markersRef s) j)
    /\ CampusMap.popup s' = Some i
    /\ CampusMap.timers s' = []
    /\ CampusMap.highlightedMarkerRef s' = Some i.
Proof.
  intros locations h s before after a j Hm Hl Hlocs Hname Hbefore Hlen Ht Hj Hij i s'.
  unfold s'.
  rewrite (highlightEffect_found locations h s before after a Hm Hl Hlocs Hname Hbefore Hlen).
  fold i. rewrite Ht, Hj. cbn [app]. unfold CampusMap.elapse. map_simpl.
  cbn [CampusMap.pending fold_right CampusMap.spawns snd Nat.add].
  rewrite (runTimers_step locations 1 (CampusMap.clock s + 4500) _
             (CampusMap.clock s + 1500, CampusMap.openPopup i)
             [(CampusMap.clock s + 4500,
               CampusMap.resetIcon i (CampusMap.normalIcon h))]);
    [| map_simpl; cbn [JS.sort JS.sort_insert fst snd];
       now replace (CampusMap.clock s + 1500 - (CampusMap.clock s + 4500) <=? 0)
         with true by (symmetry; apply Z.leb_le; lia)
     | cbn [fst]; lia ].
  cbn [fst snd CampusMap.runTask].
  rewrite (runTimers_step locations 0 (CampusMap.clock s + 4500) _
             (CampusMap.clock s + 4500,
              CampusMap.resetIcon i (CampusMap.normalIcon h)) []);
    [| map_simpl; reflexivity | cbn [fst]; lia ].
  cbn [fst snd CampusMap.runTask CampusMap.runTimers]. map_simpl.
  assert ((i =? j)%nat = false) as Eij by (apply Nat.eqb_neq; fold i in Hij; lia).
  assert ((j =? i)%nat = false) as Eji by (apply Nat.eqb_neq; fold i in Hij; lia).
  split; [|split; [|repeat split]].
  - rewrite !nth_error_update, Nat.eqb_refl, Eij.
    now destruct (nth_error (CampusMap.markersRef s) i).
  - rewrite !nth_error_update, Nat.eqb_refl, Eji. reflexivity.
Qed.

Lemma highlight_leaves_icon_on_previous_marker_witness :
  let created := CampusMap.runTask Sample.registry CampusMap.createMap
                   (CampusMap.set_leafletLoaded true CampusMap.initial) in
  let s := CampusMap.elapse Sample.registry 5000
             (CampusMap.highlightEffect Sample.registry (Some Sample.library) created) in
  let s' := CampusMap.elapse Sample.registry 4500
              (CampusMap.highlightEffect Sample.registry (Some Sample.canteen) s) in
  nth_error (CampusMap.markersRef created) 0
  = Some {| CampusMap.location := Sample.library;
            CampusMap.markerIcon :=
              {| CampusMap.background := Some "#3b82f6"%string;
                 CampusMap.glyph := "L"; CampusMap.size := 32;
                 CampusMap.pulse := false |} |}
  /\ nth_error (CampusMap.markersRef s') 0
     = Some {| CampusMap.location := Sample.library;
               CampusMap.markerIcon :=
                 {| CampusMap.background := Some "#f59e0b"%string;
                    CampusMap.glyph := "C"; CampusMap.size := 32;
                    CampusMap.pulse := false |} |}.
Proof.
  intros created s s'. split; [reflexivity|].
  destruct (highlight_leaves_icon_on_previous_marker Sample.registry Sample.canteen s
              [Sample.library] [] Sample.canteen 0%nat
              eq_refl eq_refl eq_refl eq_refl) as (_ & H & _).
  - intros x [<-|[]]. discriminate.
  - vm_compute. lia.
  - reflexivity.
  - reflexivity.
  - discriminate.
  - fold s' in H. rewrite H. reflexivity.
Defined.

(** ** From the answer to the route *)

Section AnswerToRoute.
Import JS CampusData CampusMap.

Lemma find_some_first_named (locations : list Location) (l : Location) :
  In l locations -> exists l', Spec.first_named locations (name l) l'.
Proof.
  intros Hin. destruct (find_named_some locations l Hin) as [l' H].
  exists l'. now apply find_first_named.
Qed.

Lemma highlightEffect_keeps_route (locations : list Location) (h : option Location)
    (s : Map) :
  directionMarkersRef (highlightEffect locations h s) = directionMarkersRef s
  /\ currentDirections (highlightEffect locations h s) = currentDirections s.
Proof.
  unfold highlightEffect. destruct h as [h|]; [|repeat split].
  destruct (negb (mapRef s) || negb (leafletLoaded s)); [repeat split|].
  destruct (findIndex _ locations) as [i|]; [|repeat split].
  destruct (nth_error (markersRef s) i); [|repeat split].
  map_fields. destruct s as [? ? ? ? ? ? [previous|] ? ? ? ? ? ? ?]; repeat split.
Qed.

End AnswerToRoute.

(** X15: a route requested by the navigator: when [processQuery] calls
    [onRouteRequest], the page passes the request, a new object, and the
    highlighted location to the map.  On a map that is ready, after the
    effects that React runs for these props (the highlight effect if the
    highlighted location is another one than before, the route-info
    effect, and then the route effect if the start or the destination has
    changed), the start and the destination are those of the request; if
    one of them differs from what it was, the route is drawn, as a
    polyline of three points with directions of five or six lines; if
    both are what they were, the route effect does not run, and the route
    layer, its step markers and the directions stay as they were, even
    when no route was drawn.  The registry names are assumed not to be
    empty. *)
Theorem answer_draws_route :
  forall (M : JS.MathRuntime) (Number_toString : JS.number -> string)
         (locations : list CampusData.Location)
         (st st' : AINavigator.State) (userQuery : string)
         (calls : list AINavigator.Callback) (from to : string)
         (page : Home.Page) (highlightChanged : bool) (s : CampusMap.Map),
    (forall l, In l locations -> CampusData.name l <> EmptyString) ->
    CampusMap.mapRef s = true -> CampusMap.leafletLoaded s = true ->
    AINavigator.processQuery M locations st userQuery = Some (st', calls) ->
    In (AINavigator.onRouteRequest from to) calls ->
    let page' := Home.calls page calls in
    let s' :=
      CampusMap.receiveProps M Number_toString locations
        (Home.highlightedLocation page') highlightChanged
        (Home.routeInfo page') true s in
    Home.routeInfo page' = Some (from, to)
    /\ (exists destination,
          Home.highlightedLocation page' = Some destination
          /\ CampusData.name destination = to)
    /\ CampusMap.fromLocation s' = from
    /\ CampusMap.selectedLocation s' = to
    /\ (CampusMap.fromLocation s <> from \/ CampusMap.selectedLocation s <> to ->
        (exists p1 p2 p3,
            CampusMap.routeLayerRef s'
            = Some {| CampusMap.latlngs := [p1; p2; p3];
                      CampusMap.color :=
                        CampusMap.personaColors (CampusMap.selectedPersona s) |})
        /\ (5 <= List.length (CampusMap.currentDirections s') <= 6)%nat)
    /\ (CampusMap.fromLocation s = from -> CampusMap.selectedLocation s = to ->
        CampusMap.routeLayerRef s' = CampusMap.routeLayerRef s
        /\ CampusMap.directionMarkersRef s' = CampusMap.directionMarkersRef s
        /\ CampusMap.currentDirections s' = CampusMap.currentDirections s).
Proof.
  intros M Number_toString locations st st' userQuery calls from to page
    highlightChanged s Hnames Hm Hl Hq Hin page' s'.
  assert (Hne : locations <> []) by (intros ->; discriminate).
  destruct (scoredLocations_head locations userQuery Hne)
    as (best & rest & Hs & Hbest & _).
  destruct (processQuery_cases M locations st userQuery best _ rest Hs)
    as (response & calls' & Hq' & Hcases).
  rewrite Hq in Hq'. injection Hq' as -> ->.
  destruct Hcases as [(_ & -> & _)|[(_ & -> & _)|(_ & la & lo & nearest & Hu & Hp & Hn & ->)]].
  - destruct Hin.
  - destruct Hin as [H|[]]. discriminate.
  - destruct Hin as [H|[H|[]]]; [|discriminate]. injection H as <- <-.
    destruct (findNearestLocation_some M la lo locations nearest Hn) as [Hnear _].
    destruct (find_some_first_named locations nearest Hnear) as [a Ha].
    destruct (find_some_first_named locations best Hbest) as [b Hb].
    unfold s', page', CampusMap.receiveProps.
    cbn [Home.calls fold_left Home.call Home.routeInfo Home.highlightedLocation].
    set (s1 := if highlightChanged
               then CampusMap.highlightEffect locations (Some best) s else s).
    assert (CampusMap.mapRef s1 = CampusMap.mapRef s
            /\ CampusMap.leafletLoaded s1 = CampusMap.leafletLoaded s
            /\ CampusMap.selectedPersona s1 = CampusMap.selectedPersona s
            /\ CampusMap.routeLayerRef s1 = CampusMap.routeLayerRef s
            /\ CampusMap.directionMarkersRef s1 = CampusMap.directionMarkersRef s
            /\ CampusMap.currentDirections s1 = CampusMap.currentDirections s)
      as (Km & Kl & Kp & Kr & Kd & Kc).
    { unfold s1. destruct highlightChanged; [|repeat split].
      destruct (highlightEffect_keeps locations (Some best) s)
        as (K1 & K2 & _ & K4 & K5).
      destruct (highlightEffect_keeps_route locations (Some best) s) as (K6 & K7).
      repeat split; assumption. }
    set (s2 := CampusMap.routeInfoEffect (Some (CampusData.name nearest, CampusData.name best)) s1).
    assert (CampusMap.mapRef s2 = true) as Hm2 by (rewrite <- Hm, <- Km; reflexivity).
    assert (CampusMap.leafletLoaded s2 = true) as Hl2 by (rewrite <- Hl, <- Kl; reflexivity).
    assert (CampusMap.fromLocation s2 = CampusData.name nearest) as Hf2 by reflexivity.
    assert (CampusMap.selectedLocation s2 = CampusData.name best) as Ht2 by reflexivity.
    assert (CampusMap.selectedPersona s2 = CampusMap.selectedPersona s) as Hp2
      by (rewrite <- Kp; reflexivity).
    assert (CampusMap.routeLayerRef s2 = CampusMap.routeLayerRef s) as Hr2
      by (rewrite <- Kr; reflexivity).
    assert (CampusMap.directionMarkersRef s2 = CampusMap.directionMarkersRef s) as Hd2
      by (rewrite <- Kd; reflexivity).
    assert (CampusMap.currentDirections s2 = CampusMap.currentDirections s) as Hc2
      by (rewrite <- Kc; reflexivity).
    split; [reflexivity|]. split; [now exists best|].
    set (r := CampusMap.routeEffect M Number_toString locations s2).
    assert (CampusMap.fromLocation r = CampusData.name nearest
            /\ CampusMap.selectedLocation r = CampusData.name best
            /\ (exists p1 p2 p3,
                   CampusMap.routeLayerRef r
                   = Some {| CampusMap.latlngs := [p1; p2; p3];
                             CampusMap.color :=
                               CampusMap.personaColors (CampusMap.selectedPersona s) |})
            /\ (5 <= List.length (CampusMap.currentDirections r) <= 6)%nat)
      as (Rf & Rt & Rl & Rc).
    { apply find_first_named in Ha. apply find_first_named in Hb.
      rewrite <- Hf2 in Ha. rewrite <- Ht2 in Hb. unfold r.
      rewrite (routeEffect_found M Number_toString locations s2 a b Hm2 Hl2);
        [| rewrite Hf2; now apply Hnames | rewrite Ht2; now apply Hnames
         | exact Ha | exact Hb].
      rewrite (generateDirections_three M Number_toString).
      split; [exact Hf2|]. split; [exact Ht2|]. split.
      - do 3 eexists.
        cbn [CampusMap.routeLayerRef CampusMap.set_directionMarkersRef CampusMap.set_view
             CampusMap.set_routeLayerRef].
        rewrite Hp2. reflexivity.
      - cbn [CampusMap.currentDirections CampusMap.set_directionMarkersRef
             CampusMap.set_view CampusMap.set_routeLayerRef
             CampusMap.setCurrentDirections].
        destruct (CampusMap.selectedPersona s2); cbn [List.length]; lia. }
    unfold CampusMap.sameRouteDeps. rewrite Hf2, Ht2, Hp2, Hl2, Hl.
    rewrite String.eqb_refl, andb_true_r. cbn [Bool.eqb]. rewrite andb_true_r.
    destruct (String.eqb_spec (CampusMap.fromLocation s) (CampusData.name nearest))
      as [Ef|Ef];
      destruct (String.eqb_spec (CampusMap.selectedLocation s) (CampusData.name best))
        as [Et|Et]; cbn [andb].
    + split; [exact Hf2|]. split; [exact Ht2|]. split; [intros [H|H]; contradiction|].
      intros _ _. auto.
    + split; [exact Rf|]. split; [exact Rt|]. split; [auto|intros; contradiction].
    + split; [exact Rf|]. split; [exact Rt|]. split; [auto|intros; contradiction].
    + split; [exact Rf|]. split; [exact Rt|]. split; [auto|intros; contradiction].
Qed.

(** The first request for a route from the library to the canteen draws
    it.  On a map whose start and destination are already these two and
    that shows no route, the same request draws nothing. *)
Lemma answer_draws_route_witness :
  let s := CampusMap.runTask Sample.registry CampusMap.createMap
             (CampusMap.set_leafletLoaded true CampusMap.initial) in
  let s0 := CampusMap.setSelectedLocation "Canteen"
              (CampusMap.setFromLocation "Library" s) in
  let st := {| AINavigator.messages := [];
               AINavigator.userLocation := Some (Sample.userLat, Sample.userLng);
               AINavigator.locationPermission := AINavigator.granted |} in
  exists st' calls,
    AINavigator.processQuery Sample.runtime Sample.registry st "snack" = Some (st', calls)
    /\ In (AINavigator.onRouteRequest "Library" "Canteen") calls
    /\ let page' := Home.calls Home.initial calls in
       (let s' :=
          CampusMap.receiveProps Sample.runtime Sample.Number_toString Sample.registry
            (Home.highlightedLocation page') true (Home.routeInfo page') true s in
        CampusMap.fromLocation s' = "Library"%string
        /\ CampusMap.selectedLocation s' = "Canteen"%string
        /\ (5 <= List.length (CampusMap.currentDirections s') <= 6)%nat)
       /\ (let s' :=
             CampusMap.receiveProps Sample.runtime Sample.Number_toString Sample.registry
               (Home.highlightedLocation page') true (Home.routeInfo page') true s0 in
           CampusMap.fromLocation s' = "Library"%string
           /\ CampusMap.selectedLocation s' = "Canteen"%string
           /\ CampusMap.routeLayerRef s' = None
           /\ CampusMap.currentDirections s' = []).
Proof.
  intros s s0 st.
  destruct (AINavigator.processQuery Sample.runtime Sample.registry st "snack")
    as [[st' calls]|] eqn:Hq; [|vm_compute in Hq; discriminate].
  assert (Hin : In (AINavigator.onRouteRequest "Library" "Canteen") calls).
  { vm_compute in Hq. injection Hq as _ Hc. rewrite <- Hc. now left. }
  assert (Hnames : forall l, In l Sample.registry -> CampusData.name l <> EmptyString)
    by (intros l [<-|[<-|[]]]; discriminate).
  exists st', calls. split; [reflexivity|]. split; [exact Hin|].
  cbv zeta. split.
  - destruct (answer_draws_route Sample.runtime Sample.Number_toString Sample.registry
                st st' "snack" calls "Library" "Canteen" Home.initial true s
                Hnames eq_refl eq_refl Hq Hin)
      as (_ & _ & Hf & Ht & Hdraw & _).
    split; [exact Hf|]. split; [exact Ht|].
    apply Hdraw. left. discriminate.
  - destruct (answer_draws_route Sample.runtime Sample.Number_toString Sample.registry
                st st' "snack" calls "Library" "Canteen" Home.initial true s0
                Hnames eq_refl eq_refl Hq Hin)
      as (_ & _ & Hf & Ht & _ & Hsame).
    split; [exact Hf|]. split; [exact Ht|].
    destruct (Hsame eq_refl eq_refl) as (Hr & _ & Hc).
    split; [rewrite Hr; reflexivity | rewrite Hc; reflexivity].
Defined.

(** ** Bearings outside the range *)

Section OutsideRange.
Import JS.

Lemma binary_round_aux_not_positive (mx ex : Z) (l : location) :
  Notions.not_positive (binary_round_aux prec emax true mx ex l) = true.
Proof.
  unfold binary_round_aux.
  destruct (shr_fexp prec emax mx ex l) as [mrs' e'].
  destruct (shr_fexp prec emax _ e' loc_Exact) as [mrs'' e''].
  destruct (shr_m mrs''); try reflexivity.
  now destruct (e'' <=? emax - prec).
Qed.

Lemma binary_normalize_not_positive (z e : Z) :
  z <= 0 -> Notions.not_positive (binary_normalize prec emax z e true) = true.
Proof.
  intros Hz. destruct z as [|p|p]; [reflexivity|lia|].
  unfold binary_normalize, binary_round.
  destruct (shl_align p e _) as [mz ez]. apply binary_round_aux_not_positive.
Qed.

Lemma div_not_positive (x : number) (m : positive) (e : Z) :
  ltb x zero = true ->
  Notions.not_positive (x / S754_finite false m e)%js = true.
Proof.
  destruct x as [s|[]| |[] mx ex]; try discriminate; intros _; [reflexivity|].
  unfold div, SFdiv.
  destruct (SFdiv_core_binary prec emax (Z.pos mx) ex (Z.pos m) e) as [[mz ez] lz].
  apply binary_round_aux_not_positive.
Qed.

Lemma Math_round_not_positive (x : number) :
  Notions.not_positive x = true -> Notions.not_positive (Math_round x) = true.
Proof.
  destruct x as [s|s| |s m e]; try (intros H; exact H).
  cbn [Notions.not_positive]. intros ->. unfold Math_round.
  destruct (Z.leb_spec 0 e) as [H|H]; [reflexivity|].
  apply binary_normalize_not_positive.
  assert (0 < 2 ^ (- e)) as Hp by (apply Z.pow_pos_nonneg; lia).
  assert (2 ^ (1 - e) = 2 * 2 ^ (- e)) as ->
    by (replace (1 - e) with (1 + - e) by lia; rewrite Z.pow_add_r by lia; reflexivity).
  unfold cond_Zopp.
  assert ((- (2 * Z.pos m) + 2 ^ (- e)) / (2 * 2 ^ (- e)) < 1); [|lia].
  apply Z.div_lt_upper_bound; lia.
Qed.

Lemma rem_not_positive (x d : number) :
  Notions.not_positive x = true -> Notions.not_positive (x mod d)%js = true.
Proof.
  destruct x as [s|s| |s m e]; destruct d as [sd|sd| |sd md ed];
    try reflexivity; try (intros H; exact H).
  cbn [Notions.not_positive]. intros ->. unfold rem.
  apply binary_normalize_not_positive. unfold cond_Zopp.
  assert (0 <= Z.rem (Z.pos (fst (shl_align m e (Z.min e ed))))
                     (Z.pos (fst (shl_align md ed (Z.min e ed))))); [|lia].
  apply Z.rem_nonneg; lia.
Qed.

Lemma to_integer_not_positive (x : number) (k : Z) :
  Notions.not_positive x = true -> to_integer x = Some k -> k <= 0.
Proof.
  destruct x as [s|s| |s m e]; try discriminate.
  - intros _ [= <-]. lia.
  - cbn [Notions.not_positive]. intros ->. unfold to_integer.
    destruct (0 <=? e).
    + intros E. assert (k = - (Z.pos m * 2 ^ e)) as -> by (unfold cond_Zopp in E; congruence).
      pose proof (Z.pow_nonneg 2 e ltac:(lia)) as Hp.
      pose proof (Z.mul_nonneg_nonneg (Z.pos m) (2 ^ e) ltac:(lia) Hp). lia.
    + destruct (Z.pos m mod 2 ^ (- e) =? 0); [|discriminate].
      intros E. assert (k = - (Z.pos m / 2 ^ (- e))) as ->
        by (unfold cond_Zopp in E; congruence).
      pose proof (Z.pow_nonneg 2 (- e) ltac:(lia)) as Hp.
      destruct (Z.eq_dec (2 ^ (- e)) 0) as [E0|E0].
      * rewrite E0, Z.div_0_r. lia.
      * pose proof (Z.div_pos (Z.pos m) (2 ^ (- e)) ltac:(lia) ltac:(lia)). lia.
Qed.

Lemma array_get_not_positive {A : Type} (a : list A) (i : number) :
  Notions.not_positive i = true ->
  array_get a i = None \/ array_get a i = nth_error a 0.
Proof.
  intros H. unfold array_get. destruct (to_integer i) as [k|] eqn:E; [|now left].
  pose proof (to_integer_not_positive i k H E) as Hk.
  destruct (Z.eq_dec k 0) as [->|Hk0].
  - destruct ((0 <=? 0) && (0 <? Z.of_nat (List.length a))); [now right|now left].
  - replace (0 <=? k) with false by (symmetry; apply Z.leb_gt; lia). now left.
Qed.

End OutsideRange.

(** X16: outside the range of a bearing: a bearing that is not a finite number
    has no direction ([undefined]); a negative bearing has none either,
    unless [bearing / 45] rounds to a multiple of 8, zero included, in
    which case the direction is north.  So -45 is not northwest, and -10
    is north. *)
Theorem bearingToDirection_outside_range :
  forall bearing : JS.number,
    (JS.is_finite bearing = false -> PathNetwork.bearingToDirection bearing = None)
    /\ (JS.ltb bearing JS.zero = true ->
        PathNetwork.bearingToDirection bearing = None
        \/ PathNetwork.bearingToDirection bearing = Some "north"%string).
Proof.
  intros bearing. split.
  - intros H. destruct bearing as [s|[]| |s m e]; try discriminate;
      vm_compute; reflexivity.
  - intros H. unfold PathNetwork.bearingToDirection. rewrite of_Z_45.
    apply (array_get_not_positive PathNetwork.directions).
    apply rem_not_positive, Math_round_not_positive. now apply div_not_positive.
Qed.

Lemma bearingToDirection_outside_range_witness :
  JS.ltb (JS.of_Z (-45)) JS.zero = true
  /\ PathNetwork.bearingToDirection (JS.of_Z (-45)) = None
  /\ JS.ltb (JS.of_Z (-10)) JS.zero = true
  /\ PathNetwork.bearingToDirection (JS.of_Z (-10)) = Some "north"%string
  /\ (PathNetwork.bearingToDirection (JS.of_Z (-360)) = None
      \/ PathNetwork.bearingToDirection (JS.of_Z (-360)) = Some "north"%string).
Proof.
  split; [reflexivity|]. split; [vm_compute; reflexivity|].
  split; [reflexivity|]. split; [vm_compute; reflexivity|].
  apply (proj2 (bearingToDirection_outside_range (JS.of_Z (-360)))). reflexivity.
Defined.

(** ** The shape of the keywords *)

Section Keywords.
Import JS.

Lemma lower_char_idempotent (c : ascii) : lower_char (lower_char c) = lower_char c.
Proof. destruct c as [[] [] [] [] [] [] [] []]; reflexivity. Qed.

Lemma toLowerCase_idempotent (s : string) : toLowerCase (toLowerCase s) = toLowerCase s.
Proof.
  induction s as [|c s IH]; [reflexivity|]. cbn [toLowerCase].
  now rewrite lower_char_idempotent, IH.
Qed.

Lemma word_lower (s : string) : Notions.word (toLowerCase s) = Notions.word s.
Proof.
  induction s as [|c s IH]; [reflexivity|]. cbn [toLowerCase Notions.word].
  now rewrite is_whitespace_lower, IH.
Qed.

Lemma word_app (s : string) (c : ascii) :
  Notions.word s = true -> is_whitespace c = false ->
  Notions.word (s ++ String c EmptyString) = true.
Proof.
  intros Hs Hc. induction s as [|d s IH]; cbn [append Notions.word] in *.
  - now rewrite Hc.
  - apply andb_true_iff in Hs. destruct Hs as [-> Hs]. now apply IH.
Qed.

Lemma append_assoc' (a b c : string) : ((a ++ b) ++ c = a ++ (b ++ c))%string.
Proof. induction a as [|x a IH]; cbn [append]; [reflexivity|now rewrite IH]. Qed.

Lemma append_empty_r (a : string) : (a ++ "" = a)%string.
Proof. induction a as [|x a IH]; cbn [append]; [reflexivity|now rewrite IH]. Qed.

(** The pieces of a split are words, and contiguous parts of the string
    that is split. *)
Lemma split_from_pieces (s : string) :
  forall piece in_run t,
    Notions.word piece = true -> (in_run = true -> piece = EmptyString) ->
    In t (split_from piece in_run s) ->
    Notions.word t = true
    /\ exists pre post, (piece ++ s = pre ++ t ++ post)%string.
Proof.
  induction s as [|c s IH]; intros piece in_run t Hw Hinv; cbn [split_from].
  - intros [<-|[]]. split; [assumption|]. exists EmptyString, EmptyString.
    cbn [append]. reflexivity.
  - destruct (is_whitespace c) eqn:Hc.
    + destruct in_run.
      * rewrite (Hinv eq_refl) in *. intros Ht.
        destruct (IH EmptyString true t eq_refl (fun _ => eq_refl) Ht)
          as (Hwt & pre & post & E).
        split; [assumption|]. exists (String c pre), post.
        cbn [append] in *. now rewrite E.
      * intros [<-|Ht].
        -- split; [assumption|]. exists EmptyString, (String c s). reflexivity.
        -- destruct (IH EmptyString true t eq_refl (fun _ => eq_refl) Ht)
             as (Hwt & pre & post & E).
           split; [assumption|]. exists (piece ++ String c pre)%string, post.
           cbn [append] in E. rewrite append_assoc'. cbn [append]. now rewrite E.
    + intros Ht.
      destruct (IH (piece ++ String c EmptyString)%string false t
                  (word_app piece c Hw Hc) ltac:(discriminate) Ht)
        as (Hwt & pre & post & E).
      split; [assumption|]. exists pre, post.
      rewrite <- E, append_assoc'. reflexivity.
Qed.

End Keywords.

(** X17: every keyword that [processQuery] extracts from a query has at least
    three characters, contains no white space and no upper-case letter, and
    is a contiguous part of the lowercased query. *)
Theorem keywordsOf_shape :
  forall (userQuery k : string),
    In k (AINavigator.keywordsOf userQuery) ->
    (3 <= String.length k)%nat
    /\ Notions.word k = true
    /\ JS.toLowerCase k = k
    /\ exists pre post, (JS.toLowerCase userQuery = pre ++ k ++ post)%string.
Proof.
  intros userQuery k Hk. rewrite keywordsOf_tokens in Hk.
  apply filter_In in Hk. destruct Hk as [Hk Hlong].
  split; [unfold Spec.long in Hlong; apply Nat.ltb_lt in Hlong; lia|].
  destruct (split_from_pieces (JS.toLowerCase userQuery) EmptyString false k
              eq_refl ltac:(discriminate) Hk) as (Hw & pre & post & E).
  split; [assumption|]. split.
  - rewrite tokens_lower in Hk. apply in_map_iff in Hk.
    destruct Hk as (t & <- & _). apply toLowerCase_idempotent.
  - exists pre, post. exact E.
Qed.

Lemma keywordsOf_shape_witness :
  In "quiet"%string (AINavigator.keywordsOf "Show me a QUIET place")
  /\ (3 <= String.length "quiet")%nat
  /\ JS.toLowerCase "quiet" = "quiet"%string.
Proof.
  assert (H : In "quiet"%string (AINavigator.keywordsOf "Show me a QUIET place"))
    by (vm_compute; tauto).
  split; [exact H|].
  destruct (keywordsOf_shape "Show me a QUIET place" "quiet" H) as (H1 & _ & H2 & _).
  now split.
Defined.

(** ** Coordinates that are not numbers *)

Section NotNumbers.
Import JS CampusData AINavigator.
Variable M : MathRuntime.
Hypothesis sin_nan : Math_sin M NaN = NaN.
Hypothesis atan2_nan : forall x, Math_atan2 M NaN x = NaN.

Lemma haversine_nan (a : number) :
  is_nan a = true ->
  (of_Z 6371000 * (of_Z 2 * Math_atan2 M (Math_sqrt a) (Math_sqrt (of_Z 1 - a))))%js = NaN.
Proof.
  destruct a; try discriminate. intros _.
  change (Math_sqrt S754_nan) with NaN. rewrite atan2_nan. reflexivity.
Qed.

(** A coordinate that is NaN makes the distance NaN. *)
Lemma calculateDistance_any_nan (lat1 lon1 lat2 lon2 : number) :
  is_nan lat1 || is_nan lon1 || is_nan lat2 || is_nan lon2 = true ->
  calculateDistance M lat1 lon1 lat2 lon2 = NaN.
Proof.
  intros H. unfold calculateDistance. cbv zeta. apply haversine_nan.
  assert (is_nan lat1 || is_nan lat2 = true \/ is_nan lon1 || is_nan lon2 = true) as [Hl|Hl].
  { destruct (is_nan lat1), (is_nan lon1), (is_nan lat2), (is_nan lon2);
      try discriminate; auto. }
  - rewrite (sub_nan lat1 lat2 Hl).
    change (((NaN * Math_PI) / of_Z 180) / of_Z 2)%js with NaN.
    rewrite sin_nan. reflexivity.
  - rewrite (sub_nan lon1 lon2 Hl).
    change (((NaN * Math_PI) / of_Z 180) / of_Z 2)%js with NaN.
    rewrite sin_nan, !mul_nan_r, add_nan_r. reflexivity.
Qed.

End NotNumbers.

(** X18: in a runtime whose [Math.sin] and [Math.atan2] propagate NaN, as
    ECMAScript requires, [findNearestLocation] never returns a location
    with a coordinate that is NaN, and returns [null] whenever a coordinate
    of the device position is NaN. *)
Theorem findNearestLocation_skips_nan :
  forall (M : JS.MathRuntime),
    JS.Math_sin M JS.NaN = JS.NaN ->
    (forall x, JS.Math_atan2 M JS.NaN x = JS.NaN) ->
    forall (locations : list CampusData.Location) (userLat userLng : JS.number)
           (nearest : CampusData.Location),
      AINavigator.findNearestLocation M locations userLat userLng = Some nearest ->
      JS.is_nan (CampusData.lat nearest) = false
      /\ JS.is_nan (CampusData.lng nearest) = false
      /\ JS.is_nan userLat = false /\ JS.is_nan userLng = false.
Proof.
  intros M Hsin Hatan locations userLat userLng nearest H.
  destruct (findNearestLocation_first M userLat userLng locations nearest H)
    as (_ & _ & _ & Hfin & _).
  apply ltb_not_nan in Hfin. destruct Hfin as [Hd _].
  destruct (JS.is_nan userLat || JS.is_nan userLng
            || JS.is_nan (CampusData.lat nearest)
            || JS.is_nan (CampusData.lng nearest)) eqn:E.
  - rewrite (calculateDistance_any_nan M Hsin Hatan _ _ _ _ E) in Hd. discriminate.
  - apply orb_false_iff in E. destruct E as [E E4].
    apply orb_false_iff in E. destruct E as [E E3].
    apply orb_false_iff in E. destruct E as [E1 E2]. repeat split; assumption.
Qed.

Lemma findNearestLocation_skips_nan_witness :
  AINavigator.findNearestLocation Sample.runtime [Sample.nowhere; Sample.canteen]
    Sample.userLat Sample.userLng = Some Sample.canteen
  /\ JS.is_nan (CampusData.lat Sample.canteen) = false.
Proof.
  assert (H : AINavigator.findNearestLocation Sample.runtime
                [Sample.nowhere; Sample.canteen] Sample.userLat Sample.userLng
              = Some Sample.canteen) by (vm_compute; reflexivity).
  split; [exact H|].
  exact (proj1 (findNearestLocation_skips_nan Sample.runtime eq_refl
                  (fun x => eq_refl) _ _ _ _ H)).
Defined.

(** ** The creation of the map *)

Section Creation.
Import JS CampusData CampusMap.
Variable locations : list Location.

Lemma elapse_created (delay : Z) :
  250 <= delay ->
  elapse locations delay (initEffect (leafletOnload initial))
  = set_clock delay
      (set_markersRef (map newMarker locations)
         (set_mapRef true
            (set_timers (if 350 <=? delay then [] else [(350, invalidateSize)])
               (set_view (Some (setView campusCenter 17))
                  (set_clock (if 350 <=? delay then 350 else 250)
                     (set_leafletLoaded true initial)))))).
Proof.
  intros H. cbv -[Z.leb newMarker campusCenter map].
  replace (250 <=? delay) with true by (symmetry; apply Z.leb_le; lia).
  destruct (350 <=? delay); reflexivity.
Qed.

Lemma elapse_not_created (delay : Z) :
  delay < 250 ->
  elapse locations delay (initEffect (leafletOnload initial))
  = set_clock delay (initEffect (leafletOnload initial)).
Proof.
  intros H. cbv -[Z.leb newMarker campusCenter map].
  now replace (250 <=? delay) with false by (symmetry; apply Z.leb_gt; lia).
Qed.

End Creation.

(** X19: the map is created 250 ms after Leaflet has loaded, not before: from
    then on there is one marker for each registry location, in the order
    of the registry and with the location's own icon, the view is centred
    on the campus at zoom 17, and running the creation effect again
    changes nothing; the only timer left is the one that redraws the map
    100 ms later.  Until the map is created the route effect draws nothing
    and the highlight effect does nothing. *)
Theorem map_created_after_250ms :
  forall (M : JS.MathRuntime) (Number_toString : JS.number -> string)
         (locations : list CampusData.Location) (delay : Z),
    let s :=
      CampusMap.elapse locations delay
        (CampusMap.initEffect (CampusMap.leafletOnload CampusMap.initial)) in
    (250 <= delay ->
     CampusMap.mapRef s = true
     /\ CampusMap.markersRef s = map CampusMap.newMarker locations
     /\ CampusMap.view s = Some (CampusMap.setView CampusMap.campusCenter 17)
     /\ CampusMap.timers s
        = (if 350 <=? delay then [] else [(350, CampusMap.invalidateSize)])
     /\ CampusMap.initEffect s = s)
    /\ (delay < 250 ->
        CampusMap.mapRef s = false
        /\ CampusMap.markersRef s = []
        /\ (forall h, CampusMap.highlightEffect locations h s = s)
        /\ forall from to,
             CampusMap.routeLayerRef
               (CampusMap.routeEffect M Number_toString locations
                  (CampusMap.setSelectedLocation to (CampusMap.setFromLocation from s)))
             = None).
Proof.
  intros M Number_toString locations delay s. unfold s. split; intros H.
  - rewrite (elapse_created locations delay H). repeat split.
  - rewrite (elapse_not_created locations delay H). repeat split.
    intros [h|]; reflexivity.
Qed.

Lemma map_created_after_250ms_witness :
  let s :=
    CampusMap.elapse Sample.registry 250
      (CampusMap.initEffect (CampusMap.leafletOnload CampusMap.initial)) in
  250 <= 250
  /\ CampusMap.mapRef s = true
  /\ CampusMap.markersRef s = map CampusMap.newMarker Sample.registry.
Proof.
  intros s. split; [lia|].
  destruct (proj1 (map_created_after_250ms Sample.runtime Sample.Number_toString
                     Sample.registry 250) ltac:(lia)) as (H1 & H2 & _).
  now split.
Defined.

(** ** The way back *)

Section WayBack.
Import JS CampusData.

Lemma add_comm (x y : number) : (x + y)%js = (y + x)%js.
Proof.
  destruct x as [sx|sx| |sx mx ex], y as [sy|sy| |sy my ey];
    try reflexivity; try (now destruct sx, sy).
  unfold add, SFadd.
  change (IntDef.Z.min ex ey) with (Z.min ex ey).
  change (IntDef.Z.min ey ex) with (Z.min ey ex).
  now rewrite (Z.min_comm ey ex), Z.add_comm.
Qed.

End WayBack.

(** X20: the path from b to a is the path from a to b walked backwards: the
    same three points (the midpoint is the same number, since the addition
    of numbers is commutative), names and node types in the reverse order;
    only the ids [start], [mid] and [end] stay in place. *)
Theorem findPath_way_back :
  forall (locations : list CampusData.Location) (a b : string)
         (path : list PathNetwork.PathNode),
    PathNetwork.findPath locations a b = Some path ->
    let seen (n : PathNetwork.PathNode) :=
      (PathNetwork.lat n, PathNetwork.lng n, PathNetwork.name n, PathNetwork.type n) in
    exists back,
      PathNetwork.findPath locations b a = Some back
      /\ map seen back = rev (map seen path)
      /\ map PathNetwork.id back = map PathNetwork.id path.
Proof.
  intros locations a b path H seen. unfold PathNetwork.findPath in *.
  destruct (find (fun loc => String.eqb (CampusData.name loc) a) locations) as [la|];
    [|discriminate].
  destruct (find (fun loc => String.eqb (CampusData.name loc) b) locations) as [lb|];
    [|discriminate].
  injection H as <-. eexists. split; [reflexivity|]. split; [|reflexivity].
  unfold seen. cbn [map rev app PathNetwork.lat PathNetwork.lng PathNetwork.name
                    PathNetwork.type].
  now rewrite (add_comm (CampusData.lat lb)), (add_comm (CampusData.lng lb)).
Qed.

Lemma findPath_way_back_witness :
  exists path back,
    PathNetwork.findPath Sample.registry "Library" "Canteen" = Some path
    /\ PathNetwork.findPath Sample.registry "Canteen" "Library" = Some back
    /\ map PathNetwork.name back = ["Canteen"; "Midpoint"; "Library"]%string.
Proof.
  destruct (PathNetwork.findPath Sample.registry "Library" "Canteen") as [path|] eqn:H;
    [|discriminate].
  destruct (findPath_way_back Sample.registry "Library" "Canteen" path H)
    as (back & Hb & Hseen & _).
  exists path, back. split; [reflexivity|]. split; [exact Hb|].
  unfold PathNetwork.findPath in H, Hb. cbn [Sample.registry find] in H, Hb.
  change (String.eqb (CampusData.name Sample.library) "Library") with true in H, Hb.
  change (String.eqb (CampusData.name Sample.library) "Canteen") with false in H, Hb.
  change (String.eqb (CampusData.name Sample.canteen) "Canteen") with true in H, Hb.
  cbv iota in Hb. injection Hb as <-. reflexivity.
Defined.
